(** * SyncSentinel: log parser, record reduction and sink reconciliation

    A shallow embedding of [syncsentinel/parser.py] ([parse_sync_log],
    [get_file_type], [extract_unique_files], [append_to_csv]), of
    [syncsentinel/handler.py] ([LogFileHandler.on_created]), of the
    write requests and the sheet references of [google_sheets.py]
    ([upload_data], [extract_sheet_info], [resolve_sheet_name],
    [get_sheet_names]), of the clipboard cache of
    [syncsentinel/gui_utils.py], of the processing loop of [main.py] and
    of the CSV writer of the stand-alone [parse_sync_log.py], followed
    by the properties of the design document that can be settled on it
    and by further properties of the code.

    Conventions of the embedding.
    - A Python [str] is a [list ascii] (type [str]).  Text is read as its
      UTF-8 bytes; the character classes of the patterns ([\d], [\w],
      [\s]) and [str.strip], [str.lower], [str.upper], [str.splitlines]
      are modelled on the ASCII range and leave every byte above 127
      alone.
    - A Python value that may be [None] is an [option].
    - A call that may raise returns an [outcome]: [Ok v] or [Raise e].
    - A dictionary whose iteration order is observable is an association
      list in insertion order. *)

From Stdlib Require Import String List Ascii Bool Arith NArith Lia.
From Stdlib Require DecimalN.
Import ListNotations.

Set Implicit Arguments.

(* ------------------------------------------------------------------ *)
(** ** Exceptions *)

Inductive exn : Type :=
| ValueError
| IndexError
| OSError.

Inductive outcome (A : Type) : Type :=
| Ok (a : A)
| Raise (e : exn).

Arguments Ok {A} a.
Arguments Raise {A} e.

Definition bind {A B : Type} (m : outcome A) (f : A -> outcome B) : outcome B :=
  match m with
  | Ok a => f a
  | Raise e => Raise e
  end.

Notation "x <- m ;; k" := (bind m (fun x => k))
  (at level 61, m at next level, right associativity).

(* ------------------------------------------------------------------ *)
(** ** Python strings *)

Definition str : Type := list ascii.

Module Py.

(** A literal of the source. *)
Definition lit (s : String.string) : str := String.list_ascii_of_string s.

Definition code (c : ascii) : N := N_of_ascii c.

Definition chr_eqb (a b : ascii) : bool := Ascii.eqb a b.

Fixpoint eqb (a b : str) : bool :=
  match a, b with
  | [], [] => true
  | x :: a', y :: b' => chr_eqb x y && eqb a' b'
  | _, _ => false
  end.

(** [x in l] for a list of strings. *)
Definition mem (x : str) (l : list str) : bool := existsb (eqb x) l.

Definition between (lo hi : N) (c : ascii) : bool :=
  (lo <=? code c)%N && (code c <=? hi)%N.

Definition is_digit (c : ascii) : bool := between 48 57 c.
Definition is_upper (c : ascii) : bool := between 65 90 c.
Definition is_lower (c : ascii) : bool := between 97 122 c.

(** [\w] *)
Definition is_word (c : ascii) : bool :=
  is_digit c || is_upper c || is_lower c || (code c =? 95)%N.

(** White space of [str.strip] and of [\s]: TAB, LF, VT, FF, CR,
    FS, GS, RS, US and the blank. *)
Definition is_space (c : ascii) : bool :=
  between 9 13 c || between 28 31 c || (code c =? 32)%N.

Definition lower_chr (c : ascii) : ascii :=
  if is_upper c then ascii_of_N (code c + 32) else c.

Definition upper_chr (c : ascii) : ascii :=
  if is_lower c then ascii_of_N (code c - 32) else c.

(** [s.lower()] and [s.upper()] *)
Definition lower (s : str) : str := map lower_chr s.
Definition upper (s : str) : str := map upper_chr s.

(** [s.lstrip()], [s.rstrip()], [s.strip()] *)
Fixpoint lstrip (s : str) : str :=
  match s with
  | c :: s' => if is_space c then lstrip s' else s
  | [] => []
  end.

Definition rstrip (s : str) : str := rev (lstrip (rev s)).

Definition strip (s : str) : str := rstrip (lstrip s).

(** [s.startswith(p)] *)
Fixpoint startswith (s p : str) : bool :=
  match p, s with
  | [], _ => true
  | x :: p', y :: s' => chr_eqb x y && startswith s' p'
  | _ :: _, [] => false
  end.

(** [s.endswith(p)] *)
Definition endswith (s p : str) : bool := startswith (rev s) (rev p).

(** [p in s] for strings *)
Fixpoint contains (s p : str) : bool :=
  startswith s p ||
  match s with
  | [] => false
  | _ :: s' => contains s' p
  end.

(** [s.split(sep)] for a one-character separator: the pieces between the
    occurrences of [sep], never an empty list. *)
Fixpoint split (sep : ascii) (s : str) : list str :=
  match s with
  | [] => [[]]
  | c :: s' =>
      if chr_eqb c sep then [] :: split sep s'
      else match split sep s' with
           | p :: ps => (c :: p) :: ps
           | [] => [[c]]
           end
  end.

(** [s.replace(c, '')] for a one-character [c] *)
Definition remove_chr (c : ascii) (s : str) : str :=
  filter (fun x => negb (chr_eqb x c)) s.

(** [l[-1]] *)
Definition last_item {A : Type} (l : list A) : outcome A :=
  match rev l with
  | x :: _ => Ok x
  | [] => Raise IndexError
  end.

(** [l[i]] for [0 <= i] *)
Definition item {A : Type} (l : list A) (i : nat) : outcome A :=
  match nth_error l i with
  | Some x => Ok x
  | None => Raise IndexError
  end.

(** CPython's default limit on the number of digits [int] converts
    ([sys.int_info.default_max_str_digits]). *)
Definition int_max_str_digits : nat := 4300.

Definition digit_value (c : ascii) : N := (code c - 48)%N.

(** [int(s)] on the strings the parser passes to it (no sign, no blanks,
    no underscores): [ValueError] on an empty string, on a character that
    is not a digit and on more than [int_max_str_digits] digits. *)
Definition int (s : str) : outcome N :=
  match s with
  | [] => Raise ValueError
  | _ :: _ =>
      if forallb is_digit s && (length s <=? int_max_str_digits)
      then Ok (fold_left (fun acc c => (10 * acc + digit_value c)%N) s 0%N)
      else Raise ValueError
  end.

(** Line boundaries of [str.splitlines] in the ASCII range:
    LF, VT, FF, CR, FS, GS, RS; CR LF counts once. *)
Definition is_linebreak (c : ascii) : bool :=
  between 10 13 c || between 28 30 c.

(** The scan of [splitlines]: [cur] is the current line, reversed. *)
Fixpoint splitlines_from (cur : str) (s : str) : list str :=
  match s with
  | [] => match cur with [] => [] | _ :: _ => [rev cur] end
  | c :: s' =>
      if is_linebreak c then
        match s' with
        | d :: s'' =>
            if (code c =? 13)%N && (code d =? 10)%N
            then rev cur :: splitlines_from [] s''
            else rev cur :: splitlines_from [] s'
        | [] => [rev cur]
        end
      else splitlines_from (c :: cur) s'
  end.

(** [s.splitlines()] *)
Definition splitlines (s : str) : list str := splitlines_from [] s.

End Py.

Notation "'$' s" := (Py.lit s%string) (at level 1, s at level 0, format "'$' s").

(* ------------------------------------------------------------------ *)
(** ** The classifier: [get_file_type] *)

Module Classifier.

(** The dictionary [file_types], in insertion order. *)
Definition file_types : list (str * list str) :=
  [ ($"Image", [$".png"; $".jpeg"; $".jpg"; $".bmp"; $".tiff"; $".tif";
                $".exr"; $".tga"; $".dpx"]);
    ($"Video", [$".mov"]);
    ($"Audio", [$".mp3"; $".wav"; $".aiff"]);
    ($"3D",    [$".abc"; $".fbx"; $".obj"]) ].

(** The loop [for type_name, exts in file_types.items()] on an already
    lower-cased extension. *)
Fixpoint lookup_type (tbl : list (str * list str)) (e : str) : str :=
  match tbl with
  | [] => $"Unknown"
  | (type_name, exts) :: rest =>
      if Py.mem e exts then type_name else lookup_type rest e
  end.

Definition get_file_type (extension : str) : str :=
  lookup_type file_types (Py.lower extension).

(** Every extension of the table. *)
Definition known_extensions : list str := concat (map snd file_types).

(** The closed set of categories. *)
Definition categories : list str :=
  [$"Image"; $"Video"; $"Audio"; $"3D"; $"Unknown"].

End Classifier.

(* ------------------------------------------------------------------ *)
(** ** The fragment of [re] the parser uses

    Literal text, a greedy [+] over a character class, concatenation and
    capture groups.  [exec] is a backtracking matcher in continuation
    style: a [+] first tries to take one more character and only then
    hands over to what follows, which is the priority order of Python's
    engine, so the first success is the match Python reports. *)

Module Re.

Inductive re : Type :=
| Eps
| Lit (p : str)
| Plus (cls : ascii -> bool)
| Seq (r1 r2 : re)
| Grp (r : re).

(** Concatenation of the pieces of a pattern, left to right. *)
Fixpoint cat (l : list re) : re :=
  match l with
  | [] => Eps
  | r :: rs => Seq r (cat rs)
  end.

(** Character classes. *)
Definition any_but (c : ascii) : ascii -> bool := fun x => negb (Py.chr_eqb x c).
Definition dot : ascii -> bool := any_but (ascii_of_N 10).
Definition digit_or (c : ascii) : ascii -> bool :=
  fun x => Py.is_digit x || Py.chr_eqb x c.

Section Exec.
Variable A : Type.

(** [s] without its prefix [p], when it has that prefix. *)
Fixpoint drop_prefix (p s : str) : option str :=
  match p, s with
  | [], _ => Some s
  | x :: p', y :: s' => if Py.chr_eqb x y then drop_prefix p' s' else None
  | _ :: _, [] => None
  end.

Fixpoint exec_plus (cls : ascii -> bool) (s : str) (k : str -> option A)
  : option A :=
  match s with
  | c :: s' =>
      if cls c then
        match exec_plus cls s' k with
        | Some a => Some a
        | None => k s'
        end
      else None
  | [] => None
  end.

(** [k] receives the rest of the subject and the groups captured by [r]. *)
Fixpoint exec (r : re) (s : str) (k : str -> list str -> option A)
  : option A :=
  match r with
  | Eps => k s []
  | Lit p =>
      match drop_prefix p s with
      | Some s' => k s' []
      | None => None
      end
  | Plus cls => exec_plus cls s (fun s' => k s' [])
  | Seq r1 r2 =>
      exec r1 s (fun s1 c1 => exec r2 s1 (fun s2 c2 => k s2 (c1 ++ c2)))
  | Grp r1 =>
      exec r1 s (fun s' c => k s' (firstn (length s - length s') s :: c))
  end.
End Exec.

(** A match object: the captured groups and the text after the match. *)
Definition match_at (r : re) (s : str) : option (list str * str) :=
  exec r s (fun rest caps => Some (caps, rest)).

(** [re.match(r, s)]: the groups of a match at the start of [s]. *)
Definition re_match (r : re) (s : str) : option (list str) :=
  option_map fst (match_at r s).

(** [re.search(r, s)]: the groups of the leftmost match. *)
Fixpoint re_search (r : re) (s : str) : option (list str) :=
  match re_match r s with
  | Some caps => Some caps
  | None =>
      match s with
      | [] => None
      | _ :: s' => re_search r s'
      end
  end.

(** [m.group(n)] for [n >= 1]. *)
Definition group (caps : list str) (n : nat) : outcome str :=
  Py.item caps (n - 1).

(** The scan of [re.findall]: matches do not overlap, so after a match
    of [n] characters the next [n - 1] positions are skipped. *)
Fixpoint findall_from (r : re) (skip : nat) (s : str) : list (list str) :=
  match skip with
  | S n =>
      match s with
      | _ :: s' => findall_from r n s'
      | [] => []
      end
  | 0 =>
      match match_at r s with
      | Some (caps, rest) =>
          caps :: match s with
                  | _ :: s' => findall_from r (length s - length rest - 1) s'
                  | [] => []
                  end
      | None =>
          match s with
          | _ :: s' => findall_from r 0 s'
          | [] => []
          end
      end
  end.

(** [re.findall(r, s)] for a pattern with one group: the list of the
    texts of that group. *)
Definition re_findall (r : re) (s : str) : list str :=
  map (fun caps => hd [] caps) (findall_from r 0 s).

End Re.

(* ------------------------------------------------------------------ *)
(** ** The parsed log: the dictionary built by [parse_sync_log] *)

Record FileEvent : Type := mkFileEvent {
  timestamp : str;
  file_path : str
}.

Record SyncOperation : Type := mkSyncOperation {
  source : str;
  destination : str;
  files_created : list FileEvent
}.

Record SyncRun : Type := mkSyncRun {
  sync_name : option str;
  date : option str;
  start_time : option str;
  items_processed : option N;
  total_size : option str;
  total_time : option str;
  comparison_items : option N;
  comparison_time : option str;
  sync_operations : list SyncOperation
}.

Module Parser.
Import Re.

(** The dictionary both branches start from. *)
Definition empty_run : SyncRun :=
  mkSyncRun None None None None None None None None [].

Definition set_header (n d t : str) (r : SyncRun) : SyncRun :=
  mkSyncRun (Some n) (Some d) (Some t) (items_processed r) (total_size r)
    (total_time r) (comparison_items r) (comparison_time r)
    (sync_operations r).

Definition set_items (n : N) (sz : str) (r : SyncRun) : SyncRun :=
  mkSyncRun (sync_name r) (date r) (start_time r) (Some n) (Some sz)
    (total_time r) (comparison_items r) (comparison_time r)
    (sync_operations r).

Definition set_total_time (t : str) (r : SyncRun) : SyncRun :=
  mkSyncRun (sync_name r) (date r) (start_time r) (items_processed r)
    (total_size r) (Some t) (comparison_items r) (comparison_time r)
    (sync_operations r).

Definition set_comparison (n : N) (t : str) (r : SyncRun) : SyncRun :=
  mkSyncRun (sync_name r) (date r) (start_time r) (items_processed r)
    (total_size r) (total_time r) (Some n) (Some t) (sync_operations r).

Definition set_operations (ops : list SyncOperation) (r : SyncRun) : SyncRun :=
  mkSyncRun (sync_name r) (date r) (start_time r) (items_processed r)
    (total_size r) (total_time r) (comparison_items r) (comparison_time r)
    ops.

(** *** The patterns *)

Definition dq : str := [ascii_of_N 34].
(** The en dash of the comparison line, U+2013, as UTF-8. *)
Definition en_dash : str := [ascii_of_N 226; ascii_of_N 128; ascii_of_N 147].

Definition digits : re := Plus Py.is_digit.
Definition word : re := Plus Py.is_word.
Definition spaces : re := Plus Py.is_space.

(** [\d+/\d+/\d+] *)
Definition mdy : re := cat [digits; Lit $"/"; digits; Lit $"/"; digits].
(** [\d+:\d+:\d+] *)
Definition hms : re := cat [digits; Lit $":"; digits; Lit $":"; digits].
(** [\d+:\d+:\d+ \w+] *)
Definition clock : re := cat [hms; Lit $" "; word].

(** [(.+) (\d+/\d+/\d+) \[(\d+:\d+:\d+ \w+)\]] *)
Definition header_re : re :=
  cat [Grp (Plus dot); Lit $" "; Grp mdy; Lit $" ["; Grp clock; Lit $"]"].

(** [Items processed: (\d+) \(([\d.]+ \w+)\)] *)
Definition items_re : re :=
  cat [Lit $"Items processed: "; Grp digits; Lit $" (";
       Grp (cat [Plus (digit_or "."%char); Lit $" "; word]); Lit $")"].

(** [Total time: (\d+:\d+:\d+)] *)
Definition total_time_re : re := cat [Lit $"Total time: "; Grp hms].

(** [Info:\s+Comparison finished: ([\d,]+) items found - Time elapsed: (\d+:\d+:\d+)],
    the dash being the en dash. *)
Definition comparison_re : re :=
  cat [Lit $"Info:"; spaces; Lit $"Comparison finished: ";
       Grp (Plus (digit_or ","%char));
       Lit ($" items found " ++ en_dash ++ $" Time elapsed: "); Grp hms].

(** [Info:\s+Creating file "(.+)"] *)
Definition creating_re : re :=
  cat [Lit $"Info:"; spaces; Lit ($"Creating file " ++ dq);
       Grp (Plus dot); Lit dq].

(** [\[(\d+:\d+:\d+ \w+)\]] *)
Definition bracket_time_re : re := cat [Lit $"["; Grp clock; Lit $"]"].

(** [<span style="font-weight:600; color:gray;">([^<]+)</span>] *)
Definition name_re : re :=
  cat [Lit ($"<span style=" ++ dq ++ $"font-weight:600; color:gray;" ++ dq ++ $">");
       Grp (Plus (any_but "<"%char)); Lit $"</span>"].

(** [(\d+/\d+/\d+)] *)
Definition date_re : re := Grp mdy.

(** [(\d+:\d+:\d+ \w+)</span>] *)
Definition start_time_re : re := cat [Grp clock; Lit $"</span>"].

(** [<td valign="top">(\d+:\d+:\d+ \w+)</td>] *)
Definition td_re : re :=
  cat [Lit ($"<td valign=" ++ dq ++ $"top" ++ dq ++ $">"); Grp clock; Lit $"</td>"].

(** [Creating file &quot;([^&]+)&quot;] *)
Definition creating_html_re : re :=
  cat [Lit $"Creating file &quot;"; Grp (Plus (any_but "&"%char)); Lit $"&quot;"].

Definition folder_pair_marker : str := $"Synchronizing folder pair: Update >".

(** *** The HTML branch *)

(** [m.group(1)] of an optional match, [None] when there is none. *)
Definition group1 (m : option (list str)) : option str :=
  match m with
  | Some (g :: _) => Some g
  | _ => None
  end.

Definition parse_html (content : str) : SyncRun :=
  let name_match := re_search name_re content in
  let date_match := re_search date_re content in
  let time_match := re_search start_time_re content in
  let timestamps := re_findall td_re content in
  let file_paths := re_findall creating_html_re content in
  let files_created :=
    map (fun p => mkFileEvent (fst p) (snd p)) (combine timestamps file_paths) in
  mkSyncRun (group1 name_match) (group1 date_match) (group1 time_match)
    None None None None None
    ([] ++ [mkSyncOperation [] [] files_created]).

(** *** The LOG branch *)

(** The two summary tests, an [if]/[elif] that never ends the iteration. *)
Definition summary (line : str) (data : SyncRun) : outcome SyncRun :=
  if Py.startswith line $"|    Items processed:" then
    match re_search items_re line with
    | Some m =>
        c <- group m 1 ;; n <- Py.int c ;; sz <- group m 2 ;;
        Ok (set_items n sz data)
    | None => Ok data
    end
  else if Py.startswith line $"|    Total time:" then
    match re_search total_time_re line with
    | Some m => t <- group m 1 ;; Ok (set_total_time t data)
    | None => Ok data
    end
  else Ok data.

(** [ops[-1]['files_created'].append(ev)] *)
Fixpoint append_to_last (ops : list SyncOperation) (ev : FileEvent)
  : outcome (list SyncOperation) :=
  match ops with
  | [] => Raise IndexError
  | [op] =>
      Ok [mkSyncOperation (source op) (destination op) (files_created op ++ [ev])]
  | op :: rest => rest' <- append_to_last rest ev ;; Ok (op :: rest')
  end.

(** The last test of an iteration: a "Creating file" line. *)
Definition creating (line : str) (data : SyncRun) : outcome SyncRun :=
  match re_search creating_re line with
  | Some m =>
      match sync_operations data with
      | [] => Ok data
      | _ :: _ =>
          path <- group m 1 ;;
          match re_match bracket_time_re line with
          | Some tm =>
              ts <- group tm 1 ;;
              ops <- append_to_last (sync_operations data) (mkFileEvent ts path) ;;
              Ok (set_operations ops data)
          | None => Ok data
          end
      end
  | None => Ok data
  end.

(** One iteration of the [while] loop at index [i]: the next index and
    the updated dictionary. *)
Definition step (lines : list str) (i : nat) (data : SyncRun)
  : outcome (nat * SyncRun) :=
  raw <- Py.item lines i ;;
  let line := Py.strip raw in
  match line with
  | [] => Ok (i + 1, data)
  | _ :: _ =>
      match re_match header_re line with
      | Some m =>
          n <- group m 1 ;; d <- group m 2 ;; t <- group m 3 ;;
          Ok (i + 1, set_header n d t data)
      | None =>
          data1 <- summary line data ;;
          match re_search comparison_re line with
          | Some m =>
              c <- group m 1 ;;
              n <- Py.int (Py.remove_chr ","%char c) ;;
              t <- group m 2 ;;
              Ok (i + 1, set_comparison n t data1)
          | None =>
              let rest_of_iteration :=
                data2 <- creating line data1 ;; Ok (i + 1, data2) in
              if Py.contains line folder_pair_marker then
                if i + 2 <? length lines then
                  src <- Py.item lines (i + 1) ;;
                  dst <- Py.item lines (i + 2) ;;
                  let current_operation :=
                    mkSyncOperation (Py.strip src) (Py.strip dst) [] in
                  Ok (i + 3,
                      set_operations (sync_operations data1 ++ [current_operation]) data1)
                else rest_of_iteration
              else rest_of_iteration
          end
      end
  end.

(** [while i < len(lines)]; [None] only when the iteration budget
    [fuel] is used up before the loop ends. *)
Fixpoint scan (fuel : nat) (lines : list str) (i : nat) (data : SyncRun)
  : option (outcome SyncRun) :=
  if i <? length lines then
    match fuel with
    | 0 => None
    | S fuel' =>
        match step lines i data with
        | Ok (i', data') => scan fuel' lines i' data'
        | Raise e => Some (Raise e)
        end
    end
  else Some (Ok data).

Definition parse_log (content : str) : option (outcome SyncRun) :=
  let lines := Py.splitlines content in
  scan (length lines) lines 0 empty_run.

(** [parse_sync_log], given the path and the text read from it. *)
Definition parse_sync_log (log_file_path content : str)
  : option (outcome SyncRun) :=
  if Py.endswith (Py.lower log_file_path) $".html" then
    Some (Ok (parse_html content))
  else parse_log content.

End Parser.

(* ------------------------------------------------------------------ *)
(** ** Record reduction: [extract_unique_files] *)

(** The value stored under a file name in [unique_files]. *)
Record FileInfo : Type := mkFileInfo {
  info_timestamp : str;
  info_file_type : str;
  info_section : str;
  info_file_name : str
}.

Module Reducer.

Definition backslash : ascii := "\"%char.

(** [file_path.split('\\')[-1]]; [split] never returns an empty list, so
    the default of [last] is not used. *)
Definition file_name_of (path : str) : str :=
  last (Py.split backslash path) [].

(** ['.' + file_name.split('.')[-1] if '.' in file_name else ''] *)
Definition extension_of (file_name : str) : str :=
  if Py.contains file_name $"." then
    $"." ++ last (Py.split "."%char file_name) []
  else [].

(** [l.index(x)]; [None] stands for the [ValueError] the code catches. *)
Fixpoint index (x : str) (l : list str) : option nat :=
  match l with
  | [] => None
  | y :: l' => if Py.eqb y x then Some 0 else option_map S (index x l')
  end.

Definition section_of (path : str) : str :=
  let path_parts := Py.split backslash path in
  match index $"VideoFile" path_parts with
  | Some video_file_index =>
      if video_file_index + 1 <? length path_parts
      then nth (video_file_index + 1) path_parts []
      else []
  | None => []
  end.

(** [file_name in unique_files] *)
Definition has_key (k : str) (d : list (str * FileInfo)) : bool :=
  existsb (fun kv => Py.eqb k (fst kv)) d.

(** The body of the inner loop: a name already present is left alone, a
    new one is added at the end of the dictionary. *)
Definition add_file (unique_files : list (str * FileInfo)) (file_info : FileEvent)
  : list (str * FileInfo) :=
  let path := file_path file_info in
  let file_name := file_name_of path in
  if negb (has_key file_name unique_files) then
    let extension := extension_of file_name in
    let file_type := Classifier.get_file_type extension in
    let section := section_of path in
    unique_files ++
      [(file_name, mkFileInfo (timestamp file_info) file_type section file_name)]
  else unique_files.

Definition add_operation (unique_files : list (str * FileInfo)) (operation : SyncOperation)
  : list (str * FileInfo) :=
  fold_left add_file (files_created operation) unique_files.

Definition extract_unique_files (parsed_data : SyncRun) : list (str * FileInfo) :=
  fold_left add_operation (sync_operations parsed_data) [].

(** The file events of a run in the order the two loops meet them. *)
Definition events_of (parsed_data : SyncRun) : list FileEvent :=
  flat_map files_created (sync_operations parsed_data).

End Reducer.

(* ------------------------------------------------------------------ *)
(** ** The local sink: [append_to_csv]

    A record is the list of its fields.  A CSV file is kept as the
    records that [csv.reader] finds in it closed by a line terminator,
    followed by the raw text after the last of them when the file does
    not end where a record ends (a last line without terminator, or a
    quote left open): text written behind such a file continues its
    last line.  The file has size zero exactly when it has neither. *)

Module Csv.

Definition row : Type := list str.

Definition fieldnames : row :=
  [$"Date"; $"Time"; $"Type"; $"Section"; $"File Name"].

Definition break_marker : str := $"--- New Log Entry ---".

(** A row dictionary: the string keys in insertion order with values
    that may be [None], and the entry [DictReader] files under the key
    [None] (its [restkey]) for the surplus fields of a long row. *)
Record rowdict : Type := mkRowdict {
  items : list (str * option str);
  rest : option (list str)
}.

Fixpoint dict_set (k : str) (v : option str) (d : list (str * option str))
  : list (str * option str) :=
  match d with
  | [] => [(k, v)]
  | (k', v') :: d' =>
      if Py.eqb k k' then (k, v) :: d' else (k', v') :: dict_set k v d'
  end.

Fixpoint dict_get (k : str) (d : list (str * option str)) : option (option str) :=
  match d with
  | [] => None
  | (k', v') :: d' => if Py.eqb k k' then Some v' else dict_get k d'
  end.

(** [dict(zip(keys, values))] *)
Definition dict_zip (keys : list str) (values : list str) : list (str * option str) :=
  fold_left (fun d kv => dict_set (fst kv) (Some (snd kv)) d) (combine keys values) [].

(** [DictReader.__next__] on a record that is not blank. *)
Definition read_dict (names : row) (r : row) : rowdict :=
  let d := dict_zip names r in
  let lf := length names in
  let lr := length r in
  if lf <? lr then mkRowdict d (Some (skipn lf r))
  else if lr <? lf then
    mkRowdict (fold_left (fun d k => dict_set k None d) (skipn lr names) d) None
  else mkRowdict d None.

Definition is_blank (r : row) : bool :=
  match r with [] => true | _ :: _ => false end.

(** [for row in csv.DictReader(csvfile)]: the first record gives the
    keys, blank records are skipped. *)
Definition DictReader (records : list row) : list rowdict :=
  match records with
  | [] => []
  | names :: data => map (read_dict names) (filter (fun r => negb (is_blank r)) data)
  end.

(** [DictWriter._dict_to_list] with [extrasaction='raise'] and
    [restval='']; a [None] value is written as the empty field. *)
Definition dict_to_list (names : row) (d : rowdict) : outcome row :=
  let wrong_fields :=
    filter (fun kv => negb (Py.mem (fst kv) names)) (items d) in
  match rest d, wrong_fields with
  | None, [] =>
      Ok (map (fun k => match dict_get k (items d) with
                        | Some (Some v) => v
                        | _ => []
                        end) names)
  | _, _ => Raise ValueError
  end.

(** [for row in rows: writer.writerow(row)] on the open file [file];
    what was written before a failing row stays written. *)
Fixpoint write_rows (names : row) (rows : list rowdict) (file : list row)
  : list row * outcome unit :=
  match rows with
  | [] => (file, Ok tt)
  | d :: rows' =>
      match dict_to_list names d with
      | Ok r => write_rows names rows' (file ++ [r])
      | Raise e => (file, Raise e)
      end
  end.

(** *** The text of a file: [csv.writer] and [csv.reader]

    Both work with the dialect [excel] and files opened with
    [newline='']: fields are separated by a comma; the writer puts a
    field between quotes when it holds a comma, a quote, a carriage
    return or a line feed, doubles the quotes inside, and ends every
    record with CR LF; the reader is not strict.  The reader's limit on
    the size of a field is left out. *)

Definition comma : ascii := ","%char.
Definition dquote : ascii := ascii_of_N 34.
Definition cr : ascii := ascii_of_N 13.
Definition lf : ascii := ascii_of_N 10.

Definition is_newline (c : ascii) : bool := Py.chr_eqb c cr || Py.chr_eqb c lf.

Definition needs_quotes (c : ascii) : bool :=
  Py.chr_eqb c comma || Py.chr_eqb c dquote || is_newline c.

(** A field as it stands between quotes. *)
Definition escape (field : str) : str :=
  flat_map (fun c => if Py.chr_eqb c dquote then [dquote; dquote] else [c]) field.

Definition write_field (field : str) : str :=
  if existsb needs_quotes field then dquote :: escape field ++ [dquote] else field.

Fixpoint write_fields (fields : row) : str :=
  match fields with
  | [] => []
  | [field] => write_field field
  | field :: more => write_field field ++ comma :: write_fields more
  end.

(** [writer.writerow]: a record of one empty field is written as two
    quotes. *)
Definition write_record (r : row) : str :=
  match r with
  | [ [] ] => [dquote; dquote; cr; lf]
  | _ => write_fields r ++ [cr; lf]
  end.

Definition write_records (records : list row) : str := flat_map write_record records.

(** The states of the reader. *)
Inductive reader_state : Type :=
| START_RECORD
| START_FIELD
| IN_FIELD
| IN_QUOTED_FIELD
| QUOTE_IN_QUOTED_FIELD.

(** The text after the line terminator that begins with [c]. *)
Definition after_newline (c : ascii) (rest : str) : str :=
  match rest with
  | c' :: rest' => if Py.chr_eqb c cr && Py.chr_eqb c' lf then rest' else rest
  | [] => rest
  end.

(** The reader inside a record, holding the closed [fields] and the
    [field] it is in: the record, and the text after its terminator, or
    [None] when the text ends first (the reader then yields what it
    holds). *)
Fixpoint read_record (st : reader_state) (fields : row) (field : str) (text : str)
  : row * option str :=
  match text with
  | [] =>
      (match st with START_RECORD => [] | _ => fields ++ [field] end, None)
  | c :: rest =>
      if is_newline c then
        match st with
        | IN_QUOTED_FIELD => read_record IN_QUOTED_FIELD fields (field ++ [c]) rest
        | START_RECORD => ([], Some (after_newline c rest))
        | _ => (fields ++ [field], Some (after_newline c rest))
        end
      else
        match st with
        | START_RECORD | START_FIELD =>
            if Py.chr_eqb c dquote then read_record IN_QUOTED_FIELD fields field rest
            else if Py.chr_eqb c comma
                 then read_record START_FIELD (fields ++ [field]) [] rest
                 else read_record IN_FIELD fields (field ++ [c]) rest
        | IN_FIELD =>
            if Py.chr_eqb c comma
            then read_record START_FIELD (fields ++ [field]) [] rest
            else read_record IN_FIELD fields (field ++ [c]) rest
        | IN_QUOTED_FIELD =>
            if Py.chr_eqb c dquote
            then read_record QUOTE_IN_QUOTED_FIELD fields field rest
            else read_record IN_QUOTED_FIELD fields (field ++ [c]) rest
        | QUOTE_IN_QUOTED_FIELD =>
            if Py.chr_eqb c dquote
            then read_record IN_QUOTED_FIELD fields (field ++ [c]) rest
            else if Py.chr_eqb c comma
                 then read_record START_FIELD (fields ++ [field]) [] rest
                 else read_record IN_FIELD fields (field ++ [c]) rest
        end
  end.

(** The records of a text that a terminator closes, and the text left
    after the last of them; every record takes a character at least. *)
Fixpoint read_records (fuel : nat) (text : str) : list row * str :=
  match fuel, text with
  | S fuel', _ :: _ =>
      match read_record START_RECORD [] [] text with
      | (r, Some rest) =>
          let (records, tail) := read_records fuel' rest in (r :: records, tail)
      | (_, None) => ([], text)
      end
  | _, _ => ([], text)
  end.

Definition closed_records (text : str) : list row * str :=
  read_records (length text) text.

(** [list(csv.reader(f))]: at the end of the text the reader yields the
    record it is in. *)
Definition reader (text : str) : list row :=
  let (records, tail) := closed_records text in
  match tail with
  | [] => records
  | _ :: _ => records ++ [fst (read_record START_RECORD [] [] tail)]
  end.

(** The file at [csv_file_path]: no file; a file that ends where a
    record ends, with the records of its text; a file with the text
    [c :: tail] after the last record that a terminator closes; a file
    that exists and whose [open] fails. *)
Inductive sink : Type :=
| Absent
| File (records : list row)
| Unterminated (records : list row) (c : ascii) (tail : str)
| Locked (records : list row).

(** [os.path.isfile] *)
Definition isfile (s : sink) : bool :=
  match s with Absent => false | _ => true end.

(** [os.path.getsize(...) == 0] on an existing file *)
Definition size_is_zero (s : sink) : bool :=
  match s with
  | File [] | Locked [] => true
  | _ => false
  end.

(** The records a reader finds in a sink, none when there is no file. *)
Definition records_of (s : sink) : list row :=
  match s with
  | Absent => []
  | File records | Locked records => records
  | Unterminated records c tail => records ++ reader (c :: tail)
  end.

(** The file that holds [text] after the closed [records]. *)
Definition with_text (records : list row) (text : str) : sink :=
  let (closed, tail) := closed_records text in
  match tail with
  | [] => File (records ++ closed)
  | c :: t => Unterminated (records ++ closed) c t
  end.

(** The file whose whole text is [text]. *)
Definition of_text (text : str) : sink := with_text [] text.

(** The file after [written] was written behind the text [tail] that
    follows the closed [records]. *)
Definition continue_with (records : list row) (tail : str) (written : list row) : sink :=
  with_text records (tail ++ write_records written).

(** The row built from an entry of [unique_files]. *)
Definition new_row (date : option str) (info : FileInfo) : rowdict :=
  mkRowdict [($"Date", date);
             ($"Time", Some (info_timestamp info));
             ($"Type", Some (info_file_type info));
             ($"Section", Some (info_section info));
             ($"File Name", Some (info_file_name info))] None.

Definition break_row : rowdict :=
  mkRowdict [($"Date", Some break_marker); ($"Time", Some []); ($"Type", Some []);
             ($"Section", Some []); ($"File Name", Some [])] None.

(** [new_rows] as it stands before the files are opened; the loop that
    fills [unique_files] is the one of [extract_unique_files]. *)
Definition new_rows (data : SyncRun) (add_breaks : bool) : list rowdict :=
  let unique_files := Reducer.extract_unique_files data in
  let rows := map (fun kv => new_row (date data) (snd kv)) unique_files in
  if add_breaks then rows ++ [break_row] else rows.

(** The sink after the call and whether the call returned or raised
    (the [except] clause prints and re-raises). *)
Definition append_to_csv (data : SyncRun) (csv : sink) (prepend add_breaks : bool)
  : sink * outcome unit :=
  let file_exists := isfile csv in
  let file_is_empty := file_exists && size_is_zero csv in
  let rows := new_rows data add_breaks in
  if prepend && file_exists && negb file_is_empty then
    match csv with
    | File _ | Unterminated _ _ _ =>
        let existing_rows := DictReader (records_of csv) in
        (* open(csv_file_path, 'w') truncates *)
        let file := [] ++ [fieldnames] in
        match write_rows fieldnames rows file with
        | (file1, Ok _) =>
            let (file2, r) := write_rows fieldnames existing_rows file1 in
            (File file2, r)
        | (file1, Raise e) => (File file1, Raise e)
        end
    | _ => (csv, Raise OSError)
    end
  else
    match csv with
    | Locked _ => (csv, Raise OSError)
    | Absent | File _ =>
        (* open(csv_file_path, 'a') keeps what is there *)
        let file := match csv with File records => records | _ => [] end in
        let file1 :=
          if negb file_exists || file_is_empty then file ++ [fieldnames] else file in
        let (file2, r) := write_rows fieldnames rows file1 in
        (File file2, r)
    | Unterminated records c tail =>
        (* the file exists and is not empty: no header, and the first
           row goes behind the last character *)
        let (written, r) := write_rows fieldnames rows [] in
        (continue_with records (c :: tail) written, r)
    end.

Definition row_eqb (a b : row) : bool :=
  (length a =? length b) && forallb (fun p => Py.eqb (fst p) (snd p)) (combine a b).

(** Number of header rows of a sink. *)
Definition header_count (s : sink) : nat :=
  length (filter (row_eqb fieldnames) (records_of s)).

(** The separator row as it is stored. *)
Definition separator : row := [break_marker; []; []; []; []].

(** The stored row of an entry of [unique_files]. *)
Definition stored_row (date : option str) (info : FileInfo) : row :=
  [match date with Some d => d | None => [] end;
   info_timestamp info; info_file_type info; info_section info;
   info_file_name info].

(** The stored rows of the records of a run. *)
Definition record_rows (data : SyncRun) : list row :=
  map (fun kv => stored_row (date data) (snd kv)) (Reducer.extract_unique_files data).

End Csv.

(* ------------------------------------------------------------------ *)
(** ** The orchestrator: [LogFileHandler.on_created] *)

Module Handler.

Record Event : Type := mkEvent {
  is_directory : bool;
  src_path : str
}.

(** The status lines handed to [log_callback]. *)
Inductive message : Type :=
| NewLogFileDetected (path : str)
| SuccessfullyParsed (operations : nat)
| DataStored
| ErrorProcessing (path : str) (e : exn)
| TracebackOf (e : exn).

Section LogFileHandler.

(** The state of the collaborators behind the callbacks (the log
    window, the clipboard cache, the remote sheet). *)
Variable World : Type.

Variable log_callback : message -> World -> World * outcome unit.
Variable store_callback : SyncRun -> World -> World * outcome unit.
(** [None] when no upload is configured. *)
Variable sheets_callback : option (SyncRun -> World -> World * outcome unit).
(** The text of the file at a path, or the error of [open]/[read]. *)
Variable read_text : str -> outcome str.
Variables prepend add_breaks : bool.

(** What a statement acts on: the CSV file and the collaborators. *)
Definition state : Type := (Csv.sink * World)%type.

Definition action (A : Type) : Type := state -> state * outcome A.

Definition ret {A : Type} (a : A) : action A := fun st => (st, Ok a).

Definition and_then {A B : Type} (m : action A) (f : A -> action B) : action B :=
  fun st =>
    match m st with
    | (st', Ok a) => f a st'
    | (st', Raise e) => (st', Raise e)
    end.

(** [try: body except Exception as e: handler(e)] *)
Definition try_except (body : action unit) (handler : exn -> action unit)
  : action unit :=
  fun st =>
    match body st with
    | (st', Ok _) => (st', Ok tt)
    | (st', Raise e) => handler e st'
    end.

Definition call (f : World -> World * outcome unit) : action unit :=
  fun st => let (w, r) := f (snd st) in ((fst st, w), r).

(** [parse_sync_log(event.src_path)]: open, read and parse.  The
    iteration budget of the parser always suffices, so its [None]
    does not arise. *)
Definition call_parse_sync_log (path : str) : action SyncRun :=
  fun st =>
    (st, content <- read_text path ;;
         match Parser.parse_sync_log path content with
         | Some r => r
         | None => Ok Parser.empty_run
         end).

Definition call_append_to_csv (parsed_data : SyncRun) : action unit :=
  fun st =>
    let (csv, r) := Csv.append_to_csv parsed_data (fst st) prepend add_breaks in
    ((csv, snd st), r).

(** The body of the [try]. *)
Definition process (path : str) : action unit :=
  and_then (call (log_callback (NewLogFileDetected path))) (fun _ =>
  and_then (call_parse_sync_log path) (fun parsed_data =>
  and_then (call (log_callback
                    (SuccessfullyParsed (length (sync_operations parsed_data))))) (fun _ =>
  and_then (call_append_to_csv parsed_data) (fun _ =>
  and_then (call (store_callback parsed_data)) (fun _ =>
  and_then (call (log_callback DataStored)) (fun _ =>
  match sheets_callback with
  | Some upload => call (upload parsed_data)
  | None => ret tt
  end)))))).

Definition on_created (event : Event) : action unit :=
  let path := src_path event in
  if negb (is_directory event)
     && (Py.endswith path $".log" || Py.endswith path $".html")
  then
    try_except (process path) (fun e =>
      and_then (call (log_callback (ErrorProcessing path e))) (fun _ =>
      call (log_callback (TracebackOf e))))
  else ret tt.

End LogFileHandler.

End Handler.

(* ------------------------------------------------------------------ *)
(** ** The remote sink: the writes of [GoogleSheetsManager.upload_data]

    The sheet itself is behind the API.  What is modelled is the flag the
    method returns and the list of the write requests it asks of the
    service, in order, the one that failed included.  The service is
    given by its answers: [accepts issued r] tells whether it carries
    out the write [r] after the writes [issued] of this call (a service
    that was never authenticated accepts none); [column_a] is the answer
    to the read of [A:A], [rows_below_header] the answer to the read of
    [A2:E] that the fallback prepend makes, each the values or the
    exception of the call; [sheet_id] is the numeric id of the target
    sheet when it was resolved. *)

Module Sheets.

Inductive request : Type :=
| InsertRows (start_index end_index : nat)
| Update (first_row : nat) (values : list Csv.row).

Definition headers : Csv.row := Csv.fieldnames.

Section Service.

Variable accepts : list request -> request -> bool.

(** "Fallback: Manual prepend method": the rows under the header are
    read, the new rows written at row 2 and the old rows under them. *)
Definition manual_prepend (rows_below_header : outcome (list Csv.row))
    (all_new_data : list Csv.row) (issued : list request) : bool * list request :=
  match rows_below_header with
  | Raise _ => (false, issued)
  | Ok existing_rows =>
      let insert := Update 2 all_new_data in
      if accepts issued insert then
        match existing_rows with
        | [] => (true, issued ++ [insert])
        | _ :: _ =>
            let below := Update (2 + length all_new_data) existing_rows in
            (accepts (issued ++ [insert]) below, issued ++ [insert; below])
        end
      else (false, issued ++ [insert])
  end.

Definition upload_data (data : SyncRun)
    (column_a rows_below_header : outcome (list Csv.row))
    (sheet_id : option nat) (prepend add_breaks : bool) : bool * list request :=
  match Reducer.extract_unique_files data with
  | [] => (false, [])
  | _ :: _ =>
      let new_rows := Csv.record_rows data in
      let num_new_rows := length new_rows + (if add_breaks then 1 else 0) in
      let values := match column_a with Ok values => values | Raise _ => [] end in
      let has_header :=
        match values with
        | first :: _ => negb (Csv.is_blank first)
        | [] => false
        end in
      let header := Update 1 [headers] in
      if negb has_header && negb (accepts [] header) then (false, [header])
      else
        let issued := if has_header then [] else [header] in
        let existing_values := if has_header then values else [headers] in
        let all_new_data := new_rows ++ (if add_breaks then [Csv.separator] else []) in
        if prepend then
          match sheet_id with
          | Some _ =>
              if 0 <? num_new_rows then
                let insert_rows := InsertRows 1 (1 + num_new_rows) in
                let insert := Update 2 all_new_data in
                if accepts issued insert_rows then
                  if accepts (issued ++ [insert_rows]) insert
                  then (true, issued ++ [insert_rows; insert])
                  else manual_prepend rows_below_header all_new_data
                         (issued ++ [insert_rows; insert])
                else manual_prepend rows_below_header all_new_data
                       (issued ++ [insert_rows])
              else manual_prepend rows_below_header all_new_data issued
          | None => manual_prepend rows_below_header all_new_data issued
          end
        else
          let last_row := length existing_values + 1 in
          if add_breaks && (1 <? length existing_values) then
            let separator := Update last_row [Csv.separator] in
            let insert := Update (last_row + 1) new_rows in
            if accepts issued separator
            then (accepts (issued ++ [separator]) insert, issued ++ [separator; insert])
            else (false, issued ++ [separator])
          else
            let insert := Update last_row new_rows in
            (accepts issued insert, issued ++ [insert])
  end.

End Service.

End Sheets.

(* ------------------------------------------------------------------ *)
(** ** Vocabulary of the properties *)

(** The name an event is filed under. *)
Definition name_of (e : FileEvent) : str := Reducer.file_name_of (file_path e).

(** The entry the loop stores for an event whose name is new. *)
Definition record_of (e : FileEvent) : FileInfo :=
  mkFileInfo (timestamp e)
    (Classifier.get_file_type (Reducer.extension_of (name_of e)))
    (Reducer.section_of (file_path e)) (name_of e).

(** The block a call adds to the file: the rows of the records, then
    the separator when [add_breaks] is set. *)
Definition new_block (data : SyncRun) (add_breaks : bool) : list Csv.row :=
  Csv.record_rows data ++ (if add_breaks then [Csv.separator] else []).


(** The data rows of a sink: its records after the first. *)
Definition data_rows (s : Csv.sink) : list Csv.row := tl (Csv.records_of s).

(** *** What a pattern matches

    [matches r s caps]: the text [s] is matched by [r], the groups of
    [r] capturing [caps] (in the order of their opening parentheses). *)
Inductive matches : Re.re -> str -> list str -> Prop :=
| M_Eps : matches Re.Eps [] []
| M_Lit (p : str) : matches (Re.Lit p) p []
| M_Plus (cls : ascii -> bool) (s : str) :
    s <> [] -> forallb cls s = true -> matches (Re.Plus cls) s []
| M_Seq (r1 r2 : Re.re) (s1 s2 : str) (c1 c2 : list str) :
    matches r1 s1 c1 -> matches r2 s2 c2 ->
    matches (Re.Seq r1 r2) (s1 ++ s2) (c1 ++ c2)
| M_Grp (r : Re.re) (s : str) (c : list str) :
    matches r s c -> matches (Re.Grp r) s (s :: c).

(** Number of groups of a pattern. *)
Fixpoint groups (r : Re.re) : nat :=
  match r with
  | Re.Eps | Re.Lit _ | Re.Plus _ => 0
  | Re.Seq r1 r2 => groups r1 + groups r2
  | Re.Grp r1 => S (groups r1)
  end.

(** *** The scan of the LOG branch *)




(** The index the loop goes on with after the iteration at [i]; the
    text of the lines alone decides it. *)
Definition next_index (lines : list str) (i : nat) : nat :=
  let line := Py.strip (nth i lines []) in
  match line with
  | [] => i + 1
  | _ :: _ =>
      match Re.re_match Parser.header_re line with
      | Some _ => i + 1
      | None =>
          match Re.re_search Parser.comparison_re line with
          | Some _ => i + 1
          | None =>
              if Py.contains line Parser.folder_pair_marker
                 && (i + 2 <? length lines)
              then i + 3 else i + 1
          end
      end
  end.

(** The indices the loop stops at, from [i] on. *)
Fixpoint visited (fuel : nat) (lines : list str) (i : nat) : list nat :=
  if i <? length lines then
    match fuel with
    | 0 => []
    | S fuel' => i :: visited fuel' lines (next_index lines i)
    end
  else [].

(** The header match of the line at [i], if it has one. *)
Definition header_at (lines : list str) (i : nat) : option (list str) :=
  Re.re_match Parser.header_re (Py.strip (nth i lines [])).

(** The header matches the loop meets from [i] on, in the order it
    meets them. *)
Definition headers_from (fuel : nat) (lines : list str) (i : nat) : list (list str) :=
  flat_map (fun j => match header_at lines j with Some m => [m] | None => [] end)
    (visited fuel lines i).

Definition headers_seen (lines : list str) : list (list str) :=
  headers_from (length lines) lines 0.

(** The header fields of a run. *)
Definition header_fields (r : SyncRun) : option str * option str * option str :=
  (sync_name r, date r, start_time r).

(** The source and destination of each operation of a run. *)
Definition folder_pairs (r : SyncRun) : list (str * str) :=
  map (fun op => (source op, destination op)) (sync_operations r).

(** The header fields once a header match [m] has been stored. *)
Definition store_header (h : option str * option str * option str) (m : list str)
  : option str * option str * option str :=
  match m with
  | [n; d; t] => (Some n, Some d, Some t)
  | _ => h
  end.

(** *** Sample inputs *)

Definition demo_first : FileEvent :=
  mkFileEvent $"2:30:20 PM" $"C:\Dest\VideoFile\Project\test.mov".
Definition demo_second : FileEvent :=
  mkFileEvent $"2:31:05 PM" $"C:\Other\test.mov".
Definition demo_run : SyncRun :=
  mkSyncRun None (Some $"9/13/2025") None None None None None None
    [mkSyncOperation $"C:\Source" $"C:\Dest" [demo_first];
     mkSyncOperation $"C:\Source" $"C:\Other" [demo_second]].

Definition demo_row : Csv.row :=
  [$"9/12/2025"; $"1:00:00 PM"; $"Image"; $"Shots"; $"plate.exr"].
Definition demo_new_row : Csv.row :=
  [$"9/13/2025"; $"2:30:20 PM"; $"Video"; $"Project"; $"test.mov"].

Definition newline : str := [ascii_of_N 10].




Definition two_headers_log : str :=
  $"First 1/2/2025 [1:02:03 PM]" ++ newline ++ $"Second 4/5/2025 [4:05:06 AM]".

(** A marker line that is also header-shaped, with two lines after it. *)
Definition marker_header_lines : list str :=
  [$"Synchronizing folder pair: Update > 1/2/2025 [1:02:03 PM]";
   $"C:\Source"; $"C:\Dest"].

Definition folder_pair_lines : list str :=
  [$"[2:30:16 PM]  Info:  Synchronizing folder pair: Update >";
   $"    C:\Source"; $"    C:\Dest  "].

Definition cell (t : str) : str :=
  $"<td valign=" ++ Parser.dq ++ $"top" ++ Parser.dq ++ $">" ++ t ++ $"</td>".

(** Two timestamp cells and one "Creating file" marker. *)
Definition two_cells_one_marker : str :=
  cell $"2:30:20 PM"
    ++ $"<td>Creating file &quot;C:\Dest\VideoFile\Project\test.mov&quot;</td>"
    ++ cell $"2:30:25 PM".

(** *** The handler *)

(** What the [except] clause of [on_created] does with the error [e]. *)
Definition report {World : Type}
    (log_callback : Handler.message -> World -> World * outcome unit)
    (path : str) (e : exn) : Handler.action World unit :=
  Handler.and_then (Handler.call (log_callback (Handler.ErrorProcessing path e)))
    (fun _ => Handler.call (log_callback (Handler.TracebackOf e))).

(** The events [on_created] acts on. *)
Definition watched (event : Handler.Event) : bool :=
  negb (Handler.is_directory event)
  && (Py.endswith (Handler.src_path event) $".log"
      || Py.endswith (Handler.src_path event) $".html").

(** *** A sample installation for the handler *)

(** The collaborators: the lines shown in the log window, the runs kept
    for the clipboard, the runs handed to the sheet upload. *)
Record Desk : Type := mkDesk {
  shown : list Handler.message;
  cached : list SyncRun;
  uploaded : list SyncRun
}.

Definition empty_desk : Desk := mkDesk [] [] [].

Definition desk_log (m : Handler.message) (w : Desk) : Desk * outcome unit :=
  (mkDesk (shown w ++ [m]) (cached w) (uploaded w), Ok tt).

Definition desk_store (parsed : SyncRun) (w : Desk) : Desk * outcome unit :=
  (mkDesk (shown w) (cached w ++ [parsed]) (uploaded w), Ok tt).


(** An upload that fails. *)
Definition desk_upload_fails (parsed : SyncRun) (w : Desk) : Desk * outcome unit :=
  (w, Raise OSError).

Definition demo_log_text : str :=
  $"Job 9/13/2025 [2:30:15 PM]" ++ newline
   ++ $"[2:30:16 PM]  Info:  Synchronizing folder pair: Update >" ++ newline
   ++ $"    C:\Source" ++ newline
   ++ $"    C:\Dest" ++ newline
   ++ $"[2:30:20 PM]  Info:  Creating file " ++ Parser.dq
   ++ $"C:\Dest\VideoFile\Project\test.mov" ++ Parser.dq ++ newline.

Definition demo_parsed : SyncRun :=
  mkSyncRun (Some $"Job") (Some $"9/13/2025") (Some $"2:30:15 PM")
    None None None None None
    [mkSyncOperation $"C:\Source" $"C:\Dest"
       [mkFileEvent $"2:30:20 PM" $"C:\Dest\VideoFile\Project\test.mov"]].

Definition desk_read (path : str) : outcome str :=
  if Py.eqb path $"run.log" then Ok demo_log_text else Raise OSError.


(* ------------------------------------------------------------------ *)
(** ** More of Python's [str] *)

Module Text.

Definition tab : ascii := ascii_of_N 9.
Definition lf : ascii := ascii_of_N 10.

(** [sep.join(pieces)] *)
Fixpoint join (sep : str) (pieces : list str) : str :=
  match pieces with
  | [] => []
  | [p] => p
  | p :: rest => p ++ sep ++ join sep rest
  end.

Fixpoint digits_of (d : Decimal.uint) : str :=
  match d with
  | Decimal.Nil => []
  | Decimal.D0 d' => "0"%char :: digits_of d'
  | Decimal.D1 d' => "1"%char :: digits_of d'
  | Decimal.D2 d' => "2"%char :: digits_of d'
  | Decimal.D3 d' => "3"%char :: digits_of d'
  | Decimal.D4 d' => "4"%char :: digits_of d'
  | Decimal.D5 d' => "5"%char :: digits_of d'
  | Decimal.D6 d' => "6"%char :: digits_of d'
  | Decimal.D7 d' => "7"%char :: digits_of d'
  | Decimal.D8 d' => "8"%char :: digits_of d'
  | Decimal.D9 d' => "9"%char :: digits_of d'
  end.

(** [str(n)] for an integer [n >= 0] *)
Definition str_of_int (n : N) : str := digits_of (N.to_uint n).

(** Truth value of an optional string: [None] and [''] are false. *)
Definition truthy (s : option str) : bool :=
  match s with
  | Some (_ :: _) => true
  | _ => false
  end.

End Text.

(* ------------------------------------------------------------------ *)
(** ** The clipboard cache: [store_last_parsed] and [copy_last_log]
    of [gui_utils.py]

    Of the window only what the two functions read and write is kept:
    the two cached attributes, the state of the copy button and the
    status lines.  The clipboard is taken to accept the text. *)

Module Gui.

Inductive status : Type :=
| StoredUniqueFiles (n : nat)
| CopiedEntries (n : nat)
| NoLogData.

Record Window : Type := mkWindow {
  last_parsed_data : option (list (str * FileInfo));
  last_parsed_date : option str;
  copy_button_enabled : bool;
  clipboard : option str;
  status_lines : list status
}.

(** The window as [__init__] leaves it. *)
Definition initial : Window := mkWindow None None false None [].

Definition store_last_parsed (gui : Window) (parsed_data : SyncRun) : Window :=
  let unique_files := Reducer.extract_unique_files parsed_data in
  mkWindow (Some unique_files) (date parsed_data) true (clipboard gui)
    (status_lines gui ++ [StoredUniqueFiles (length unique_files)]).

(** The list [row] of one entry. *)
Definition row_of (last_parsed_date : str) (info : FileInfo) : list str :=
  [last_parsed_date; info_timestamp info; info_file_type info;
   info_section info; info_file_name info].

(** The lines of [output]. *)
Definition output_of (data : list (str * FileInfo)) (last_parsed_date : str)
  : list str :=
  map (fun kv => Text.join [Text.tab] (row_of last_parsed_date (snd kv))) data.

Definition tsv_text (data : list (str * FileInfo)) (last_parsed_date : str) : str :=
  Text.join [Text.lf] (output_of data last_parsed_date).

Definition copy_last_log (gui : Window) : Window :=
  match last_parsed_data gui, last_parsed_date gui with
  | Some (kv :: data), Some (c :: d) =>
      let output := output_of (kv :: data) (c :: d) in
      mkWindow (last_parsed_data gui) (last_parsed_date gui)
        (copy_button_enabled gui) (Some (tsv_text (kv :: data) (c :: d)))
        (status_lines gui ++ [CopiedEntries (length output)])
  | _, _ =>
      mkWindow (last_parsed_data gui) (last_parsed_date gui)
        (copy_button_enabled gui) (clipboard gui)
        (status_lines gui ++ [NoLogData])
  end.

End Gui.

(* ------------------------------------------------------------------ *)
(** ** Sheet references: [extract_sheet_info], [get_sheet_names],
    [resolve_sheet_name] and the choice of the target sheet in
    [upload_data]

    [metadata] is the answer to [spreadsheets().get]: the properties of
    the sheets in order, or the exception of the call; the same answer
    is assumed for every call made during one upload. *)

Module SheetRef.

Record SheetInfo : Type := mkSheetInfo {
  spreadsheet_id : option str;
  sheet_name : option str
}.

Definition extract_sheet_info (url_or_id : str) : SheetInfo :=
  if Py.contains url_or_id $"/" then
    if Py.contains url_or_id $"docs.google.com/spreadsheets" then
      let parts := Py.split "/"%char url_or_id in
      match Reducer.index $"d" parts with
      | None => mkSheetInfo None None
      | Some d_index =>
          let id_index := d_index + 1 in
          match nth_error parts id_index with
          | None => mkSheetInfo None None
          | Some id =>
              if Py.contains url_or_id $"#" then
                let fragment := last (Py.split "#"%char url_or_id) [] in
                if Py.startswith fragment $"gid=" then
                  let gid := last (Py.split "="%char fragment) [] in
                  mkSheetInfo (Some id) (Some ($"gid_" ++ gid))
                else
                  match fragment with
                  | _ :: _ => mkSheetInfo (Some id) (Some fragment)
                  | [] => mkSheetInfo (Some id) None
                  end
              else mkSheetInfo (Some id) None
          end
      end
    else mkSheetInfo None None
  else mkSheetInfo (Some url_or_id) None.

(** The entry ['properties'] of a sheet; a key that is missing reads as
    [None]. *)
Record SheetProperties : Type := mkSheetProperties {
  sheetId : option N;
  title : option str
}.

Definition get_sheet_names (metadata : outcome (list SheetProperties))
  : option (list str) :=
  match metadata with
  | Raise _ => None
  | Ok sheets =>
      Some (flat_map (fun sheet => match title sheet with
                                   | Some (c :: t) => [c :: t]
                                   | _ => []
                                   end) sheets)
  end.

(** [str(sheet_gid)] *)
Definition str_of_sheet_id (sheet_gid : option N) : str :=
  match sheet_gid with
  | Some n => Text.str_of_int n
  | None => $"None"
  end.

(** The loop over the sheets: the title of the first sheet whose id
    prints as [gid] and whose title is not empty. *)
Fixpoint title_of_gid (gid : str) (sheets : list SheetProperties) : option str :=
  match sheets with
  | [] => None
  | sheet :: rest =>
      if Py.eqb (str_of_sheet_id (sheetId sheet)) gid && Text.truthy (title sheet)
      then title sheet
      else title_of_gid gid rest
  end.

Definition resolve_sheet_name (metadata : outcome (list SheetProperties))
    (sheet_identifier : str) : option str :=
  if negb (Py.startswith sheet_identifier $"gid_") then Some sheet_identifier
  else
    match Py.item (Py.split "_"%char sheet_identifier) 1 with
    | Raise _ => None
    | Ok gid =>
        match metadata with
        | Raise _ => None
        | Ok sheets => title_of_gid gid sheets
        end
    end.

(** [actual_sheet_name] as [upload_data] settles it. *)
Definition actual_sheet_name (metadata : outcome (list SheetProperties))
    (sheet_name : option str) : option str :=
  match sheet_name with
  | Some (c :: s) =>
      if Py.startswith (c :: s) $"gid_" then
        match resolve_sheet_name metadata (c :: s) with
        | Some (r :: esolved) => Some (r :: esolved)
        | _ =>
            match get_sheet_names metadata with
            | Some (first :: _) => Some first
            | _ => None
            end
        end
      else Some (c :: s)
  | _ => None
  end.

(** [sheet_id] as [upload_data] looks it up for the batch update. *)
Definition find_sheet_id (metadata : outcome (list SheetProperties))
    (actual : option str) : option N :=
  match actual with
  | Some (c :: s) =>
      match metadata with
      | Raise _ => None
      | Ok sheets =>
          match find (fun sheet => match title sheet with
                                   | Some t => Py.eqb t (c :: s)
                                   | None => false
                                   end) sheets with
          | Some sheet => sheetId sheet
          | None => None
          end
      end
  | _ => None
  end.

(** The writes of [upload_data] on the sheet named by [sheet_name]. *)
Definition upload_to (accepts : list Sheets.request -> Sheets.request -> bool)
    (metadata : outcome (list SheetProperties))
    (sheet_name : option str) (data : SyncRun)
    (column_a rows_below_header : outcome (list Csv.row)) (prepend add_breaks : bool)
  : bool * list Sheets.request :=
  let actual := actual_sheet_name metadata sheet_name in
  let sheet_id := option_map N.to_nat (find_sheet_id metadata actual) in
  Sheets.upload_data accepts data column_a rows_below_header sheet_id prepend add_breaks.

End SheetRef.

(* ------------------------------------------------------------------ *)
(** ** The application: [upload_to_google_sheets] and the loop of
    [process_existing_logs] in [main.py] *)

Module App.

Inductive message : Type :=
| NoSheetIdConfigured
| UploadingData
| UploadReport (text : str)
| FailedToUpload (text : str)
| ErrorUploading (e : exn)
| ProcessingSelected (n : nat)
| Processing (filename : str)
| ErrorProcessing (filename : str) (e : exn)
| SuccessfullyProcessed (n : nat).

Section Application.

Variable World : Type.
Variable log_message : message -> World -> World * outcome unit.
(** [self.store_last_parsed] *)
Variable store_last_parsed : SyncRun -> World -> World * outcome unit.
(** [self.sheets_manager.upload_data] with the configured sheet: its
    pair of success flag and text, or what it raises. *)
Variable upload_data : SyncRun -> World -> World * outcome (bool * str).
(** [os.path.join(self.watch_path, filename)] *)
Variable log_path : str -> str.
Variable read_text : str -> outcome str.
(** [self.google_sheet_id], [self.google_sheets_enabled] *)
Variable google_sheet_id : str.
Variable google_sheets_enabled : bool.
Variables prepend_mode log_breaks : bool.

Definition action (A : Type) : Type := Handler.action World A.

Definition log (m : message) : action unit := Handler.call (log_message m).

Definition upload_to_google_sheets (parsed_data : SyncRun) : action unit :=
  fun st =>
    let body : action unit :=
      match google_sheet_id with
      | [] => log NoSheetIdConfigured
      | _ :: _ =>
          Handler.and_then (log UploadingData) (fun _ =>
          Handler.and_then
            (fun st1 => let (w, r) := upload_data parsed_data (snd st1) in
                        ((fst st1, w), r))
            (fun answer =>
               if fst answer then log (UploadReport (snd answer))
               else log (FailedToUpload (snd answer))))
      end in
    match body st with
    | (st', Ok _) => (st', Ok tt)
    | (st', Raise e) => log (ErrorUploading e) st'
    end.

(** The body of the [try] for one selected file; [true] when it ran to
    [processed_count += 1]. *)
Definition process_file (filename : str) : action bool :=
  fun st =>
    let body : action unit :=
      Handler.and_then (Handler.call_parse_sync_log read_text (log_path filename))
        (fun parsed_data =>
      Handler.and_then (Handler.call_append_to_csv prepend_mode log_breaks parsed_data)
        (fun _ =>
      Handler.and_then (Handler.call (store_last_parsed parsed_data)) (fun _ =>
      if google_sheets_enabled && Text.truthy (Some google_sheet_id)
      then upload_to_google_sheets parsed_data
      else Handler.ret tt))) in
    match body st with
    | (st', Ok _) => (st', Ok true)
    | (st', Raise e) =>
        match log (ErrorProcessing filename e) st' with
        | (st'', Ok _) => (st'', Ok false)
        | (st'', Raise e') => (st'', Raise e')
        end
    end.

(** The [for] loop with its counter. *)
Fixpoint process_files (selected_files : list str) (processed_count : nat)
  : action nat :=
  match selected_files with
  | [] => Handler.ret processed_count
  | filename :: rest =>
      Handler.and_then (log (Processing filename)) (fun _ =>
      Handler.and_then (process_file filename) (fun done =>
      process_files rest (if done then processed_count + 1 else processed_count)))
  end.

(** What [on_ok] does once the selection is known not to be empty. *)
Definition process_selected (selected_files : list str) : action nat :=
  Handler.and_then (log (ProcessingSelected (length selected_files))) (fun _ =>
  Handler.and_then (process_files selected_files 0) (fun processed_count =>
  Handler.and_then (log (SuccessfullyProcessed processed_count)) (fun _ =>
  Handler.ret processed_count))).

End Application.

End App.

(* ------------------------------------------------------------------ *)
(** ** The stand-alone script: [append_to_csv] of [parse_sync_log.py]

    The script carries its own copy of the CSV writer, from before the
    write policies: it opens the file for appending, writes the header
    when there was no file, then the rows of the unique files.  Its
    mapping of extensions and its loop over the events are those of the
    package. *)

Module Legacy.

Definition append_to_csv (data : SyncRun) (csv : Csv.sink) : Csv.sink * outcome unit :=
  let file_exists := Csv.isfile csv in
  let unique_files := Reducer.extract_unique_files data in
  let rows := map (fun kv => Csv.new_row (date data) (snd kv)) unique_files in
  match csv with
  | Csv.Locked _ => (csv, Raise OSError)
  | Csv.Absent | Csv.File _ =>
      let file := match csv with Csv.File records => records | _ => [] end in
      let file1 := if negb file_exists then file ++ [Csv.fieldnames] else file in
      let (file2, r) := Csv.write_rows Csv.fieldnames rows file1 in
      (Csv.File file2, r)
  | Csv.Unterminated records c tail =>
      let (written, r) := Csv.write_rows Csv.fieldnames rows [] in
      (Csv.continue_with records (c :: tail) written, r)
  end.

End Legacy.

(* ------------------------------------------------------------------ *)
(** ** Vocabulary of the further properties *)

(** A file as the program itself leaves it: absent, empty, or the
    header followed by rows of five fields none of which repeats the
    header, every line closed by its terminator ([Csv.File]). *)
Definition tidy (s : Csv.sink) : Prop :=
  s = Csv.Absent \/ s = Csv.File []
  \/ exists old, s = Csv.File (Csv.fieldnames :: old)
                 /\ ~ In Csv.fieldnames old
                 /\ Forall (fun r => length r = 5) old.

(** A record filled up with empty fields to the five columns. *)
Definition pad_row (r : Csv.row) : Csv.row := r ++ repeat [] (5 - length r).

(** The number of separator rows a call adds. *)
Definition breaks (add_breaks : bool) : nat := if add_breaks then 1 else 0.

(** A date as the patterns capture it: three runs of digits with a
    slash between them. *)
Definition date_shaped (d : str) : Prop :=
  exists a b c,
    d = a ++ "/"%char :: b ++ "/"%char :: c
    /\ a <> [] /\ b <> [] /\ c <> []
    /\ forallb Py.is_digit (a ++ b ++ c) = true.

(** A log with a "Creating file" line and no folder-pair line. *)
Definition orphan_file_log : str :=
  $"Job 9/13/2025 [2:30:15 PM]" ++ newline
   ++ $"[2:30:20 PM]  Info:  Creating file " ++ Parser.dq
   ++ $"C:\Dest\VideoFile\Project\test.mov" ++ Parser.dq ++ newline.

(** A text without tab and without line feed. *)
Definition clean_text (s : str) : Prop :=
  ~ In Text.tab s /\ ~ In Text.lf s.

(** The address of the test of [extract_sheet_info]. *)
Definition demo_sheet_url : str :=
  $"https://docs.google.com/spreadsheets/d/1ABC123/edit#gid=0".

Definition demo_sheets : list SheetRef.SheetProperties :=
  [SheetRef.mkSheetProperties (Some 7%N) (Some $"Archive");
   SheetRef.mkSheetProperties (Some 0%N) (Some $"Log")].

(** The read of column A shows no header: it failed, or it came back
    empty or with a blank first row. *)
Definition no_header (column_a : outcome (list Csv.row)) : Prop :=
  forall first more, column_a = Ok (first :: more) -> first = [].

(** A service that carries out every write but the insertion of rows. *)
Definition no_insertion (issued : list Sheets.request) (r : Sheets.request) : bool :=
  match r with
  | Sheets.InsertRows _ _ => false
  | Sheets.Update _ _ => true
  end.

(** A field the writer writes as it is: it holds no comma, no quote, no
    carriage return and no line feed. *)
Definition plain_field (field : str) : Prop := existsb Csv.needs_quotes field = false.

(** A last line left without terminator, outside quotes: a text that is
    not empty and holds no quote, no carriage return and no line feed. *)
Definition open_line (line : str) : Prop :=
  line <> []
  /\ existsb (fun c => Py.chr_eqb c Csv.dquote || Csv.is_newline c) line = false.

(** A text that does not begin with a line feed. *)
Definition no_leading_lf (text : str) : Prop :=
  match text with
  | c :: _ => c <> Csv.lf
  | [] => True
  end.

(** The text of the sample row without its terminator. *)
Definition demo_open_line : str := $"9/12/2025,1:00:00 PM,Image,Shots,plate.exr".

(** A sample installation for the application: the world is the list
    of the status lines shown, nothing is cached, and the upload fails. *)
Definition journal : Type := list App.message.

Definition journal_log (m : App.message) (w : journal) : journal * outcome unit :=
  (w ++ [m], Ok tt).

Definition journal_store (parsed : SyncRun) (w : journal) : journal * outcome unit :=
  (w, Ok tt).

Definition journal_upload_fails (parsed : SyncRun) (w : journal)
  : journal * outcome (bool * str) :=
  (w, Raise OSError).

(* ================================================================== *)
(** * Properties *)

Unset Implicit Arguments.

(* ------------------------------------------------------------------ *)
(** ** Strings *)

Lemma py_eqb_spec (a b : str) : reflect (a = b) (Py.eqb a b).
Proof.
  revert b; induction a as [|x a IH]; intros [|y b]; simpl;
    try (constructor; congruence).
  unfold Py.chr_eqb. destruct (Ascii.eqb_spec x y) as [->|Hxy]; simpl.
  - destruct (IH b) as [->|Hab]; constructor; congruence.
  - constructor; congruence.
Qed.

Lemma py_eqb_refl (a : str) : Py.eqb a a = true.
Proof. destruct (py_eqb_spec a a); congruence. Qed.

Lemma py_eqb_eq (a b : str) : Py.eqb a b = true <-> a = b.
Proof. destruct (py_eqb_spec a b); split; congruence. Qed.

Lemma py_eqb_neq (a b : str) : Py.eqb a b = false <-> a <> b.
Proof. destruct (py_eqb_spec a b); split; congruence. Qed.

Lemma py_mem_In (x : str) (l : list str) : Py.mem x l = true <-> In x l.
Proof.
  unfold Py.mem. rewrite existsb_exists. split.
  - intros [y [Hy He]]. apply py_eqb_eq in He. now subst.
  - intros H. exists x. split; [assumption | apply py_eqb_refl].
Qed.

Lemma py_mem_not_In (x : str) (l : list str) : Py.mem x l = false <-> ~ In x l.
Proof.
  rewrite <- py_mem_In. destruct (Py.mem x l); split; congruence.
Qed.

(* ------------------------------------------------------------------ *)
(** ** The classifier *)

Lemma lookup_type_unknown (tbl : list (str * list str)) (e : str) :
  ~ In e (concat (map snd tbl)) -> Classifier.lookup_type tbl e = $"Unknown".
Proof.
  induction tbl as [|[name exts] tbl IH]; simpl; intros H; [reflexivity|].
  rewrite in_app_iff in H.
  destruct (Py.mem e exts) eqn:E.
  - apply py_mem_In in E. tauto.
  - apply IH. tauto.
Qed.

Lemma lookup_type_range (tbl : list (str * list str)) (e : str) :
  In (Classifier.lookup_type tbl e) (map fst tbl ++ [$"Unknown"]).
Proof.
  induction tbl as [|[name exts] tbl IH]; simpl.
  - now left.
  - destruct (Py.mem e exts); [now left | now right].
Qed.

(** C9. [get_file_type] is a total function into the closed set of
    categories; an extension of the table and its upper-case form get the
    same category; an extension whose lower-case form is not in the table,
    and the empty extension, get "Unknown". *)
Theorem get_file_type_total_case_insensitive :
  (forall ext, In ext Classifier.known_extensions ->
     Classifier.get_file_type ext = Classifier.get_file_type (Py.upper ext))
  /\ (forall ext, ~ In (Py.lower ext) Classifier.known_extensions ->
        Classifier.get_file_type ext = $"Unknown")
  /\ Classifier.get_file_type [] = $"Unknown"
  /\ (forall ext, In (Classifier.get_file_type ext) Classifier.categories).
Proof.
  split; [|split; [|split]].
  - intros ext H. simpl in H.
    repeat (destruct H as [<-|H]; [vm_compute; reflexivity|]).
    contradiction.
  - intros ext H. apply lookup_type_unknown. exact H.
  - reflexivity.
  - intros ext. exact (lookup_type_range Classifier.file_types (Py.lower ext)).
Qed.

Lemma get_file_type_total_case_insensitive_witness :
  Classifier.get_file_type $".png" = Classifier.get_file_type (Py.upper $".png")
  /\ Classifier.get_file_type $".MoV" = $"Video"
  /\ Classifier.get_file_type $".txt" = $"Unknown".
Proof.
  destruct get_file_type_total_case_insensitive as [Hcase [Hunknown _]].
  split; [|split].
  - apply Hcase. vm_compute. tauto.
  - reflexivity.
  - apply Hunknown. vm_compute. intuition discriminate.
Defined.

(* ------------------------------------------------------------------ *)
(** ** Record reduction *)

Section ReducerFacts.
Import Reducer.

Lemma has_key_In (k : str) (d : list (str * FileInfo)) :
  has_key k d = true <-> In k (map fst d).
Proof.
  unfold has_key. rewrite existsb_exists, in_map_iff. split.
  - intros [kv [Hin He]]. apply py_eqb_eq in He. exists kv. now split.
  - intros [kv [He Hin]]. exists kv. split; [assumption|].
    apply py_eqb_eq. now symmetry.
Qed.

Lemma add_file_new (d : list (str * FileInfo)) (e : FileEvent) :
  ~ In (name_of e) (map fst d) ->
  add_file d e = d ++ [(name_of e, record_of e)].
Proof.
  intros H. unfold add_file. fold (name_of e).
  destruct (has_key (name_of e) d) eqn:E.
  - apply has_key_In in E. contradiction.
  - reflexivity.
Qed.

Lemma add_file_seen (d : list (str * FileInfo)) (e : FileEvent) :
  In (name_of e) (map fst d) -> add_file d e = d.
Proof.
  intros H. unfold add_file. fold (name_of e).
  apply has_key_In in H. now rewrite H.
Qed.

Lemma add_file_cases (d : list (str * FileInfo)) (e : FileEvent) :
  (In (name_of e) (map fst d) /\ add_file d e = d)
  \/ (~ In (name_of e) (map fst d)
      /\ add_file d e = d ++ [(name_of e, record_of e)]).
Proof.
  destruct (has_key (name_of e) d) eqn:E.
  - left. apply has_key_In in E. split; [assumption | now apply add_file_seen].
  - right. assert (~ In (name_of e) (map fst d)) as H.
    { intros H. apply has_key_In in H. congruence. }
    split; [assumption | now apply add_file_new].
Qed.

(** The two nested loops visit the events of the run in order. *)
Lemma fold_operations (ops : list SyncOperation) (d : list (str * FileInfo)) :
  fold_left add_operation ops d = fold_left add_file (flat_map files_created ops) d.
Proof.
  revert d. induction ops as [|op ops IH]; intros d; simpl; [reflexivity|].
  rewrite fold_left_app. apply IH.
Qed.

Lemma extract_unique_files_events (run : SyncRun) :
  extract_unique_files run = fold_left add_file (events_of run) [].
Proof. apply fold_operations. Qed.

(** The loop only ever adds entries at the end, under names that are
    not there yet. *)
Lemma fold_add_file_grows (l : list FileEvent) (d : list (str * FileInfo)) :
  NoDup (map fst d) ->
  exists added,
    fold_left add_file l d = d ++ added
    /\ NoDup (map fst (d ++ added))
    /\ (forall k, In k (map fst added) -> In k (map name_of l)).
Proof.
  revert d. induction l as [|e l IH]; intros d Hd; simpl.
  - exists []. rewrite app_nil_r. repeat split; [assumption|]. intros k [].
  - destruct (add_file_cases d e) as [[Hin ->]|[Hnew ->]].
    + destruct (IH d Hd) as [added [-> [Hnd Hsub]]].
      exists added. repeat split; auto.
    + assert (NoDup (map fst (d ++ [(name_of e, record_of e)]))) as Hd'.
      { rewrite map_app. simpl. apply NoDup_app; auto.
        - repeat constructor. intros [].
        - intros k Hk [Hk'|[]]; simpl in Hk'. subst. contradiction. }
      destruct (IH _ Hd') as [added [-> [Hnd Hsub]]].
      exists ((name_of e, record_of e) :: added).
      rewrite <- app_assoc in *. simpl in *. repeat split; auto.
      intros k [Hk|Hk]; auto.
Qed.

Lemma fold_add_file_keys (l : list FileEvent) (k : str) :
  In k (map fst (fold_left add_file l [])) -> In k (map name_of l).
Proof.
  destruct (@fold_add_file_grows l []) as [added [-> [_ Hsub]]];
    [constructor|].
  simpl. apply Hsub.
Qed.

End ReducerFacts.

(** C5. The reduction keeps one record per file name.  For an event
    whose name no earlier event of the run has, the output is the output
    for the earlier events, then the record built from that event (with
    its timestamp), then the rest, in which the name does not occur again:
    a later event of the same name neither replaces nor moves it. *)
Theorem extract_unique_files_first_seen (run : SyncRun) :
  NoDup (map fst (Reducer.extract_unique_files run))
  /\ forall pre e post,
       Reducer.events_of run = pre ++ e :: post ->
       ~ In (name_of e) (map name_of pre) ->
       exists after,
         Reducer.extract_unique_files run =
           fold_left Reducer.add_file pre [] ++ (name_of e, record_of e) :: after
         /\ ~ In (name_of e) (map fst after).
Proof.
  rewrite extract_unique_files_events. split.
  - destruct (@fold_add_file_grows (Reducer.events_of run) [])
      as [added [-> [Hnd _]]]; [constructor | exact Hnd].
  - intros pre e post -> Hnew.
    rewrite fold_left_app. simpl.
    assert (~ In (name_of e) (map fst (fold_left Reducer.add_file pre []))) as Hk.
    { intros H. apply Hnew. now apply fold_add_file_keys. }
    rewrite (add_file_new _ _ Hk).
    destruct (@fold_add_file_grows pre []) as [seen [Hseen [Hnd0 _]]];
      [constructor|].
    simpl in Hseen, Hnd0. rewrite Hseen in *.
    destruct (@fold_add_file_grows post (seen ++ [(name_of e, record_of e)]))
      as [after [-> [Hnd _]]].
    { rewrite map_app. simpl. apply NoDup_app; auto.
      - repeat constructor. intros [].
      - intros k Hk1 [Hk2|[]]. simpl in Hk2. subst. contradiction. }
    exists after. rewrite <- app_assoc. simpl. split; [reflexivity|].
    rewrite <- app_assoc in Hnd. simpl in Hnd.
    rewrite map_app in Hnd. simpl in Hnd.
    apply NoDup_remove_2 in Hnd. intros H. apply Hnd.
    apply in_or_app. now right.
Qed.

Lemma extract_unique_files_first_seen_witness :
  Reducer.extract_unique_files demo_run
  = [($"test.mov", mkFileInfo $"2:30:20 PM" $"Video" $"Project" $"test.mov")]
  /\ exists after,
       Reducer.extract_unique_files demo_run =
         fold_left Reducer.add_file [] [] ++ (name_of demo_first, record_of demo_first) :: after
       /\ ~ In (name_of demo_first) (map fst after).
Proof.
  split; [reflexivity|].
  destruct (extract_unique_files_first_seen demo_run) as [_ H].
  apply (H [] demo_first [demo_second]).
  - reflexivity.
  - simpl. tauto.
Defined.

(* ------------------------------------------------------------------ *)
(** ** The local sink *)

Section CsvFacts.
Import Csv.

Lemma dict_to_list_new_row (d : option str) (info : FileInfo) :
  dict_to_list fieldnames (new_row d info) = Ok (stored_row d info).
Proof. destruct d; reflexivity. Qed.

Lemma dict_to_list_break_row : dict_to_list fieldnames break_row = Ok separator.
Proof. reflexivity. Qed.

Lemma write_rows_all (names : row) (ds : list rowdict) (rs file : list row) :
  Forall2 (fun d r => dict_to_list names d = Ok r) ds rs ->
  write_rows names ds file = (file ++ rs, Ok tt).
Proof.
  intros H. revert file. induction H as [|d r ds rs Hd _ IH]; intros file; simpl.
  - now rewrite app_nil_r.
  - rewrite Hd, IH, <- app_assoc. reflexivity.
Qed.

Lemma write_new_rows (data : SyncRun) (add_breaks : bool) (file : list row) :
  write_rows fieldnames (new_rows data add_breaks) file
  = (file ++ new_block data add_breaks, Ok tt).
Proof.
  apply write_rows_all. unfold new_rows, new_block, record_rows.
  assert (Forall2 (fun d r => dict_to_list fieldnames d = Ok r)
            (map (fun kv => new_row (date data) (snd kv))
               (Reducer.extract_unique_files data))
            (map (fun kv => stored_row (date data) (snd kv))
               (Reducer.extract_unique_files data))) as H.
  { induction (Reducer.extract_unique_files data) as [|kv l IH]; simpl;
      constructor; auto using dict_to_list_new_row. }
  destruct add_breaks.
  - apply Forall2_app; [exact H|]. repeat constructor.
  - now rewrite app_nil_r.
Qed.

(** A record of five fields read under the header and written back is
    the same record. *)
Lemma read_write_five (r : row) :
  length r = 5 -> dict_to_list fieldnames (read_dict fieldnames r) = Ok r.
Proof.
  destruct r as [|a [|b [|c [|d [|e [|f r]]]]]]; simpl; try discriminate.
  intros _. reflexivity.
Qed.

Lemma rewrite_existing (data file : list row) :
  Forall (fun r => length r = 5) data ->
  write_rows fieldnames (DictReader (fieldnames :: data)) file = (file ++ data, Ok tt).
Proof.
  intros H. apply write_rows_all. simpl.
  induction H as [|r data Hr _ IH]; simpl; [constructor|].
  destruct r as [|a r]; [discriminate|]. simpl.
  constructor; [now apply read_write_five | exact IH].
Qed.

(** What the call does to a sink that is absent or empty, whatever
    [prepend] is. *)
Lemma append_to_csv_fresh (data : SyncRun) (s : sink) (prepend add_breaks : bool) :
  s = Absent \/ s = File [] ->
  append_to_csv data s prepend add_breaks
  = (File (fieldnames :: new_block data add_breaks), Ok tt).
Proof.
  intros [->| ->]; unfold append_to_csv; simpl;
    rewrite ?andb_false_r; simpl; now rewrite write_new_rows.
Qed.

(** Append mode on a file that has records. *)
Lemma append_to_csv_append (data : SyncRun) (r : row) (rs : list row) (add_breaks : bool) :
  append_to_csv data (File (r :: rs)) false add_breaks
  = (File ((r :: rs) ++ new_block data add_breaks), Ok tt).
Proof. unfold append_to_csv. simpl. now rewrite write_new_rows. Qed.

(** Prepend mode on a file with the header and records of five fields. *)
Lemma append_to_csv_prepend (data : SyncRun) (old : list row) (add_breaks : bool) :
  Forall (fun r => length r = 5) old ->
  append_to_csv data (File (fieldnames :: old)) true add_breaks
  = (File (fieldnames :: new_block data add_breaks ++ old), Ok tt).
Proof.
  intros H. unfold append_to_csv.
  cbv [isfile size_is_zero fieldnames andb negb].
  fold fieldnames. rewrite write_new_rows.
  rewrite (rewrite_existing _ _ H). now rewrite <- app_assoc.
Qed.

End CsvFacts.

Section SinkInvariants.
Import Csv.

Lemma row_eqb_eq (a b : row) : row_eqb a b = true <-> a = b.
Proof.
  unfold row_eqb. revert b.
  induction a as [|x a IH]; intros [|y b]; simpl;
    try (split; [discriminate | congruence]).
  - tauto.
  - specialize (IH b). rewrite andb_true_iff in *.
    rewrite andb_true_iff, py_eqb_eq. split.
    + intros [Hl [-> Hf]]. f_equal. apply IH. now split.
    + intros [= -> ->]. destruct IH as [_ IH'].
      destruct (IH' eq_refl) as [Hl Hf]. auto.
Qed.

Lemma no_header_filter (l : list row) :
  ~ In fieldnames l -> filter (row_eqb fieldnames) l = [].
Proof.
  induction l as [|r l IH]; simpl; intros H; [reflexivity|].
  destruct (row_eqb fieldnames r) eqn:E.
  - apply row_eqb_eq in E. subst. tauto.
  - apply IH. tauto.
Qed.

Lemma header_count_one (rows : list row) :
  ~ In fieldnames rows -> header_count (File (fieldnames :: rows)) = 1.
Proof.
  intros H. unfold header_count. simpl records_of. simpl filter.
  replace (row_eqb fieldnames fieldnames) with true by reflexivity.
  now rewrite (no_header_filter _ H).
Qed.

(** Every entry of [unique_files] was built from an event. *)
Lemma fold_add_file_entries (l : list FileEvent) (d : list (str * FileInfo)) :
  Forall (fun kv => exists e, kv = (name_of e, record_of e)) d ->
  Forall (fun kv => exists e, kv = (name_of e, record_of e))
    (fold_left Reducer.add_file l d).
Proof.
  revert d. induction l as [|e l IH]; intros d Hd; simpl; [assumption|].
  apply IH. destruct (add_file_cases d e) as [[_ ->]|[_ ->]]; [assumption|].
  apply Forall_app. split; [assumption|]. repeat constructor. now exists e.
Qed.

Lemma category_not_header (ext : str) : Classifier.get_file_type ext <> $"Type".
Proof.
  intros H.
  pose proof (lookup_type_range Classifier.file_types (Py.lower ext)) as Hin.
  fold (Classifier.get_file_type ext) in Hin. rewrite H in Hin.
  simpl in Hin. intuition discriminate.
Qed.

(** Neither a record row nor the separator is the header row. *)
Lemma new_block_no_header (data : SyncRun) (add_breaks : bool) :
  ~ In fieldnames (new_block data add_breaks).
Proof.
  unfold new_block, record_rows. rewrite in_app_iff, in_map_iff.
  intros [[kv [Hrow Hin]]|Hsep].
  - rewrite extract_unique_files_events in Hin.
    pose proof (@fold_add_file_entries (Reducer.events_of data) [] (Forall_nil _)) as Hall.
    rewrite Forall_forall in Hall. destruct (Hall kv Hin) as [e ->].
    unfold stored_row in Hrow. simpl in Hrow.
    injection Hrow as _ _ Hty _ _.
    now apply category_not_header in Hty.
  - destruct add_breaks; simpl in Hsep; [|contradiction].
    destruct Hsep as [Hsep|[]]. discriminate Hsep.
Qed.

End SinkInvariants.




(** C2, the local sink.  With [add_breaks] the separator is the last row
    the call writes: in append mode it follows the new rows instead of
    preceding them, and it is written even when the file held no data
    row before. *)
Theorem append_to_csv_separator_after_block (data : SyncRun) :
  (forall r rs,
     Csv.append_to_csv data (Csv.File (r :: rs)) false true
     = (Csv.File ((r :: rs) ++ Csv.record_rows data ++ [Csv.separator]), Ok tt))
  /\ (forall s, s = Csv.Absent \/ s = Csv.File [] ->
        Csv.append_to_csv data s false true
        = (Csv.File (Csv.fieldnames :: Csv.record_rows data ++ [Csv.separator]), Ok tt))
  /\ Csv.append_to_csv demo_run (Csv.File [Csv.fieldnames; demo_row]) false true
     = (Csv.File [Csv.fieldnames; demo_row; demo_new_row; Csv.separator], Ok tt).
Proof.
  split; [|split].
  - intros r rs. apply append_to_csv_append.
  - intros s Hs. now apply append_to_csv_fresh.
  - reflexivity.
Qed.

Lemma append_to_csv_separator_after_block_witness :
  Csv.append_to_csv demo_run Csv.Absent false true
  = (Csv.File (Csv.fieldnames :: Csv.record_rows demo_run ++ [Csv.separator]), Ok tt).
Proof.
  destruct (append_to_csv_separator_after_block demo_run) as [_ [H _]].
  apply H. now left.
Defined.

(** The remote sink in append mode, for comparison: over a sheet that has
    rows under its header the separator is written on the first free row
    and the new rows right under it; over a sheet with the header alone
    no separator is written. *)
Lemma upload_data_append_separator_before_block
    (accepts : list Sheets.request -> Sheets.request -> bool)
    (data : SyncRun) (first second : Csv.row) (more : list Csv.row)
    (rows_below : outcome (list Csv.row)) (sheet_id : option nat) :
  (forall issued r, accepts issued r = true) ->
  Reducer.extract_unique_files data <> [] ->
  Csv.is_blank first = false ->
  Sheets.upload_data accepts data (Ok (first :: second :: more)) rows_below
    sheet_id false true
  = (true, [Sheets.Update (length more + 3) [Csv.separator];
            Sheets.Update (length more + 4) (Csv.record_rows data)])
  /\ Sheets.upload_data accepts data (Ok [first]) rows_below sheet_id false true
     = (true, [Sheets.Update 2 (Csv.record_rows data)]).
Proof.
  intros Haccepts Hne Hfirst. unfold Sheets.upload_data.
  destruct (Reducer.extract_unique_files data) as [|kv l]; [congruence|].
  rewrite Hfirst. simpl. rewrite !Haccepts. split; repeat f_equal; lia.
Qed.

(** C10. On a sink that is absent or of size zero the call does the same
    with [prepend] set as without; when the file can be opened it then
    holds the header row followed by the new rows in insertion order. *)
Theorem append_to_csv_prepend_on_fresh_sink
    (data : SyncRun) (add_breaks : bool) (s : Csv.sink) :
  Csv.isfile s = false \/ Csv.size_is_zero s = true ->
  Csv.append_to_csv data s true add_breaks = Csv.append_to_csv data s false add_breaks
  /\ (s = Csv.Absent \/ s = Csv.File [] ->
      Csv.append_to_csv data s true add_breaks
      = (Csv.File (Csv.fieldnames :: new_block data add_breaks), Ok tt)).
Proof.
  intros H. split.
  - destruct s as [|[|r rs]|rs c t|[|r rs]]; simpl in H;
      try reflexivity; destruct H; discriminate.
  - intros Hs. now apply append_to_csv_fresh.
Qed.

Lemma append_to_csv_prepend_on_fresh_sink_witness :
  Csv.append_to_csv demo_run (Csv.File []) true false
  = Csv.append_to_csv demo_run (Csv.File []) false false
  /\ Csv.append_to_csv demo_run (Csv.File []) true false
     = (Csv.File [Csv.fieldnames; demo_new_row], Ok tt).
Proof.
  destruct (@append_to_csv_prepend_on_fresh_sink demo_run false (Csv.File []))
    as [Hsame Hcontent].
  - right. reflexivity.
  - split; [exact Hsame|]. rewrite Hcontent by (now right). reflexivity.
Defined.

(* ------------------------------------------------------------------ *)
(** ** The matcher finds only what the pattern matches *)

Section MatcherSound.
Import Re.

Lemma drop_prefix_app (p s s' : str) :
  drop_prefix p s = Some s' -> s = p ++ s'.
Proof.
  revert s. induction p as [|x p IH]; intros [|y s]; simpl; try congruence.
  unfold Py.chr_eqb. destruct (Ascii.eqb_spec x y) as [->|]; [|discriminate].
  intros H. f_equal. now apply IH.
Qed.

Lemma exec_plus_sound (A : Type) (cls : ascii -> bool) (s : str)
    (k : str -> option A) (a : A) :
  exec_plus cls s k = Some a ->
  exists pre rest,
    s = pre ++ rest /\ pre <> [] /\ forallb cls pre = true /\ k rest = Some a.
Proof.
  induction s as [|c s IH]; simpl; [discriminate|].
  destruct (cls c) eqn:Hc; [|discriminate].
  destruct (exec_plus cls s k) as [a'|] eqn:E.
  - intros [= ->]. destruct (IH eq_refl) as [pre [rest [-> [_ [Hall Hk]]]]].
    exists (c :: pre), rest. simpl. rewrite Hc, Hall.
    repeat split; [discriminate | assumption].
  - intros Hk. exists [c], s. simpl. rewrite Hc.
    repeat split; [discriminate | assumption].
Qed.

Lemma firstn_prefix (pre rest : str) :
  firstn (length (pre ++ rest) - length rest) (pre ++ rest) = pre.
Proof.
  rewrite length_app, Nat.add_sub.
  rewrite firstn_app, Nat.sub_diag, firstn_all. simpl. apply app_nil_r.
Qed.

Theorem exec_sound (A : Type) (r : re) :
  forall (s : str) (k : str -> list str -> option A) (a : A),
    exec r s k = Some a ->
    exists pre rest caps,
      s = pre ++ rest /\ matches r pre caps /\ k rest caps = Some a.
Proof.
  induction r as [|p|cls|r1 IH1 r2 IH2|r IH]; intros s k a; simpl.
  - intros H. exists [], s, []. repeat split; [constructor | assumption].
  - destruct (drop_prefix p s) as [s'|] eqn:E; [|discriminate].
    intros H. apply drop_prefix_app in E.
    exists p, s', []. repeat split; [assumption | constructor | assumption].
  - intros H. apply exec_plus_sound in H.
    destruct H as [pre [rest [-> [Hne [Hall Hk]]]]].
    exists pre, rest, []. repeat split; [now constructor | assumption].
  - intros H. apply IH1 in H. destruct H as [p1 [s1 [c1 [-> [H1 H]]]]].
    apply IH2 in H. destruct H as [p2 [s2 [c2 [-> [H2 H]]]]].
    exists (p1 ++ p2), s2, (c1 ++ c2). rewrite app_assoc.
    repeat split; [now constructor | assumption].
  - intros H. apply IH in H. destruct H as [pre [rest [caps [-> [H1 H]]]]].
    rewrite firstn_prefix in H.
    exists pre, rest, (pre :: caps). repeat split; [now constructor | assumption].
Qed.

Lemma match_at_sound (r : re) (s rest : str) (caps : list str) :
  match_at r s = Some (caps, rest) ->
  exists pre, s = pre ++ rest /\ matches r pre caps.
Proof.
  unfold match_at. intros H. apply exec_sound in H.
  destruct H as [pre [rest' [caps' [-> [Hm [= -> ->]]]]]]. now exists pre.
Qed.

Lemma re_match_sound (r : re) (s : str) (caps : list str) :
  re_match r s = Some caps ->
  exists pre rest, s = pre ++ rest /\ matches r pre caps.
Proof.
  unfold re_match. destruct (match_at r s) as [[c rest]|] eqn:E; simpl;
    [|discriminate].
  intros [= ->]. apply match_at_sound in E. destruct E as [pre [-> Hm]].
  now exists pre, rest.
Qed.

Lemma re_search_sound (r : re) (s : str) (caps : list str) :
  re_search r s = Some caps ->
  exists skipped pre rest, s = skipped ++ pre ++ rest /\ matches r pre caps.
Proof.
  induction s as [|c s IH]; simpl.
  - destruct (re_match r []) as [caps'|] eqn:E; [|discriminate].
    intros [= ->]. apply re_match_sound in E.
    destruct E as [pre [rest [-> Hm]]]. now exists [], pre, rest.
  - destruct (re_match r (c :: s)) as [caps'|] eqn:E.
    + intros [= ->]. apply re_match_sound in E.
      destruct E as [pre [rest [-> Hm]]]. now exists [], pre, rest.
    + intros H. destruct (IH H) as [skipped [pre [rest [-> Hm]]]].
      now exists (c :: skipped), pre, rest.
Qed.

Lemma matches_groups (r : re) (s : str) (caps : list str) :
  matches r s caps -> length caps = groups r.
Proof.
  induction 1; simpl; try reflexivity.
  - rewrite length_app. congruence.
  - congruence.
Qed.

(** [m.group(n)] is there for every group of the pattern. *)
Lemma group_defined (caps : list str) (n k : nat) :
  length caps = k -> 1 <= n <= k -> exists g, group caps n = Ok g.
Proof.
  intros Hlen Hn. unfold group, Py.item.
  destruct (nth_error caps (n - 1)) as [g|] eqn:E; [now exists g|].
  apply nth_error_None in E. lia.
Qed.

End MatcherSound.

(* ------------------------------------------------------------------ *)
(** ** The parser *)

Ltac invert_matches :=
  repeat match goal with
         | H : matches (Re.Seq _ _) _ _ |- _ => inversion H; subst; clear H
         | H : matches (Re.Grp _) _ _ |- _ => inversion H; subst; clear H
         | H : matches (Re.Lit _) _ _ |- _ => inversion H; subst; clear H
         | H : matches (Re.Plus _) _ _ |- _ => inversion H; subst; clear H
         | H : matches Re.Eps _ _ |- _ => inversion H; subst; clear H
         end.

Section ParserFacts.
Import Re Parser.





(** The first group of the comparison pattern holds digits and commas. *)
Lemma comparison_re_groups (line : str) (caps : list str) :
  re_search comparison_re line = Some caps ->
  exists count elapsed,
    caps = [count; elapsed]
    /\ forallb (digit_or ","%char) count = true
    /\ length count <= length line.
Proof.
  intros H. apply re_search_sound in H.
  destruct H as [skipped [pre [rest [-> Hm]]]].
  cbv [comparison_re cat digits spaces hms] in Hm. invert_matches.
  simpl. eexists _, _. split; [reflexivity|].
  split; [assumption|].
  repeat (rewrite ?length_app; simpl). lia.
Qed.




End ParserFacts.

Section StepFacts.
Import Re Parser.

Lemma group_of_two (a b : str) :
  group [a; b] 1 = Ok a /\ group [a; b] 2 = Ok b.
Proof. split; reflexivity. Qed.



Lemma append_to_last_defined (ops : list SyncOperation) (ev : FileEvent) :
  ops <> [] ->
  exists ops',
    append_to_last ops ev = Ok ops'
    /\ map (fun op => (source op, destination op)) ops'
       = map (fun op => (source op, destination op)) ops.
Proof.
  induction ops as [|op ops IH]; [congruence|]. intros _.
  destruct ops as [|op' ops].
  - simpl. eexists. split; reflexivity.
  - destruct IH as [ops' [Hops Hmap]]; [discriminate|].
    change (append_to_last (op :: op' :: ops) ev)
      with (rest' <- append_to_last (op' :: ops) ev ;; Ok (op :: rest')).
    rewrite Hops. simpl. eexists. split; [reflexivity|].
    simpl. f_equal. exact Hmap.
Qed.

(** The "Creating file" test raises nothing and opens no operation. *)
Lemma creating_total (line : str) (data : SyncRun) :
  exists data2,
    creating line data = Ok data2
    /\ header_fields data2 = header_fields data
    /\ folder_pairs data2 = folder_pairs data.
Proof.
  unfold creating.
  destruct (re_search creating_re line) as [m|] eqn:E; [|now exists data].
  destruct (sync_operations data) as [|op ops] eqn:Hops; [now exists data|].
  apply re_search_sound in E. destruct E as [sk [pre [rest [_ Hm]]]].
  apply matches_groups in Hm.
  destruct (group_defined m 1 1 Hm) as [path ->]; [lia|]. cbn [bind].
  destruct (re_match bracket_time_re line) as [tm|] eqn:Et; [|now exists data].
  apply re_match_sound in Et. destruct Et as [pre' [rest' [_ Htm]]].
  apply matches_groups in Htm.
  destruct (group_defined tm 1 1 Htm) as [ts ->]; [lia|]. cbn [bind].
  destruct (append_to_last_defined (op :: ops) (mkFileEvent ts path))
    as [ops' [-> Hmap]]; [discriminate|].
  cbn [bind]. eexists. split; [reflexivity|]. split; [reflexivity|].
  unfold folder_pairs. simpl. rewrite Hops. exact Hmap.
Qed.


Lemma header_re_groups (line : str) (m : list str) :
  re_match header_re line = Some m -> exists n d t, m = [n; d; t].
Proof.
  intros H. apply re_match_sound in H. destruct H as [pre [rest [_ Hm]]].
  apply matches_groups in Hm. simpl in Hm.
  destruct m as [|n [|d [|t [|x m]]]]; try discriminate. now exists n, d, t.
Qed.

(** *** The iteration, case by case *)

Variable lines : list str.
Variable i : nat.
Variable data : SyncRun.
Variable raw : str.
Hypothesis Hraw : nth_error lines i = Some raw.

Lemma step_blank :
  Py.strip raw = [] -> step lines i data = Ok (i + 1, data).
Proof.
  intros H. unfold step, Py.item. rewrite Hraw. simpl. now rewrite H.
Qed.

Lemma step_header (n d t : str) :
  Py.strip raw <> [] ->
  re_match header_re (Py.strip raw) = Some [n; d; t] ->
  step lines i data = Ok (i + 1, set_header n d t data).
Proof.
  intros Hne H. unfold step, Py.item. rewrite Hraw. cbn [bind].
  destruct (Py.strip raw) as [|c l]; [congruence|].
  rewrite H. reflexivity.
Qed.

Lemma step_comparison (data1 : SyncRun) (count elapsed : str) :
  Py.strip raw <> [] ->
  re_match header_re (Py.strip raw) = None ->
  summary (Py.strip raw) data = Ok data1 ->
  re_search comparison_re (Py.strip raw) = Some [count; elapsed] ->
  step lines i data =
    (n <- Py.int (Py.remove_chr ","%char count) ;;
     Ok (i + 1, set_comparison n elapsed data1)).
Proof.
  intros Hne Hh Hs Hc. unfold step, Py.item. rewrite Hraw. cbn [bind].
  destruct (Py.strip raw) as [|c l]; [congruence|].
  rewrite Hh, Hs. cbn [bind]. rewrite Hc. unfold group, Py.item. simpl.
  destruct (Py.int _); reflexivity.
Qed.

Lemma step_open_operation (data1 : SyncRun) :
  Py.strip raw <> [] ->
  re_match header_re (Py.strip raw) = None ->
  summary (Py.strip raw) data = Ok data1 ->
  re_search comparison_re (Py.strip raw) = None ->
  Py.contains (Py.strip raw) folder_pair_marker = true ->
  i + 2 < length lines ->
  exists src dst,
    nth_error lines (i + 1) = Some src
    /\ nth_error lines (i + 2) = Some dst
    /\ step lines i data =
         Ok (i + 3,
             set_operations
               (sync_operations data1
                  ++ [mkSyncOperation (Py.strip src) (Py.strip dst) []]) data1).
Proof.
  intros Hne Hh Hs Hc Hm Hlen.
  destruct (nth_error lines (i + 1)) as [src|] eqn:E1;
    [|apply nth_error_None in E1; lia].
  destruct (nth_error lines (i + 2)) as [dst|] eqn:E2;
    [|apply nth_error_None in E2; lia].
  exists src, dst. repeat split.
  unfold step, Py.item. rewrite Hraw. cbn [bind].
  destruct (Py.strip raw) as [|c l]; [congruence|].
  rewrite Hh, Hs. cbn [bind]. rewrite Hc, Hm.
  apply Nat.ltb_lt in Hlen. rewrite Hlen, E1, E2. reflexivity.
Qed.

Lemma step_rest (data1 : SyncRun) :
  Py.strip raw <> [] ->
  re_match header_re (Py.strip raw) = None ->
  summary (Py.strip raw) data = Ok data1 ->
  re_search comparison_re (Py.strip raw) = None ->
  Py.contains (Py.strip raw) folder_pair_marker = false \/ length lines <= i + 2 ->
  step lines i data =
    (data2 <- creating (Py.strip raw) data1 ;; Ok (i + 1, data2)).
Proof.
  intros Hne Hh Hs Hc Hm.
  unfold step, Py.item. rewrite Hraw. cbn [bind].
  destruct (Py.strip raw) as [|c l]; [congruence|].
  rewrite Hh, Hs. cbn [bind]. rewrite Hc. cbv zeta.
  destruct (Py.contains (c :: l) folder_pair_marker); [|reflexivity].
  destruct Hm as [Hm|Hm]; [discriminate|].
  apply Nat.ltb_ge in Hm. now rewrite Hm.
Qed.

Lemma step_summary_raises (e : exn) :
  Py.strip raw <> [] ->
  re_match header_re (Py.strip raw) = None ->
  summary (Py.strip raw) data = Raise e ->
  step lines i data = Raise e.
Proof.
  intros Hne Hh Hs. unfold step, Py.item. rewrite Hraw. cbn [bind].
  destruct (Py.strip raw) as [|c l]; [congruence|].
  rewrite Hh, Hs. reflexivity.
Qed.

End StepFacts.

Section ScanFacts.
Import Re Parser.

Lemma summary_preserves (line : str) (data data1 : SyncRun) :
  summary line data = Ok data1 ->
  header_fields data1 = header_fields data
  /\ sync_operations data1 = sync_operations data.
Proof.
  unfold summary, bind.
  repeat match goal with
         | |- context [match ?x with _ => _ end] => destruct x
         end;
    intros H; inversion H; subst; split; reflexivity.
Qed.

Lemma header_of_blank : re_match header_re [] = None.
Proof. reflexivity. Qed.

Variable lines : list str.

Lemma next_index_gt (i : nat) : i < next_index lines i.
Proof.
  unfold next_index.
  repeat match goal with
         | |- context [match ?x with _ => _ end] => destruct x
         end; lia.
Qed.

Lemma next_index_blank (i : nat) (raw : str) :
  nth_error lines i = Some raw -> Py.strip raw = [] ->
  next_index lines i = i + 1.
Proof.
  intros Hraw Hline. unfold next_index.
  now rewrite (nth_error_nth _ _ _ Hraw), Hline.
Qed.

Lemma next_index_line (i : nat) (raw : str) :
  nth_error lines i = Some raw -> Py.strip raw <> [] ->
  next_index lines i =
    match re_match header_re (Py.strip raw) with
    | Some _ => i + 1
    | None =>
        match re_search comparison_re (Py.strip raw) with
        | Some _ => i + 1
        | None =>
            if Py.contains (Py.strip raw) folder_pair_marker
               && (i + 2 <? length lines)
            then i + 3 else i + 1
        end
    end.
Proof.
  intros Hraw Hne. unfold next_index. rewrite (nth_error_nth _ _ _ Hraw).
  destruct (Py.strip raw); [congruence | reflexivity].
Qed.

(** A completed iteration goes on at [next_index] and changes the
    header fields only by storing the header match of its line. *)
Lemma step_next (i i' : nat) (data data' : SyncRun) :
  step lines i data = Ok (i', data') ->
  i' = next_index lines i
  /\ header_fields data' =
       match header_at lines i with
       | Some m => store_header (header_fields data) m
       | None => header_fields data
       end.
Proof.
  intros Hstep.
  destruct (nth_error lines i) as [raw|] eqn:Hraw;
    [|unfold step, Py.item in Hstep; rewrite Hraw in Hstep; discriminate].
  unfold header_at. rewrite (nth_error_nth _ _ _ Hraw).
  destruct (Py.strip raw) as [|c l] eqn:Hline.
  - rewrite (step_blank _ _ data _ Hraw Hline) in Hstep.
    injection Hstep as <- <-.
    rewrite (next_index_blank _ _ Hraw Hline), header_of_blank. now split.
  - assert (Py.strip raw <> []) as Hne by (rewrite Hline; discriminate).
    rewrite <- Hline. clear Hline c l.
    rewrite (next_index_line _ _ Hraw Hne).
    destruct (re_match header_re (Py.strip raw)) as [m|] eqn:Hh.
    + destruct (header_re_groups _ _ Hh) as [n [d [t ->]]].
      rewrite (step_header _ _ data _ Hraw _ _ _ Hne Hh) in Hstep.
      injection Hstep as <- <-. now split.
    + destruct (summary (Py.strip raw) data) as [data1|e] eqn:Hs;
        [|rewrite (step_summary_raises _ _ _ _ Hraw _ Hne Hh Hs) in Hstep; discriminate].
      destruct (summary_preserves _ _ _ Hs) as [Hhdr _].
      destruct (re_search comparison_re (Py.strip raw)) as [m|] eqn:Hc.
      * destruct (comparison_re_groups _ _ Hc) as [count [elapsed [-> _]]].
        rewrite (step_comparison _ _ _ _ Hraw _ _ _ Hne Hh Hs Hc) in Hstep.
        destruct (Py.int _) as [n|]; [|discriminate].
        injection Hstep as <- <-. now split.
      * destruct (Py.contains (Py.strip raw) folder_pair_marker) eqn:Hm;
          [destruct (i + 2 <? length lines) eqn:Hlen|].
        -- apply Nat.ltb_lt in Hlen.
           destruct (step_open_operation _ _ _ _ Hraw _ Hne Hh Hs Hc Hm Hlen)
             as [src [dst [_ [_ Hopen]]]].
           rewrite Hopen in Hstep. injection Hstep as <- <-. now split.
        -- apply Nat.ltb_ge in Hlen.
           rewrite (step_rest _ _ _ _ Hraw _ Hne Hh Hs Hc (or_intror Hlen)) in Hstep.
           destruct (creating_total (Py.strip raw) data1) as [data2 [Hcr [Hh2 _]]].
           rewrite Hcr in Hstep. injection Hstep as <- <-.
           split; [reflexivity | congruence].
        -- rewrite (step_rest _ _ _ _ Hraw _ Hne Hh Hs Hc (or_introl Hm)) in Hstep.
           destruct (creating_total (Py.strip raw) data1) as [data2 [Hcr [Hh2 _]]].
           rewrite Hcr in Hstep. injection Hstep as <- <-.
           split; [reflexivity | congruence].
Qed.



(** The loop ends within [length lines - i] iterations. *)
Lemma scan_ends (fuel : nat) :
  forall i data, length lines - i <= fuel ->
                 exists r, scan fuel lines i data = Some r.
Proof.
  induction fuel as [|fuel IH]; intros i data Hfuel; simpl.
  - destruct (i <? length lines) eqn:E; [apply Nat.ltb_lt in E; lia | eauto].
  - destruct (i <? length lines) eqn:E; [|eauto].
    apply Nat.ltb_lt in E.
    destruct (step lines i data) as [[i' data']|e] eqn:Hstep; [|eauto].
    apply step_next in Hstep. destruct Hstep as [-> _].
    apply IH. pose proof (next_index_gt i). lia.
Qed.



(** The header fields at the end are those at the start with the
    header matches met on the way stored one after the other. *)
Lemma scan_header_fields (fuel : nat) :
  forall i data run,
    scan fuel lines i data = Some (Ok run) ->
    header_fields run
    = fold_left store_header (headers_from fuel lines i) (header_fields data).
Proof.
  unfold headers_from.
  induction fuel as [|fuel IH]; intros i data run; simpl.
  - destruct (i <? length lines); [discriminate|]. now intros [= ->].
  - destruct (i <? length lines); [|now intros [= ->]].
    destruct (step lines i data) as [[i' data']|e] eqn:Hstep; [|discriminate].
    apply step_next in Hstep. destruct Hstep as [-> Hhdr].
    intros Hscan. rewrite (IH _ _ _ Hscan). simpl.
    rewrite fold_left_app, Hhdr.
    destruct (header_at lines i); reflexivity.
Qed.

End ScanFacts.

Lemma parse_sync_log_total (path content : str) :
  exists r, Parser.parse_sync_log path content = Some r.
Proof.
  unfold Parser.parse_sync_log, Parser.parse_log.
  destruct (Py.endswith _ _); [eauto|].
  apply scan_ends. lia.
Qed.





(** C4 (as the code has it).  Every header-shaped line the scan stops at
    overwrites the three header fields, so after a parse that returns
    they are the three groups of the last such line; when the scan meets
    no such line they stay unset. *)
Theorem parse_sync_log_header_last_match (path content : str) (run : SyncRun) :
  Py.endswith (Py.lower path) $".html" = false ->
  Parser.parse_sync_log path content = Some (Ok run) ->
  (forall earlier n d t,
     headers_seen (Py.splitlines content) = earlier ++ [[n; d; t]] ->
     sync_name run = Some n /\ date run = Some d /\ start_time run = Some t)
  /\ (headers_seen (Py.splitlines content) = [] ->
      sync_name run = None /\ date run = None /\ start_time run = None).
Proof.
  intros Hfmt. unfold Parser.parse_sync_log. rewrite Hfmt.
  unfold Parser.parse_log. intros Hscan.
  apply scan_header_fields in Hscan. fold (headers_seen (Py.splitlines content)) in Hscan.
  split.
  - intros earlier n d t Hseen. rewrite Hseen, fold_left_app in Hscan.
    simpl in Hscan. unfold header_fields in Hscan.
    injection Hscan as -> -> ->. repeat split.
  - intros Hseen. rewrite Hseen in Hscan. simpl in Hscan.
    unfold header_fields in Hscan. injection Hscan as -> -> ->. repeat split.
Qed.

Lemma parse_sync_log_header_last_match_witness :
  exists run,
    Parser.parse_sync_log $"run.log" two_headers_log = Some (Ok run)
    /\ sync_name run = Some $"Second"
    /\ date run = Some $"4/5/2025"
    /\ start_time run = Some $"4:05:06 AM".
Proof.
  destruct (parse_sync_log_total $"run.log" two_headers_log) as [[run|e] Hrun];
    [|vm_compute in Hrun; discriminate].
  exists run. split; [exact Hrun|].
  destruct (parse_sync_log_header_last_match $"run.log" two_headers_log run
              eq_refl Hrun) as [Hlast _].
  apply (Hlast [[$"First"; $"1/2/2025"; $"1:02:03 PM"]]).
  vm_compute. reflexivity.
Defined.

(** C4, where the claim fails: of two header-shaped lines the second,
    not the first, ends up in the header fields. *)
Lemma parse_sync_log_first_header_counterexample :
  exists run,
    Parser.parse_sync_log $"run.log" two_headers_log = Some (Ok run)
    /\ header_at (Py.splitlines two_headers_log) 0
       = Some [$"First"; $"1/2/2025"; $"1:02:03 PM"]
    /\ header_at (Py.splitlines two_headers_log) 1
       = Some [$"Second"; $"4/5/2025"; $"4:05:06 AM"]
    /\ sync_name run = Some $"Second"
    /\ date run = Some $"4/5/2025"
    /\ start_time run = Some $"4:05:06 AM".
Proof.
  eexists. split; [vm_compute; reflexivity|]. repeat split.
Qed.

Lemma contains_marker_not_blank (line : str) :
  Py.contains line Parser.folder_pair_marker = true -> line <> [].
Proof. intros H ->. discriminate H. Qed.

(** C6 (as the code has it).  A line with the folder-pair marker that
    the header test and the comparison test have not already taken opens
    an operation when two lines follow it: they are stripped into its
    source and destination and the scan goes on three lines further.
    When fewer than two lines follow, the scan goes on at the next line
    and the operations keep their number, sources and destinations. *)
Theorem step_folder_pair
    (lines : list str) (i : nat) (data data1 : SyncRun) (raw : str) :
  nth_error lines i = Some raw ->
  Py.contains (Py.strip raw) Parser.folder_pair_marker = true ->
  Re.re_match Parser.header_re (Py.strip raw) = None ->
  Re.re_search Parser.comparison_re (Py.strip raw) = None ->
  Parser.summary (Py.strip raw) data = Ok data1 ->
  (i + 2 < length lines ->
     exists src dst,
       nth_error lines (i + 1) = Some src
       /\ nth_error lines (i + 2) = Some dst
       /\ Parser.step lines i data =
            Ok (i + 3,
                Parser.set_operations
                  (sync_operations data1
                     ++ [mkSyncOperation (Py.strip src) (Py.strip dst) []]) data1))
  /\ (length lines <= i + 2 ->
      exists data2,
        Parser.step lines i data = Ok (i + 1, data2)
        /\ folder_pairs data2 = folder_pairs data1).
Proof.
  intros Hraw Hm Hh Hc Hs.
  pose proof (contains_marker_not_blank _ Hm) as Hne.
  split; intros Hlen.
  - exact (step_open_operation _ _ _ _ Hraw _ Hne Hh Hs Hc Hm Hlen).
  - rewrite (step_rest _ _ _ _ Hraw _ Hne Hh Hs Hc (or_intror Hlen)).
    destruct (creating_total (Py.strip raw) data1) as [data2 [-> [_ Hpairs]]].
    exists data2. split; [reflexivity | exact Hpairs].
Qed.

Lemma step_folder_pair_witness :
  Parser.step folder_pair_lines 0 Parser.empty_run
  = Ok (3, Parser.set_operations [mkSyncOperation $"C:\Source" $"C:\Dest" []]
             Parser.empty_run)
  /\ exists data2,
       Parser.step (firstn 2 folder_pair_lines) 0 Parser.empty_run = Ok (1, data2)
       /\ folder_pairs data2 = [].
Proof.
  split.
  - destruct (step_folder_pair folder_pair_lines 0 Parser.empty_run Parser.empty_run
                $"[2:30:16 PM]  Info:  Synchronizing folder pair: Update >"
                eq_refl eq_refl eq_refl eq_refl eq_refl) as [Hopen _].
    destruct Hopen as [src [dst [Hsrc [Hdst Hstep]]]]; [simpl; lia|].
    injection Hsrc as <-. injection Hdst as <-. exact Hstep.
  - destruct (step_folder_pair (firstn 2 folder_pair_lines) 0
                Parser.empty_run Parser.empty_run
                $"[2:30:16 PM]  Info:  Synchronizing folder pair: Update >"
                eq_refl eq_refl eq_refl eq_refl eq_refl) as [_ Hshort].
    apply Hshort. simpl. lia.
Defined.

(** C6, where the claim fails: a marker line that is header-shaped is
    taken by the header test; no operation is opened although two lines
    follow, and the scan goes on at the next line. *)
Lemma step_marker_header_counterexample :
  Py.contains (Py.strip (nth 0 marker_header_lines [])) Parser.folder_pair_marker = true
  /\ 0 + 2 < length marker_header_lines
  /\ Parser.step marker_header_lines 0 Parser.empty_run
     = Ok (1, Parser.set_header $"Synchronizing folder pair: Update >"
                $"1/2/2025" $"1:02:03 PM" Parser.empty_run)
  /\ (exists run,
        Parser.scan 3 marker_header_lines 0 Parser.empty_run = Some (Ok run)
        /\ sync_operations run = []).
Proof.
  split; [reflexivity|]. split; [simpl; lia|]. split; [reflexivity|].
  eexists. split; [vm_compute; reflexivity | reflexivity].
Qed.

Lemma nth_error_zip (A B C : Type) (f : A * B -> C) (a : list A) (b : list B) (n : nat) :
  nth_error (map f (combine a b)) n =
    match nth_error a n, nth_error b n with
    | Some x, Some y => Some (f (x, y))
    | _, _ => None
    end.
Proof.
  revert b n. induction a as [|x a IH]; intros [|y b] [|n]; simpl;
    try reflexivity.
  - now destruct (nth_error a n).
  - apply IH.
Qed.

(** C7. In the HTML format the n-th timestamp cell is paired with the
    n-th "Creating file" path, up to the length of the shorter list, and
    the pairs are the file events of the one operation of the result,
    whose source and destination are empty. *)
Theorem parse_html_pairs_by_position (content : str) :
  let timestamps := Re.re_findall Parser.td_re content in
  let file_paths := Re.re_findall Parser.creating_html_re content in
  exists files,
    sync_operations (Parser.parse_html content) = [mkSyncOperation [] [] files]
    /\ length files = Nat.min (length timestamps) (length file_paths)
    /\ (forall n,
          nth_error files n =
            match nth_error timestamps n, nth_error file_paths n with
            | Some ts, Some fp => Some (mkFileEvent ts fp)
            | _, _ => None
            end)
    /\ (length timestamps = 2 -> length file_paths = 1 -> length files = 1).
Proof.
  intros timestamps file_paths.
  exists (map (fun p => mkFileEvent (fst p) (snd p)) (combine timestamps file_paths)).
  split; [reflexivity|].
  assert (length (map (fun p => mkFileEvent (fst p) (snd p))
                    (combine timestamps file_paths))
          = Nat.min (length timestamps) (length file_paths)) as Hlen.
  { now rewrite length_map, length_combine. }
  split; [exact Hlen|]. split.
  - intros n. apply nth_error_zip.
  - intros H2 H1. rewrite Hlen, H2, H1. reflexivity.
Qed.

Lemma parse_html_pairs_by_position_witness :
  Re.re_findall Parser.td_re two_cells_one_marker = [$"2:30:20 PM"; $"2:30:25 PM"]
  /\ Re.re_findall Parser.creating_html_re two_cells_one_marker
     = [$"C:\Dest\VideoFile\Project\test.mov"]
  /\ exists files,
       sync_operations (Parser.parse_html two_cells_one_marker)
       = [mkSyncOperation [] [] files]
       /\ length files = 1.
Proof.
  split; [vm_compute; reflexivity|]. split; [vm_compute; reflexivity|].
  destruct (parse_html_pairs_by_position two_cells_one_marker)
    as [files [Hops [_ [_ Hone]]]].
  exists files. split; [exact Hops|].
  apply Hone; vm_compute; reflexivity.
Defined.

(* ------------------------------------------------------------------ *)
(** ** The orchestrator *)

Section HandlerFacts.
Import Handler.

Variable World : Type.
Variable log_callback : message -> World -> World * outcome unit.
Variable store_callback : SyncRun -> World -> World * outcome unit.
Variable read_text : str -> outcome str.
Variables prepend add_breaks : bool.




End HandlerFacts.





(* ================================================================== *)
(** * Further properties *)

(* ------------------------------------------------------------------ *)
(** ** Splitting and joining *)

Lemma chr_eqb_true (a b : ascii) : Py.chr_eqb a b = true <-> a = b.
Proof. unfold Py.chr_eqb. apply Ascii.eqb_eq. Qed.

Lemma chr_eqb_false (a b : ascii) : Py.chr_eqb a b = false <-> a <> b.
Proof. unfold Py.chr_eqb. apply Ascii.eqb_neq. Qed.

Lemma split_not_nil (sep : ascii) (s : str) : Py.split sep s <> [].
Proof.
  destruct s as [|c s]; simpl; [discriminate|].
  destruct (Py.chr_eqb c sep); [discriminate|].
  destruct (Py.split sep s); discriminate.
Qed.

Lemma split_cons_sep (sep : ascii) (s : str) :
  Py.split sep (sep :: s) = [] :: Py.split sep s.
Proof.
  simpl. replace (Py.chr_eqb sep sep) with true; [reflexivity|].
  symmetry. now apply chr_eqb_true.
Qed.

Lemma split_cons_other (sep c : ascii) (s : str) :
  c <> sep ->
  exists p ps, Py.split sep s = p :: ps /\ Py.split sep (c :: s) = (c :: p) :: ps.
Proof.
  intros Hc. simpl. apply chr_eqb_false in Hc. rewrite Hc.
  destruct (Py.split sep s) as [|p ps] eqn:E.
  - now apply split_not_nil in E.
  - now exists p, ps.
Qed.

(** No piece of a split holds the separator. *)
Lemma split_pieces_clean (sep : ascii) (s p : str) :
  In p (Py.split sep s) -> ~ In sep p.
Proof.
  revert p. induction s as [|c s IH]; intros p; simpl.
  - intros [<-|[]] [].
  - destruct (Py.chr_eqb c sep) eqn:E.
    + intros [<-|H]; [intros []|now apply IH].
    + apply chr_eqb_false in E.
      destruct (Py.split sep s) as [|q qs]; simpl.
      * intros [<-|[]] [H|[]]. congruence.
      * intros [<-|H].
        -- intros [H|H]; [congruence|]. apply (IH q); [now left | assumption].
        -- apply IH. now right.
Qed.

Lemma last_cons_more (a : str) (l : list str) :
  l <> [] -> last (a :: l) [] = last l [].
Proof. destruct l; [congruence | reflexivity]. Qed.

Lemma join_cons_more (sep : ascii) (a : str) (l : list str) :
  l <> [] -> Text.join [sep] (a :: l) = a ++ sep :: Text.join [sep] l.
Proof. destruct l; [congruence | reflexivity]. Qed.

(** Joining the pieces of a split gives the text back. *)
Lemma join_split (sep : ascii) (s : str) :
  Text.join [sep] (Py.split sep s) = s.
Proof.
  induction s as [|c s IH]; [reflexivity|].
  destruct (Ascii.eqb_spec c sep) as [->|Hc].
  - rewrite split_cons_sep, join_cons_more by apply split_not_nil.
    simpl. now rewrite IH.
  - destruct (split_cons_other sep c s Hc) as [p [ps [E ->]]].
    rewrite E in IH. destruct ps as [|q qs]; simpl in *; now rewrite IH.
Qed.

Lemma split_clean (sep : ascii) (a : str) :
  ~ In sep a -> Py.split sep a = [a].
Proof.
  induction a as [|c a IH]; simpl; intros H; [reflexivity|].
  assert (c <> sep) as Hc by (intros ->; apply H; now left).
  apply chr_eqb_false in Hc. rewrite Hc, IH; [reflexivity | tauto].
Qed.

Lemma split_app_sep (sep : ascii) (a b : str) :
  ~ In sep a -> Py.split sep (a ++ sep :: b) = a :: Py.split sep b.
Proof.
  induction a as [|c a IH]; intros H.
  - apply split_cons_sep.
  - assert (c <> sep) as Hc by (intros ->; apply H; now left).
    simpl. apply chr_eqb_false in Hc. rewrite Hc, IH; [reflexivity|].
    simpl in H. tauto.
Qed.

(** Splitting a join of clean pieces gives the pieces back. *)
Lemma split_join (sep : ascii) (pieces : list str) :
  pieces <> [] ->
  Forall (fun p => ~ In sep p) pieces ->
  Py.split sep (Text.join [sep] pieces) = pieces.
Proof.
  induction pieces as [|p rest IH]; [congruence|]. intros _ Hall.
  inversion Hall as [|? ? Hp Hrest]; subst.
  destruct rest as [|q rest].
  - simpl. now apply split_clean.
  - change (Text.join [sep] (p :: q :: rest))
      with (p ++ sep :: Text.join [sep] (q :: rest)).
    rewrite split_app_sep by assumption. f_equal.
    apply IH; [discriminate | assumption].
Qed.

(** The last piece of a split is the text after the last separator. *)
Lemma last_split_suffix (sep : ascii) (s : str) :
  (~ In sep s /\ last (Py.split sep s) [] = s)
  \/ exists before, s = before ++ sep :: last (Py.split sep s) [].
Proof.
  induction s as [|c s IH]; [left; split; [intros []|reflexivity]|].
  destruct (Ascii.eqb_spec c sep) as [->|Hc].
  - right. rewrite split_cons_sep, last_cons_more by apply split_not_nil.
    destruct IH as [[Hclean Hlast]|[before Hs]].
    + exists []. simpl. now rewrite Hlast.
    + exists (sep :: before). simpl. f_equal. exact Hs.
  - destruct (split_cons_other sep c s Hc) as [p [ps [E ->]]]. rewrite E in IH.
    destruct ps as [|q qs].
    + clear IH. left.
      assert (p = s) as -> by (rewrite <- (join_split sep s), E; reflexivity).
      assert (~ In sep s) as Hclean
          by (apply (split_pieces_clean sep s); rewrite E; now left).
      split; [|reflexivity]. simpl. intros [H|H]; congruence.
    + rewrite last_cons_more by discriminate.
      rewrite last_cons_more in IH by discriminate.
      destruct IH as [[Hclean Hlast]|[before Hs]].
      * exfalso. apply Hclean. rewrite <- (join_split sep s), E.
        rewrite join_cons_more by discriminate.
        apply in_or_app. right. now left.
      * right. exists (c :: before). simpl. f_equal. exact Hs.
Qed.

Lemma contains_chr (s : str) (c : ascii) :
  Py.contains s [c] = true <-> In c s.
Proof.
  induction s as [|x s IH]; simpl.
  - split; [discriminate | intros []].
  - rewrite orb_true_iff, IH. unfold Py.chr_eqb.
    destruct s; simpl; rewrite andb_true_r, Ascii.eqb_eq; intuition congruence.
Qed.

Lemma last_In (l : list str) : l <> [] -> In (last l []) l.
Proof.
  induction l as [|a l IH]; [congruence|]. intros _.
  destruct l as [|b l]; [now left|]. right. apply IH. discriminate.
Qed.

Lemma index_absent (x : str) (l : list str) :
  ~ In x l -> Reducer.index x l = None.
Proof.
  induction l as [|y l IH]; simpl; intros H; [reflexivity|].
  destruct (py_eqb_spec y x) as [->|Hxy]; [tauto|].
  rewrite IH; [reflexivity | tauto].
Qed.

Lemma index_first (x : str) (a b : list str) :
  ~ In x a -> Reducer.index x (a ++ x :: b) = Some (length a).
Proof.
  induction a as [|y a IH]; simpl; intros H.
  - now rewrite py_eqb_refl.
  - destruct (py_eqb_spec y x) as [->|Hxy]; [tauto|].
    rewrite IH; [reflexivity | tauto].
Qed.

(* ------------------------------------------------------------------ *)
(** ** Record reduction, continued *)

Lemma fold_add_file_keeps (l : list FileEvent) (d : list (str * FileInfo)) (k : str) :
  In k (map fst d) -> In k (map fst (fold_left Reducer.add_file l d)).
Proof.
  revert d. induction l as [|e l IH]; intros d H; simpl; [assumption|].
  apply IH. destruct (add_file_cases d e) as [[_ ->]|[_ ->]]; [assumption|].
  rewrite map_app. apply in_or_app. now left.
Qed.

Lemma fold_add_file_covers (l : list FileEvent) (d : list (str * FileInfo)) (e : FileEvent) :
  In e l -> In (name_of e) (map fst (fold_left Reducer.add_file l d)).
Proof.
  revert d. induction l as [|x l IH]; intros d; simpl; [intros []|].
  intros [->|H]; [|now apply IH].
  apply fold_add_file_keeps.
  destruct (add_file_cases d e) as [[Hin ->]|[_ ->]]; [assumption|].
  rewrite map_app. apply in_or_app. right. now left.
Qed.

Lemma fold_add_file_length (l : list FileEvent) (d : list (str * FileInfo)) :
  length (fold_left Reducer.add_file l d) <= length d + length l.
Proof.
  revert d. induction l as [|e l IH]; intros d; simpl; [lia|].
  etransitivity; [apply IH|].
  destruct (add_file_cases d e) as [[_ ->]|[_ ->]]; [lia|].
  rewrite length_app. simpl. lia.
Qed.

(** X1. No file is lost and none is invented: the names under which records
    are kept are exactly the names of the events of the run, and there
    are at most as many records as events. *)
Theorem extract_unique_files_names (run : SyncRun) :
  (forall k, In k (map fst (Reducer.extract_unique_files run))
             <-> In k (map name_of (Reducer.events_of run)))
  /\ length (Reducer.extract_unique_files run) <= length (Reducer.events_of run).
Proof.
  rewrite extract_unique_files_events. split.
  - intros k. split.
    + apply fold_add_file_keys.
    + rewrite in_map_iff. intros [e [<- He]]. now apply fold_add_file_covers.
  - apply (fold_add_file_length (Reducer.events_of run) []).
Qed.

Lemma file_name_clean (path : str) :
  ~ In Reducer.backslash (Reducer.file_name_of path).
Proof.
  apply (split_pieces_clean Reducer.backslash path).
  apply last_In, split_not_nil.
Qed.

(** X2. The name of a path is what follows its last backslash: the whole
    path when it has none, and never a text with a backslash in it. *)
Theorem file_name_of_last_component (path : str) :
  ~ In Reducer.backslash (Reducer.file_name_of path)
  /\ ((~ In Reducer.backslash path /\ Reducer.file_name_of path = path)
      \/ exists dir, path = dir ++ Reducer.backslash :: Reducer.file_name_of path).
Proof.
  split; [apply file_name_clean|]. apply last_split_suffix.
Qed.

(** X3. Only the text after the last dot of a name is its extension: a name
    without a dot has the empty extension and the type "Unknown"; a name
    with dots has the extension made of its last dot and the dot-free
    text after it. *)
Theorem extension_of_last_dot (file_name : str) :
  (~ In "."%char file_name ->
     Reducer.extension_of file_name = []
     /\ Classifier.get_file_type (Reducer.extension_of file_name) = $"Unknown")
  /\ (In "."%char file_name ->
      exists stem suffix,
        file_name = stem ++ "."%char :: suffix
        /\ ~ In "."%char suffix
        /\ Reducer.extension_of file_name = "."%char :: suffix).
Proof.
  unfold Reducer.extension_of. split; intros H.
  - destruct (Py.contains file_name $".") eqn:E.
    + apply (contains_chr file_name "."%char) in E. contradiction.
    + split; reflexivity.
  - apply (contains_chr file_name "."%char) in H as E.
    change [("."%char)] with ($".") in E. rewrite E.
    destruct (last_split_suffix "."%char file_name) as [[Hclean _]|[stem Hs]];
      [contradiction|].
    exists stem, (last (Py.split "."%char file_name) []).
    split; [exact Hs|]. split; [|reflexivity].
    apply (split_pieces_clean "."%char file_name).
    apply last_In, split_not_nil.
Qed.

Lemma extension_of_last_dot_witness :
  Reducer.extension_of $"README" = []
  /\ exists stem suffix,
       $"shot.v2.EXR" = stem ++ "."%char :: suffix
       /\ ~ In "."%char suffix
       /\ Reducer.extension_of $"shot.v2.EXR" = "."%char :: suffix.
Proof.
  destruct (extension_of_last_dot $"README") as [Hnone _].
  destruct (extension_of_last_dot $"shot.v2.EXR") as [_ Hdot].
  split.
  - apply Hnone. simpl. intuition discriminate.
  - apply Hdot. simpl. tauto.
Defined.

(** X4. The section of a path is the segment right after its first
    "VideoFile" segment; it is empty when no segment is exactly
    "VideoFile" or when that segment is the last one. *)
Theorem section_of_segment_after_marker (before after : list str) (section : str) :
  ~ In $"VideoFile" before ->
  Forall (fun p => ~ In Reducer.backslash p) (before ++ section :: after) ->
  Reducer.section_of
    (Text.join [Reducer.backslash] (before ++ $"VideoFile" :: section :: after))
  = section
  /\ Reducer.section_of (Text.join [Reducer.backslash] (before ++ [$"VideoFile"])) = []
  /\ (section <> $"VideoFile" -> ~ In $"VideoFile" after ->
      Reducer.section_of (Text.join [Reducer.backslash] (before ++ section :: after)) = []).
Proof.
  intros Hfirst Hclean.
  apply Forall_app in Hclean. destruct Hclean as [Hb Hsa].
  assert (~ In Reducer.backslash $"VideoFile") as Hv by (simpl; intuition discriminate).
  unfold Reducer.section_of. split; [|split].
  - rewrite split_join.
    + rewrite index_first by assumption.
      replace (length before + 1 <? length (before ++ $"VideoFile" :: section :: after))
        with true
        by (symmetry; apply Nat.ltb_lt; rewrite length_app; simpl; lia).
      rewrite app_nth2 by lia.
      replace (length before + 1 - length before) with 1 by lia. reflexivity.
    + destruct before; discriminate.
    + apply Forall_app. split; [assumption|]. now constructor.
  - rewrite split_join.
    + rewrite index_first by assumption.
      replace (length before + 1 <? length (before ++ [$"VideoFile"])) with false;
        [reflexivity|].
      symmetry. apply Nat.ltb_ge. rewrite length_app. simpl. lia.
    + destruct before; discriminate.
    + apply Forall_app. split; [assumption|]. now repeat constructor.
  - intros Hsec Hafter. rewrite split_join.
    + rewrite index_absent; [reflexivity|].
      rewrite in_app_iff. simpl. intuition congruence.
    + destruct before; discriminate.
    + apply Forall_app. now split.
Qed.

Lemma section_of_segment_after_marker_witness :
  Reducer.section_of $"C:\Dest\VideoFile\Project\Shots\test.mov" = $"Project"
  /\ Reducer.section_of $"C:\Dest\VideoFile" = []
  /\ Reducer.section_of $"C:\Dest\VideoFiles\Project\test.mov" = [].
Proof.
  destruct (section_of_segment_after_marker [$"C:"; $"Dest"] [$"Shots"; $"test.mov"]
              $"Project") as [Hsec [Hlast _]].
  { simpl. intuition discriminate. }
  { repeat constructor; simpl; intuition discriminate. }
  destruct (section_of_segment_after_marker [$"C:"; $"Dest"] [$"Project"; $"test.mov"]
              $"VideoFiles") as [_ [_ Hnone]].
  { simpl. intuition discriminate. }
  { repeat constructor; simpl; intuition discriminate. }
  split; [exact Hsec|]. split; [exact Hlast|].
  apply Hnone; [discriminate | simpl; intuition discriminate].
Defined.

Lemma section_clean (path : str) : ~ In Reducer.backslash (Reducer.section_of path).
Proof.
  unfold Reducer.section_of.
  destruct (Reducer.index _ _) as [k|]; [|intros []].
  destruct (k + 1 <? length (Py.split Reducer.backslash path)) eqn:E; [|intros []].
  apply Nat.ltb_lt in E.
  apply (split_pieces_clean Reducer.backslash path). now apply nth_In.
Qed.

(** X5. Every record is consistent with the key it is kept under: it
    carries that key as its file name, the key and the section hold no
    backslash, the type is one of the five categories, and the key is
    the name of an event of the run. *)
Theorem extract_unique_files_records (run : SyncRun) (k : str) (info : FileInfo) :
  In (k, info) (Reducer.extract_unique_files run) ->
  info_file_name info = k
  /\ ~ In Reducer.backslash k
  /\ ~ In Reducer.backslash (info_section info)
  /\ In (info_file_type info) Classifier.categories
  /\ In k (map name_of (Reducer.events_of run)).
Proof.
  intros Hin.
  assert (In k (map name_of (Reducer.events_of run))) as Hname.
  { rewrite extract_unique_files_events in Hin.
    apply (fold_add_file_keys (Reducer.events_of run)).
    apply in_map_iff. now exists (k, info). }
  rewrite extract_unique_files_events in Hin.
  pose proof (fold_add_file_entries (Reducer.events_of run) [] (Forall_nil _)) as Hall.
  rewrite Forall_forall in Hall. destruct (Hall _ Hin) as [e [= -> ->]].
  split; [reflexivity|]. split; [apply file_name_clean|].
  split; [apply section_clean|]. split; [|assumption].
  exact (lookup_type_range Classifier.file_types _).
Qed.

Lemma extract_unique_files_records_witness :
  info_file_name (record_of demo_first) = name_of demo_first
  /\ ~ In Reducer.backslash (name_of demo_first)
  /\ ~ In Reducer.backslash (info_section (record_of demo_first))
  /\ In (info_file_type (record_of demo_first)) Classifier.categories
  /\ In (name_of demo_first) (map name_of (Reducer.events_of demo_run)).
Proof.
  apply (extract_unique_files_records demo_run). vm_compute. now left.
Defined.

(* ------------------------------------------------------------------ *)
(** ** The local sink, continued *)

Lemma new_block_five (data : SyncRun) (add_breaks : bool) :
  Forall (fun r => length r = 5) (new_block data add_breaks).
Proof.
  unfold new_block, Csv.record_rows. apply Forall_app. split.
  - apply Forall_forall. intros r Hr. apply in_map_iff in Hr.
    destruct Hr as [kv [<- _]]. reflexivity.
  - destruct add_breaks; repeat constructor.
Qed.

Lemma new_block_length (data : SyncRun) (add_breaks : bool) :
  length (new_block data add_breaks)
  = length (Reducer.extract_unique_files data) + breaks add_breaks.
Proof.
  unfold new_block, Csv.record_rows. rewrite length_app, length_map.
  now destruct add_breaks.
Qed.

Lemma tidy_header_first (rows : list Csv.row) :
  ~ In Csv.fieldnames rows -> Forall (fun r => length r = 5) rows ->
  tidy (Csv.File (Csv.fieldnames :: rows)).
Proof. intros H1 H2. right. right. now exists rows. Qed.

(** X6. The call keeps a file tidy, whatever the policy.  A tidy file is
    absent, empty, or the header followed by rows of five fields, every
    line closed by its terminator (a file whose last line is left open
    is not: X24).  On a tidy file the call returns, the file then starts
    with the header and is tidy again (so the next call, with any
    policy, finds it tidy), and the number of data rows has grown by the
    number of records plus the separator. *)
Theorem append_to_csv_keeps_tidy
    (data : SyncRun) (prepend add_breaks : bool) (s : Csv.sink) :
  tidy s ->
  exists rows,
    Csv.append_to_csv data s prepend add_breaks
    = (Csv.File (Csv.fieldnames :: rows), Ok tt)
    /\ tidy (Csv.File (Csv.fieldnames :: rows))
    /\ Csv.header_count (Csv.File (Csv.fieldnames :: rows)) = 1
    /\ length rows
       = length (data_rows s) + length (Reducer.extract_unique_files data)
         + breaks add_breaks.
Proof.
  pose proof (new_block_no_header data add_breaks) as Hnh.
  pose proof (new_block_five data add_breaks) as H5.
  pose proof (new_block_length data add_breaks) as Hlen.
  intros [Hs|[Hs|[old [-> [Hold Hold5]]]]].
  - exists (new_block data add_breaks).
    rewrite append_to_csv_fresh by auto. subst s.
    repeat split; [now apply tidy_header_first | now apply header_count_one |].
    rewrite Hlen. reflexivity.
  - exists (new_block data add_breaks).
    rewrite append_to_csv_fresh by auto. subst s.
    repeat split; [now apply tidy_header_first | now apply header_count_one |].
    rewrite Hlen. reflexivity.
  - assert (~ In Csv.fieldnames (new_block data add_breaks ++ old)) as H1
        by (rewrite in_app_iff; tauto).
    assert (~ In Csv.fieldnames (old ++ new_block data add_breaks)) as H2
        by (rewrite in_app_iff; tauto).
    destruct prepend.
    + exists (new_block data add_breaks ++ old).
      rewrite append_to_csv_prepend by assumption.
      repeat split.
      * apply tidy_header_first; [assumption|]. apply Forall_app. now split.
      * now apply header_count_one.
      * rewrite length_app, Hlen. unfold data_rows. simpl tl. lia.
    + exists (old ++ new_block data add_breaks).
      rewrite append_to_csv_append.
      repeat split.
      * apply tidy_header_first; [assumption|]. apply Forall_app. now split.
      * now apply header_count_one.
      * rewrite length_app, Hlen. unfold data_rows. simpl tl. lia.
Qed.

Lemma append_to_csv_keeps_tidy_witness :
  exists rows,
    Csv.append_to_csv demo_run (Csv.File [Csv.fieldnames; demo_row]) true true
    = (Csv.File (Csv.fieldnames :: rows), Ok tt)
    /\ tidy (Csv.File (Csv.fieldnames :: rows))
    /\ Csv.header_count (Csv.File (Csv.fieldnames :: rows)) = 1
    /\ length rows = 1 + 1 + 1.
Proof.
  apply (append_to_csv_keeps_tidy demo_run true true (Csv.File [Csv.fieldnames; demo_row])).
  right. right. exists [demo_row]. split; [reflexivity|]. split.
  - simpl. intuition discriminate.
  - repeat constructor.
Defined.

(** X7. Two runs into a new file, one after the other with the same mode:
    in append mode the block of the first run comes first, in prepend
    mode the block of the second. *)
Theorem append_to_csv_twice
    (first second : SyncRun) (prepend b1 b2 : bool) (s : Csv.sink) :
  s = Csv.Absent \/ s = Csv.File [] ->
  Csv.append_to_csv second
    (fst (Csv.append_to_csv first s prepend b1)) prepend b2
  = (Csv.File (Csv.fieldnames ::
                 if prepend
                 then new_block second b2 ++ new_block first b1
                 else new_block first b1 ++ new_block second b2),
     Ok tt).
Proof.
  intros Hs. rewrite (append_to_csv_fresh first s prepend b1 Hs). simpl fst.
  destruct prepend.
  - apply append_to_csv_prepend, new_block_five.
  - apply append_to_csv_append.
Qed.

Lemma append_to_csv_twice_witness :
  Csv.append_to_csv demo_run
    (fst (Csv.append_to_csv demo_run Csv.Absent true false)) true true
  = (Csv.File [Csv.fieldnames; demo_new_row; Csv.separator; demo_new_row], Ok tt).
Proof.
  rewrite (append_to_csv_twice demo_run demo_run true false true Csv.Absent)
    by (now left).
  reflexivity.
Defined.

Lemma write_rows_stops (names : Csv.row) (ds1 ds2 : list Csv.rowdict)
    (d : Csv.rowdict) (rs file : list Csv.row) (e : exn) :
  Forall2 (fun d r => Csv.dict_to_list names d = Ok r) ds1 rs ->
  Csv.dict_to_list names d = Raise e ->
  Csv.write_rows names (ds1 ++ d :: ds2) file = (file ++ rs, Raise e).
Proof.
  intros H Hd. revert file. induction H as [|d1 r ds1 rs Hd1 _ IH]; intros file; simpl.
  - now rewrite Hd, app_nil_r.
  - rewrite Hd1, IH, <- app_assoc. reflexivity.
Qed.

Lemma read_long_row_raises (r : Csv.row) :
  5 < length r ->
  Csv.dict_to_list Csv.fieldnames (Csv.read_dict Csv.fieldnames r) = Raise ValueError.
Proof.
  destruct r as [|a [|b [|c [|d [|e [|f r]]]]]]; simpl; try lia.
  intros _. reflexivity.
Qed.

Lemma read_short_row_pads (r : Csv.row) :
  r <> [] -> length r <= 5 ->
  Csv.dict_to_list Csv.fieldnames (Csv.read_dict Csv.fieldnames r) = Ok (pad_row r).
Proof.
  destruct r as [|a [|b [|c [|d [|e [|f r]]]]]]; simpl; try lia; try congruence;
    intros _ _; reflexivity.
Qed.

(** X8. Prepend mode over a file with a record of more than five fields:
    the rewrite stops with [ValueError] at that record, and the file is
    left with the header, the new block and only the old rows that came
    before it; the record and every row after it are gone. *)
Theorem append_to_csv_prepend_long_row
    (data : SyncRun) (add_breaks : bool) (good later : list Csv.row) (long : Csv.row) :
  Forall (fun r => length r = 5) good ->
  5 < length long ->
  Csv.append_to_csv data (Csv.File (Csv.fieldnames :: good ++ long :: later))
    true add_breaks
  = (Csv.File (Csv.fieldnames :: new_block data add_breaks ++ good),
     Raise ValueError).
Proof.
  intros Hgood Hlong. unfold Csv.append_to_csv.
  cbv [Csv.isfile Csv.size_is_zero Csv.records_of Csv.fieldnames andb negb].
  fold Csv.fieldnames. rewrite write_new_rows.
  unfold Csv.DictReader. rewrite filter_app, map_app. simpl filter.
  destruct long as [|x long]; [simpl in Hlong; lia|]. simpl negb. cbv iota.
  simpl map at 2.
  rewrite (write_rows_stops Csv.fieldnames _ _ _ good _ ValueError).
  - now rewrite <- app_assoc.
  - clear Hlong. induction Hgood as [|r good Hr _ IH]; simpl; [constructor|].
    destruct r as [|a r]; [discriminate|]. simpl.
    constructor; [now apply read_write_five | exact IH].
  - now apply read_long_row_raises.
Qed.

Lemma append_to_csv_prepend_long_row_witness :
  Csv.append_to_csv demo_run
    (Csv.File (Csv.fieldnames :: [demo_row] ++ (demo_row ++ [$"extra"]) :: [demo_row]))
    true false
  = (Csv.File (Csv.fieldnames :: new_block demo_run false ++ [demo_row]),
     Raise ValueError).
Proof.
  apply append_to_csv_prepend_long_row.
  - repeat constructor.
  - simpl. lia.
Defined.

(** X9. Prepend mode over records of at most five fields: the rewrite drops
    the blank records and fills every other record up to five fields
    with empty ones, keeping their order below the new block. *)
Theorem append_to_csv_prepend_normalises
    (data : SyncRun) (add_breaks : bool) (old : list Csv.row) :
  Forall (fun r => length r <= 5) old ->
  Csv.append_to_csv data (Csv.File (Csv.fieldnames :: old)) true add_breaks
  = (Csv.File (Csv.fieldnames :: new_block data add_breaks
                 ++ map pad_row (filter (fun r => negb (Csv.is_blank r)) old)),
     Ok tt).
Proof.
  intros Hold. unfold Csv.append_to_csv.
  cbv [Csv.isfile Csv.size_is_zero Csv.records_of Csv.fieldnames andb negb].
  fold Csv.fieldnames. rewrite write_new_rows.
  rewrite (write_rows_all Csv.fieldnames _
             (map pad_row (filter (fun r => negb (Csv.is_blank r)) old))).
  - now rewrite <- app_assoc.
  - unfold Csv.DictReader.
    induction Hold as [|r old Hr _ IH]; simpl; [constructor|].
    destruct r as [|a r]; simpl; [exact IH|].
    constructor; [|exact IH].
    apply read_short_row_pads; [discriminate | exact Hr].
Qed.

Lemma append_to_csv_prepend_normalises_witness :
  Csv.append_to_csv demo_run
    (Csv.File [Csv.fieldnames; [$"9/1/2025"; $"note"]; []; demo_row]) true false
  = (Csv.File [Csv.fieldnames; demo_new_row;
               [$"9/1/2025"; $"note"; []; []; []]; demo_row],
     Ok tt).
Proof.
  rewrite append_to_csv_prepend_normalises.
  - reflexivity.
  - repeat constructor; simpl; lia.
Defined.

(* ------------------------------------------------------------------ *)
(** ** The parser, continued *)

Lemma next_index_bounds (lines : list str) (i : nat) :
  i < length lines ->
  (next_index lines i = i + 1 \/ next_index lines i = i + 3)
  /\ next_index lines i <= length lines.
Proof.
  intros Hi. unfold next_index.
  destruct (Py.strip (nth i lines [])); [split; [now left | lia]|].
  destruct (Re.re_match Parser.header_re _); [split; [now left | lia]|].
  destruct (Re.re_search Parser.comparison_re _); [split; [now left | lia]|].
  destruct (Py.contains _ _); simpl; [|split; [now left | lia]].
  destruct (i + 2 <? length lines) eqn:E; [|split; [now left | lia]].
  apply Nat.ltb_lt in E. split; [now right | lia].
Qed.

(** X10. The scan never gets stuck and never runs over the end: an iteration
    that completes moves the index forward by one line or by three and
    not past the last line, and from any index the loop ends within the
    number of lines that are left. *)
Theorem scan_moves_forward (lines : list str) (i : nat) (data : SyncRun) :
  i < length lines ->
  (forall i' data',
     Parser.step lines i data = Ok (i', data') ->
     (i' = i + 1 \/ i' = i + 3) /\ i' <= length lines)
  /\ exists r, Parser.scan (length lines - i) lines i data = Some r.
Proof.
  intros Hi. split.
  - intros i' data' Hstep. apply step_next in Hstep. destruct Hstep as [-> _].
    now apply next_index_bounds.
  - apply scan_ends. lia.
Qed.

Lemma scan_moves_forward_witness :
  (forall i' data',
     Parser.step folder_pair_lines 0 Parser.empty_run = Ok (i', data') ->
     (i' = 0 + 1 \/ i' = 0 + 3) /\ i' <= length folder_pair_lines)
  /\ exists r,
       Parser.scan (length folder_pair_lines - 0) folder_pair_lines 0 Parser.empty_run
       = Some r.
Proof.
  apply (scan_moves_forward folder_pair_lines 0 Parser.empty_run). simpl. lia.
Defined.

Lemma step_without_marker (lines : list str) (i i' : nat) (data data' : SyncRun)
    (raw : str) :
  nth_error lines i = Some raw ->
  Py.contains (Py.strip raw) Parser.folder_pair_marker = false ->
  Parser.step lines i data = Ok (i', data') ->
  sync_operations data = [] -> sync_operations data' = [].
Proof.
  intros Hraw Hm Hstep Hops.
  destruct (Py.strip raw) as [|c l] eqn:Hline.
  - rewrite (step_blank _ _ data _ Hraw Hline) in Hstep. now injection Hstep as <- <-.
  - assert (Py.strip raw <> []) as Hne by (rewrite Hline; discriminate).
    rewrite <- Hline in *. clear Hline c l.
    destruct (Re.re_match Parser.header_re (Py.strip raw)) as [m|] eqn:Hh.
    + destruct (header_re_groups _ _ Hh) as [n [d [t ->]]].
      rewrite (step_header _ _ data _ Hraw _ _ _ Hne Hh) in Hstep.
      now injection Hstep as <- <-.
    + destruct (Parser.summary (Py.strip raw) data) as [data1|e] eqn:Hs;
        [|rewrite (step_summary_raises _ _ _ _ Hraw _ Hne Hh Hs) in Hstep; discriminate].
      destruct (summary_preserves _ _ _ Hs) as [_ Hops1]. rewrite Hops in Hops1.
      destruct (Re.re_search Parser.comparison_re (Py.strip raw)) as [m|] eqn:Hc.
      * destruct (comparison_re_groups _ _ Hc) as [count [elapsed [-> _]]].
        rewrite (step_comparison _ _ _ _ Hraw _ _ _ Hne Hh Hs Hc) in Hstep.
        destruct (Py.int _) as [n|]; [|discriminate].
        now injection Hstep as <- <-.
      * rewrite (step_rest _ _ _ _ Hraw _ Hne Hh Hs Hc (or_introl Hm)) in Hstep.
        unfold Parser.creating in Hstep. rewrite Hops1 in Hstep.
        destruct (Re.re_search Parser.creating_re (Py.strip raw));
          simpl in Hstep; now injection Hstep as <- <-.
Qed.

Lemma scan_without_marker (lines : list str) (fuel : nat) :
  Forall (fun raw => Py.contains (Py.strip raw) Parser.folder_pair_marker = false) lines ->
  forall i data run,
    Parser.scan fuel lines i data = Some (Ok run) ->
    sync_operations data = [] -> sync_operations run = [].
Proof.
  intros Hall. induction fuel as [|fuel IH]; intros i data run; simpl.
  - destruct (i <? length lines); [discriminate|]. now intros [= ->].
  - destruct (i <? length lines) eqn:E; [|now intros [= ->]].
    apply Nat.ltb_lt in E.
    destruct (nth_error lines i) as [raw|] eqn:Hraw;
      [|apply nth_error_None in Hraw; lia].
    destruct (Parser.step lines i data) as [[i' data']|e] eqn:Hstep; [|discriminate].
    intros Hscan Hops. apply (IH _ _ _ Hscan).
    apply (step_without_marker lines i i' data data' raw Hraw); try assumption.
    rewrite Forall_forall in Hall. apply Hall. eapply nth_error_In; eauto.
Qed.

(** X11. Without a folder-pair line nothing is recorded: when no line of a
    LOG text holds the marker, the run has no operation, so every
    "Creating file" line of the text is dropped. *)
Theorem parse_sync_log_needs_folder_pair (path content : str) (run : SyncRun) :
  Py.endswith (Py.lower path) $".html" = false ->
  Forall (fun raw => Py.contains (Py.strip raw) Parser.folder_pair_marker = false)
    (Py.splitlines content) ->
  Parser.parse_sync_log path content = Some (Ok run) ->
  sync_operations run = [] /\ Reducer.extract_unique_files run = [].
Proof.
  intros Hfmt Hall. unfold Parser.parse_sync_log, Parser.parse_log. rewrite Hfmt.
  intros Hscan.
  assert (sync_operations run = []) as Hops
      by (apply (scan_without_marker _ _ Hall _ _ _ Hscan); reflexivity).
  split; [exact Hops|]. unfold Reducer.extract_unique_files. now rewrite Hops.
Qed.

Lemma parse_sync_log_needs_folder_pair_witness :
  exists run,
    Parser.parse_sync_log $"run.log" orphan_file_log = Some (Ok run)
    /\ Re.re_search Parser.creating_re
         (nth 1 (Py.splitlines orphan_file_log) []) <> None
    /\ sync_operations run = []
    /\ Reducer.extract_unique_files run = [].
Proof.
  destruct (Parser.parse_sync_log $"run.log" orphan_file_log) as [[run|e]|] eqn:Hrun;
    try (vm_compute in Hrun; discriminate).
  exists run. split; [reflexivity|]. split; [vm_compute; discriminate|].
  apply (parse_sync_log_needs_folder_pair $"run.log" orphan_file_log run eq_refl);
    [|exact Hrun].
  assert (Py.splitlines orphan_file_log
          = [$"Job 9/13/2025 [2:30:15 PM]";
             $"[2:30:20 PM]  Info:  Creating file " ++ Parser.dq
               ++ $"C:\Dest\VideoFile\Project\test.mov" ++ Parser.dq])
    as -> by (vm_compute; reflexivity).
  repeat constructor.
Defined.

Lemma date_shaped_intro (a b c : str) :
  a <> [] -> b <> [] -> c <> [] ->
  forallb Py.is_digit a = true -> forallb Py.is_digit b = true ->
  forallb Py.is_digit c = true ->
  date_shaped (a ++ $"/" ++ b ++ $"/" ++ c ++ []).
Proof.
  intros Ha Hb Hc Da Db Dc. exists a, b, c. rewrite app_nil_r.
  repeat split; try assumption. now rewrite !forallb_app, Da, Db, Dc.
Qed.

Lemma mdy_shape (d : str) (caps : list str) :
  matches Parser.mdy d caps -> date_shaped d.
Proof.
  intros Hm. cbv [Parser.mdy Re.cat Parser.digits] in Hm. invert_matches.
  now apply date_shaped_intro.
Qed.

Lemma header_match_shape (line : str) (m : list str) :
  Re.re_match Parser.header_re line = Some m ->
  exists n d t, m = [n; d; t] /\ date_shaped d.
Proof.
  intros H. apply re_match_sound in H. destruct H as [pre [rest [_ Hm]]].
  cbv [Parser.header_re Re.cat Parser.mdy Parser.clock Parser.hms
       Parser.digits Parser.word] in Hm.
  invert_matches. simpl. eexists _, _, _. split; [reflexivity|].
  now apply date_shaped_intro.
Qed.

Lemma header_match_date (line : str) (n d t : str) :
  Re.re_match Parser.header_re line = Some [n; d; t] -> date_shaped d.
Proof.
  intros H. destruct (header_match_shape _ _ H) as [n' [d' [t' [[= -> -> ->] Hd]]]].
  exact Hd.
Qed.

Lemma headers_from_matches (lines : list str) (fuel i : nat) (m : list str) :
  In m (headers_from fuel lines i) ->
  exists line, Re.re_match Parser.header_re line = Some m.
Proof.
  unfold headers_from. rewrite in_flat_map. intros [j [_ Hj]].
  unfold header_at in Hj.
  destruct (Re.re_match Parser.header_re (Py.strip (nth j lines []))) as [m'|] eqn:E;
    [|contradiction].
  destruct Hj as [->|[]]. eauto.
Qed.

Lemma store_header_date (hs : list (list str)) (h : option str * option str * option str) :
  (forall m, In m hs -> exists line, Re.re_match Parser.header_re line = Some m) ->
  (forall d, snd (fst h) = Some d -> date_shaped d) ->
  forall d, snd (fst (fold_left store_header hs h)) = Some d -> date_shaped d.
Proof.
  revert h. induction hs as [|m hs IH]; intros h Hall Hh; simpl; [exact Hh|].
  apply IH; [intros m' Hm'; apply Hall; now right|].
  destruct (Hall m (or_introl eq_refl)) as [line Hline].
  destruct (header_re_groups _ _ Hline) as [n [d0 [t ->]]].
  simpl. intros d [= <-]. now apply (header_match_date line n d0 t).
Qed.

(** X12. The date of a run, in either format, is unset or has the shape
    digits/digits/digits: nothing else reaches the Date column of the
    sinks. *)
Theorem parse_sync_log_date_shape (path content : str) (run : SyncRun) (d : str) :
  Parser.parse_sync_log path content = Some (Ok run) ->
  date run = Some d ->
  date_shaped d.
Proof.
  unfold Parser.parse_sync_log.
  destruct (Py.endswith (Py.lower path) $".html").
  - intros [= <-]. unfold Parser.parse_html. simpl.
    destruct (Re.re_search Parser.date_re content) as [caps|] eqn:E; [|discriminate].
    apply re_search_sound in E. destruct E as [sk [pre [rest [_ Hm]]]].
    unfold Parser.date_re in Hm. inversion Hm; subst. simpl.
    intros [= <-]. eapply mdy_shape; eauto.
  - unfold Parser.parse_log. intros Hscan Hd.
    apply scan_header_fields in Hscan.
    apply (store_header_date
             (headers_from (length (Py.splitlines content)) (Py.splitlines content) 0)
             (header_fields Parser.empty_run)).
    + intros m. apply headers_from_matches.
    + discriminate.
    + rewrite <- Hscan. exact Hd.
Qed.

Lemma parse_sync_log_date_shape_witness :
  Parser.parse_sync_log $"run.log" demo_log_text = Some (Ok demo_parsed)
  /\ date demo_parsed = Some $"9/13/2025"
  /\ date_shaped $"9/13/2025".
Proof.
  assert (Parser.parse_sync_log $"run.log" demo_log_text = Some (Ok demo_parsed))
    as Hrun by (vm_compute; reflexivity).
  split; [exact Hrun|]. split; [reflexivity|].
  apply (parse_sync_log_date_shape $"run.log" demo_log_text demo_parsed $"9/13/2025").
  - exact Hrun.
  - reflexivity.
Defined.

(* ------------------------------------------------------------------ *)
(** ** The clipboard cache *)

Lemma In_join (sep : str) (pieces : list str) (c : ascii) :
  In c (Text.join sep pieces) ->
  In c sep \/ exists p, In p pieces /\ In c p.
Proof.
  induction pieces as [|p rest IH]; [intros []|].
  destruct rest as [|q rest].
  - simpl. intros H. right. exists p. split; [now left | assumption].
  - change (Text.join sep (p :: q :: rest)) with (p ++ sep ++ Text.join sep (q :: rest)).
    rewrite !in_app_iff. intros [H|[H|H]].
    + right. exists p. split; [now left | assumption].
    + now left.
    + destruct (IH H) as [Hs|[p' [Hp' Hc]]]; [now left|].
      right. exists p'. split; [now right | assumption].
Qed.

Lemma In_join_piece (sep : str) (pieces : list str) (p : str) (c : ascii) :
  In p pieces -> In c p -> In c (Text.join sep pieces).
Proof.
  induction pieces as [|q rest IH]; [intros []|].
  destruct rest as [|r rest].
  - intros [->|[]] H. exact H.
  - change (Text.join sep (q :: r :: rest)) with (q ++ sep ++ Text.join sep (r :: rest)).
    intros [->|Hp] Hc; rewrite !in_app_iff; [now left|].
    right. right. now apply IH.
Qed.

(** A character of a piece of a split is a character of the text. *)
Lemma In_split_piece (sep : ascii) (s p : str) (c : ascii) :
  In p (Py.split sep s) -> In c p -> In c s.
Proof.
  intros Hp Hc. rewrite <- (join_split sep s).
  now apply (In_join_piece [sep] _ p).
Qed.

Lemma clean_name (e : FileEvent) :
  clean_text (file_path e) -> clean_text (name_of e).
Proof.
  intros [Ht Hl].
  assert (In (name_of e) (Py.split Reducer.backslash (file_path e))) as Hin
      by (apply last_In, split_not_nil).
  split; intros H; [apply Ht | apply Hl];
    now apply (In_split_piece Reducer.backslash _ (name_of e)).
Qed.

Lemma clean_section (path : str) :
  clean_text path -> clean_text (Reducer.section_of path).
Proof.
  intros [Ht Hl]. unfold Reducer.section_of.
  destruct (Reducer.index _ _) as [k|]; [|split; intros []].
  destruct (k + 1 <? length (Py.split Reducer.backslash path)) eqn:E;
    [|split; intros []].
  apply Nat.ltb_lt in E.
  assert (In (nth (k + 1) (Py.split Reducer.backslash path) [])
             (Py.split Reducer.backslash path)) as Hin by now apply nth_In.
  split; intros H; [apply Ht | apply Hl];
    now apply (In_split_piece Reducer.backslash _ _ _ Hin).
Qed.

Lemma clean_category (ext : str) : clean_text (Classifier.get_file_type ext).
Proof.
  pose proof (lookup_type_range Classifier.file_types (Py.lower ext)) as Hin.
  fold (Classifier.get_file_type ext) in Hin.
  simpl in Hin.
  repeat (destruct Hin as [<-|Hin]; [split; simpl; intuition discriminate|]).
  contradiction.
Qed.

Lemma clean_row (date : str) (e : FileEvent) :
  clean_text date -> clean_text (timestamp e) -> clean_text (file_path e) ->
  Forall clean_text (Gui.row_of date (record_of e)).
Proof.
  intros Hd Ht Hp. unfold Gui.row_of, record_of. simpl.
  repeat apply Forall_cons; try apply Forall_nil; try assumption.
  - apply clean_category.
  - now apply clean_section.
  - now apply clean_name.
Qed.

Lemma tab_is_not_lf : Text.tab <> Text.lf.
Proof. discriminate. Qed.

(** The text for the clipboard, read back: split at the line feeds and
    then at the tabs, it gives the rows it was made from, when no field
    holds a tab or a line feed. *)
Lemma tsv_text_round_trip (data : list (str * FileInfo)) (date : str) :
  data <> [] ->
  Forall (fun kv => Forall clean_text (Gui.row_of date (snd kv))) data ->
  map (Py.split Text.tab) (Py.split Text.lf (Gui.tsv_text data date))
  = map (fun kv => Gui.row_of date (snd kv)) data.
Proof.
  intros Hne Hclean. unfold Gui.tsv_text. rewrite split_join.
  - unfold Gui.output_of. rewrite map_map. apply map_ext_in.
    intros kv Hkv. rewrite Forall_forall in Hclean.
    apply split_join; [discriminate|].
    apply Forall_forall. intros f Hf.
    specialize (Hclean kv Hkv). rewrite Forall_forall in Hclean.
    now destruct (Hclean f Hf).
  - unfold Gui.output_of. destruct data; [congruence | discriminate].
  - unfold Gui.output_of. apply Forall_forall. intros line Hline.
    apply in_map_iff in Hline. destruct Hline as [kv [<- Hkv]].
    rewrite Forall_forall in Hclean. specialize (Hclean kv Hkv).
    rewrite Forall_forall in Hclean.
    intros Hin. apply In_join in Hin. destruct Hin as [[H|[]]|[f [Hf Hc]]].
    + now apply tab_is_not_lf.
    + destruct (Hclean f Hf) as [_ Hl]. now apply Hl.
Qed.

Lemma copy_last_log_some (data : list (str * FileInfo)) (date : str)
    (enabled : bool) (clip : option str) (lines : list Gui.status) :
  data <> [] -> date <> [] ->
  Gui.copy_last_log (Gui.mkWindow (Some data) (Some date) enabled clip lines)
  = Gui.mkWindow (Some data) (Some date) enabled (Some (Gui.tsv_text data date))
      (lines ++ [Gui.CopiedEntries (length data)]).
Proof.
  intros Hdata Hdate. destruct data as [|kv data]; [congruence|].
  destruct date as [|c date]; [congruence|].
  unfold Gui.copy_last_log, Gui.output_of. simpl. now rewrite length_map.
Qed.

Lemma clean_records (date : str) (l : list FileEvent) (acc : list (str * FileInfo)) :
  clean_text date ->
  Forall (fun e => clean_text (timestamp e) /\ clean_text (file_path e)) l ->
  Forall (fun kv => Forall clean_text (Gui.row_of date (snd kv))) acc ->
  Forall (fun kv => Forall clean_text (Gui.row_of date (snd kv)))
    (fold_left Reducer.add_file l acc).
Proof.
  intros Hdate. revert acc. induction l as [|e l IH]; intros acc Hl Hacc; simpl;
    [assumption|].
  inversion Hl as [|? ? [Ht Hp] Hrest]; subst. apply IH; [assumption|].
  destruct (add_file_cases acc e) as [[_ ->]|[_ ->]]; [assumption|].
  apply Forall_app. split; [assumption|]. constructor; [|constructor].
  now apply clean_row.
Qed.

(** X13. Storing a run and then copying: for a run with a date and at least
    one file event, free of tabs and line feeds, the clipboard gets a
    text that reads back (lines, then tab-separated fields) as the rows
    date, time, type, section, name of the records in first-seen order,
    and the status line counts them. *)
Theorem copy_last_log_after_store (gui : Gui.Window) (run : SyncRun) (d : str) :
  date run = Some d -> d <> [] -> clean_text d ->
  Reducer.events_of run <> [] ->
  Forall (fun e => clean_text (timestamp e) /\ clean_text (file_path e))
    (Reducer.events_of run) ->
  exists text,
    Gui.clipboard (Gui.copy_last_log (Gui.store_last_parsed gui run)) = Some text
    /\ map (Py.split Text.tab) (Py.split Text.lf text)
       = map (fun kv => Gui.row_of d (snd kv)) (Reducer.extract_unique_files run)
    /\ last (Gui.status_lines (Gui.copy_last_log (Gui.store_last_parsed gui run)))
            Gui.NoLogData
       = Gui.CopiedEntries (length (Reducer.extract_unique_files run)).
Proof.
  intros Hd Hne Hclean Hevents Hall.
  assert (Reducer.extract_unique_files run <> []) as Hfiles.
  { destruct (Reducer.events_of run) as [|e l] eqn:E; [congruence|].
    intros Hnil.
    pose proof (fold_add_file_covers (e :: l) [] e (or_introl eq_refl)) as Hin.
    rewrite <- E, <- extract_unique_files_events, Hnil in Hin. exact Hin. }
  exists (Gui.tsv_text (Reducer.extract_unique_files run) d).
  unfold Gui.store_last_parsed. rewrite Hd.
  rewrite copy_last_log_some by assumption. simpl.
  split; [reflexivity|]. split.
  - apply tsv_text_round_trip; [assumption|].
    rewrite extract_unique_files_events.
    apply clean_records; [assumption | assumption | constructor].
  - apply last_last.
Qed.

Lemma copy_last_log_after_store_witness :
  exists text,
    Gui.clipboard (Gui.copy_last_log (Gui.store_last_parsed Gui.initial demo_run))
    = Some text
    /\ map (Py.split Text.tab) (Py.split Text.lf text)
       = [[$"9/13/2025"; $"2:30:20 PM"; $"Video"; $"Project"; $"test.mov"]].
Proof.
  destruct (copy_last_log_after_store Gui.initial demo_run $"9/13/2025")
    as [text [Hclip [Hrows _]]].
  - reflexivity.
  - discriminate.
  - split; simpl; intuition discriminate.
  - discriminate.
  - repeat constructor; simpl; intuition discriminate.
  - exists text. split; [exact Hclip|]. rewrite Hrows. reflexivity.
Defined.

(** X14. Without a date nothing can be copied: after storing a run whose
    header line was not found, or one without file events, copying
    leaves the clipboard as it was and reports that there is no data. *)
Theorem copy_last_log_needs_date_and_files (gui : Gui.Window) (run : SyncRun) :
  date run = None \/ date run = Some [] \/ Reducer.events_of run = [] ->
  Gui.clipboard (Gui.copy_last_log (Gui.store_last_parsed gui run)) = Gui.clipboard gui
  /\ last (Gui.status_lines (Gui.copy_last_log (Gui.store_last_parsed gui run)))
          (Gui.CopiedEntries 0)
     = Gui.NoLogData.
Proof.
  intros H. unfold Gui.copy_last_log, Gui.store_last_parsed. simpl.
  assert (Reducer.events_of run = [] -> Reducer.extract_unique_files run = []) as Hnone
      by (intros E; now rewrite extract_unique_files_events, E).
  destruct H as [->|[->|H]].
  - destruct (Reducer.extract_unique_files run); simpl; rewrite last_last; now split.
  - destruct (Reducer.extract_unique_files run); simpl; rewrite last_last; now split.
  - rewrite (Hnone H). simpl. rewrite last_last. now split.
Qed.

Lemma copy_last_log_needs_date_and_files_witness :
  Gui.clipboard
    (Gui.copy_last_log
       (Gui.store_last_parsed Gui.initial
          (Parser.set_operations (sync_operations demo_run) Parser.empty_run)))
  = None.
Proof.
  destruct (copy_last_log_needs_date_and_files Gui.initial
              (Parser.set_operations (sync_operations demo_run) Parser.empty_run))
    as [H _]; [now left | exact H].
Defined.

(* ------------------------------------------------------------------ *)
(** ** The remote sink, continued *)

Ltac split_at k :=
  match goal with
  | |- exists before first after, ?l = _ /\ _ =>
      exists (firstn k l); eexists; eexists;
      split; [reflexivity | split; [eassumption | simpl; lia]]
  end.

(** X15. What [upload_data] asks of the service and what it reports.
    Without records it reports failure and asks nothing.  When there is
    no header and the service refuses the header, it reports failure and
    asks nothing else.  It reports success only if a write of the new
    rows, at row 2 or below, was carried out.  A write to row 1 is the
    header alone, asked only when the read of column A showed none;
    every other write starts at row 2 or below.  Rows are inserted only
    in prepend mode with a sheet id, right under the header and as many
    as the new block has.  When the service carries out every write of
    values and answers the read of the rows under the header, success
    is reported whether or not it carries out the insertion: refused, it
    is made up for by writing the rows by hand. *)
Theorem upload_data_requests
    (accepts : list Sheets.request -> Sheets.request -> bool)
    (data : SyncRun) (column_a rows_below : outcome (list Csv.row))
    (sheet_id : option nat) (prepend add_breaks : bool) :
  let result :=
    Sheets.upload_data accepts data column_a rows_below sheet_id prepend add_breaks in
  let written :=
    if prepend then new_block data add_breaks else Csv.record_rows data in
  (Reducer.extract_unique_files data = [] -> result = (false, []))
  /\ (Reducer.extract_unique_files data <> [] -> no_header column_a ->
      accepts [] (Sheets.Update 1 [Sheets.headers]) = false ->
      result = (false, [Sheets.Update 1 [Sheets.headers]]))
  /\ (fst result = true ->
      Reducer.extract_unique_files data <> []
      /\ exists before first after,
           snd result = before ++ Sheets.Update first written :: after
           /\ accepts before (Sheets.Update first written) = true
           /\ 2 <= first)
  /\ (forall first rows,
        In (Sheets.Update first rows) (snd result) ->
        (first = 1 /\ rows = [Sheets.headers] /\ no_header column_a) \/ 2 <= first)
  /\ (forall start_index end_index,
        In (Sheets.InsertRows start_index end_index) (snd result) ->
        prepend = true /\ sheet_id <> None /\ start_index = 1
        /\ end_index - start_index = length (new_block data add_breaks))
  /\ (Reducer.extract_unique_files data <> [] ->
      (forall issued first rows, accepts issued (Sheets.Update first rows) = true) ->
      (exists rows, rows_below = Ok rows) ->
      fst result = true).
Proof.
  cbv zeta. unfold Sheets.upload_data, Sheets.manual_prepend, no_header, new_block.
  destruct (Reducer.extract_unique_files data) as [|kv l] eqn:E.
  - split; [reflexivity|]. split; [congruence|]. split; [discriminate|].
    split; [intros ? ? []|]. split; [intros ? ? []|]. congruence.
  - split; [discriminate|].
    assert (Csv.record_rows data <> []) as Hrows
        by (unfold Csv.record_rows; rewrite E; discriminate).
    destruct (Csv.record_rows data) as [|r rs] eqn:Er; [congruence|]. clear Hrows.
    assert ((exists e, column_a = Raise e) \/ column_a = Ok []
            \/ (exists more, column_a = Ok ([] :: more))
            \/ exists c cs more, column_a = Ok ((c :: cs) :: more)) as Hcol.
    { destruct column_a as [[|[|c cs] more]|e]; eauto 8. }
    split; [|split; [|split; [|split]]].
    + intros _ Hno Hrefuse.
      destruct Hcol as [[e ->]|[->|[[more ->]|[c [cs [more ->]]]]]];
        simpl; rewrite ?Hrefuse; try reflexivity.
      specialize (Hno _ _ eq_refl). discriminate.
    + destruct Hcol as [[e ->]|[->|[[more ->]|[c [cs [more ->]]]]]];
        destruct prepend, sheet_id, add_breaks, rows_below as [[|x xs]|e'];
        cbn [negb andb Csv.is_blank length Nat.ltb Nat.leb Nat.add app fst snd];
        repeat match goal with
               | |- context [accepts ?h ?q] => destruct (accepts h q) eqn:?
               end;
        cbn [negb andb Csv.is_blank length Nat.ltb Nat.leb Nat.add app fst snd];
        repeat match goal with
               | |- context [if ?b then _ else _] => destruct b eqn:?
               end;
        cbn [fst snd app]; intros Hok; try discriminate Hok;
        (split; [discriminate|]);
        first [split_at 0 | split_at 1 | split_at 2 | split_at 3 | split_at 4].
    + intros first rows.
      destruct Hcol as [[e ->]|[->|[[more ->]|[c [cs [more ->]]]]]];
        destruct prepend, sheet_id, add_breaks, rows_below as [[|x xs]|e'];
        cbn [negb andb Csv.is_blank length Nat.ltb Nat.leb Nat.add app fst snd];
        repeat match goal with
               | |- context [if ?b then _ else _] => destruct b
               end;
        cbn [fst snd app In];
        intros H;
        repeat (destruct H as [H|H]; [try discriminate H|]);
        try contradiction;
        try (injection H as <- <-);
        try (right; simpl; lia);
        left; (split; [reflexivity|]); (split; [reflexivity|]);
        intros f m Heq; try discriminate Heq; now injection Heq as <- _.
    + intros s e.
      destruct Hcol as [[e0 ->]|[->|[[more ->]|[c [cs [more ->]]]]]];
        destruct prepend, sheet_id, add_breaks, rows_below as [[|x xs]|e'];
        cbn [negb andb Csv.is_blank length Nat.ltb Nat.leb Nat.add app fst snd];
        repeat match goal with
               | |- context [if ?b then _ else _] => destruct b
               end;
        cbn [fst snd app In];
        intros H;
        repeat (destruct H as [H|H]; [try discriminate H|]);
        try contradiction;
        injection H as <- <-;
        (split; [reflexivity|]); (split; [discriminate|]); (split; [reflexivity|]);
        simpl; rewrite ?length_app; simpl; lia.
    + intros _ Haccepts [rows ->].
      destruct Hcol as [[e ->]|[->|[[more ->]|[c [cs [more ->]]]]]];
        destruct prepend, sheet_id, add_breaks, rows;
        cbn [negb andb Csv.is_blank length Nat.ltb Nat.leb Nat.add app fst snd];
        rewrite ?Haccepts;
        cbn [negb andb Csv.is_blank length Nat.ltb Nat.leb Nat.add app fst snd];
        repeat match goal with
               | |- context [if ?b then _ else _] => destruct b
               end;
        rewrite ?Haccepts; reflexivity.
Qed.

Lemma upload_data_requests_witness :
  Sheets.upload_data no_insertion demo_parsed (Ok []) (Ok [demo_row]) (Some 0) true true
  = (true,
     [Sheets.Update 1 [Sheets.headers];
      Sheets.InsertRows 1 3;
      Sheets.Update 2 (new_block demo_parsed true);
      Sheets.Update 4 [demo_row]]).
Proof.
  pose proof (upload_data_requests no_insertion demo_parsed (Ok []) (Ok [demo_row])
                (Some 0) true true) as [_ [_ [_ [_ [_ Hfallback]]]]].
  assert (fst (Sheets.upload_data no_insertion demo_parsed (Ok []) (Ok [demo_row])
                 (Some 0) true true) = true) as Hsuccess.
  { apply Hfallback.
    - vm_compute. discriminate.
    - reflexivity.
    - now exists [demo_row]. }
  reflexivity.
Defined.

(* ------------------------------------------------------------------ *)
(** ** Sheet references *)

Lemma split_app_gen (sep : ascii) (a b : str) :
  Py.split sep (a ++ sep :: b) = Py.split sep a ++ Py.split sep b.
Proof.
  induction a as [|c a IH].
  - simpl app. now rewrite split_cons_sep.
  - destruct (Ascii.eqb_spec c sep) as [->|Hc].
    + change ((sep :: a) ++ sep :: b) with (sep :: (a ++ sep :: b)).
      now rewrite !split_cons_sep, IH.
    + change ((c :: a) ++ sep :: b) with (c :: (a ++ sep :: b)).
      destruct (split_cons_other sep c a Hc) as [p [ps [Ea ->]]].
      destruct (split_cons_other sep c (a ++ sep :: b) Hc) as [q [qs [Eab ->]]].
      rewrite IH, Ea in Eab. injection Eab as <- <-. reflexivity.
Qed.

Lemma last_split_app (sep : ascii) (a b : str) :
  ~ In sep b -> last (Py.split sep (a ++ sep :: b)) [] = b.
Proof.
  intros Hb. rewrite split_app_gen, (split_clean sep b Hb). apply last_last.
Qed.

Lemma startswith_app (p s : str) : Py.startswith (p ++ s) p = true.
Proof.
  induction p as [|c p IH]; [now destruct s|]. simpl.
  unfold Py.chr_eqb. now rewrite Ascii.eqb_refl.
Qed.

Lemma join_has_sep (sep : ascii) (a b : str) (l : list str) :
  In sep (Text.join [sep] (a :: b :: l)).
Proof.
  change (Text.join [sep] (a :: b :: l)) with (a ++ sep :: Text.join [sep] (b :: l)).
  apply in_or_app. right. now left.
Qed.

Lemma digits_of_digits (d : Decimal.uint) :
  forallb Py.is_digit (Text.digits_of d) = true.
Proof. induction d; simpl; auto. Qed.

Lemma digits_of_inj (d d' : Decimal.uint) :
  Text.digits_of d = Text.digits_of d' -> d = d'.
Proof.
  revert d'. induction d as [|d IH|d IH|d IH|d IH|d IH|d IH|d IH|d IH|d IH|d IH];
    intros [|d'|d'|d'|d'|d'|d'|d'|d'|d'|d']; simpl; intros H;
    try reflexivity; try discriminate H;
    injection H as H; f_equal; now apply IH.
Qed.

Lemma str_of_int_inj (n m : N) :
  Text.str_of_int n = Text.str_of_int m -> n = m.
Proof.
  unfold Text.str_of_int. intros H.
  now apply DecimalN.Unsigned.to_uint_inj, digits_of_inj.
Qed.

Lemma not_digit_absent (c : ascii) (s : str) :
  Py.is_digit c = false -> forallb Py.is_digit s = true -> ~ In c s.
Proof.
  intros Hc Hs Hin. rewrite forallb_forall in Hs.
  specialize (Hs c Hin). congruence.
Qed.

Lemma str_of_int_not_None (n : N) : Text.str_of_int n <> $"None".
Proof.
  intros H.
  pose proof (digits_of_digits (N.to_uint n)) as Hd.
  fold (Text.str_of_int n) in Hd. rewrite H in Hd. discriminate Hd.
Qed.

(** The loop of [resolve_sheet_name] finds the first sheet with the id. *)
Lemma title_of_gid_first (n : N) (earlier later : list SheetRef.SheetProperties)
    (sheet : SheetRef.SheetProperties) (t : str) :
  Forall (fun s => SheetRef.sheetId s <> Some n) earlier ->
  SheetRef.sheetId sheet = Some n ->
  SheetRef.title sheet = Some t -> t <> [] ->
  SheetRef.title_of_gid (Text.str_of_int n) (earlier ++ sheet :: later) = Some t.
Proof.
  intros Hearlier Hid Ht Hne.
  induction Hearlier as [|s earlier Hs _ IH]; simpl.
  - rewrite Hid, Ht. simpl. rewrite py_eqb_refl.
    destruct t; [congruence | reflexivity].
  - destruct (py_eqb_spec (SheetRef.str_of_sheet_id (SheetRef.sheetId s))
                (Text.str_of_int n)) as [E|_]; [|exact IH].
    exfalso. destruct (SheetRef.sheetId s) as [m|]; simpl in E.
    + apply str_of_int_inj in E. congruence.
    + symmetry in E. now apply str_of_int_not_None in E.
Qed.

Lemma extract_sheet_info_id
    (before after : list str) (id : str) :
  ~ In $"d" before ->
  Forall (fun p => ~ In "/"%char p) (before ++ id :: after) ->
  let url := Text.join ["/"%char] (before ++ $"d" :: id :: after) in
  Py.contains url $"/" = true
  /\ Reducer.index $"d" (Py.split "/"%char url) = Some (length before)
  /\ nth_error (Py.split "/"%char url) (length before + 1) = Some id.
Proof.
  intros Hd Hclean url.
  apply Forall_app in Hclean. destruct Hclean as [Hb Hia].
  assert (Py.split "/"%char url = before ++ $"d" :: id :: after) as Hsplit.
  { apply split_join; [destruct before; discriminate|].
    apply Forall_app. split; [assumption|].
    constructor; [simpl; intuition discriminate | assumption]. }
  split; [|split].
  - apply (contains_chr url "/"%char). unfold url.
    destruct before as [|b [|b' before]]; apply join_has_sep.
  - rewrite Hsplit. now apply index_first.
  - rewrite Hsplit, nth_error_app2 by lia.
    now replace (length before + 1 - length before) with 1 by lia.
Qed.

(** X16. A spreadsheet address is taken apart by its slashes: the id is the
    segment after the first segment "d".  The sheet is named by what
    follows the last "#": nothing when there is no "#", the marker
    "gid_" and the number when it reads "gid=number". *)
Theorem extract_sheet_info_address
    (before after : list str) (id : str) :
  let url := Text.join ["/"%char] (before ++ $"d" :: id :: after) in
  ~ In $"d" before ->
  Forall (fun p => ~ In "/"%char p) (before ++ id :: after) ->
  Py.contains url $"docs.google.com/spreadsheets" = true ->
  SheetRef.spreadsheet_id (SheetRef.extract_sheet_info url) = Some id
  /\ (~ In "#"%char url ->
      SheetRef.sheet_name (SheetRef.extract_sheet_info url) = None)
  /\ (forall front gid,
        url = front ++ $"#gid=" ++ gid ->
        ~ In "#"%char gid -> ~ In "="%char gid ->
        SheetRef.sheet_name (SheetRef.extract_sheet_info url) = Some ($"gid_" ++ gid)).
Proof.
  intros url Hd Hclean Hdocs.
  destruct (extract_sheet_info_id before after id Hd Hclean) as [Hslash [Hidx Hnth]].
  fold url in Hslash, Hidx, Hnth.
  unfold SheetRef.extract_sheet_info. rewrite Hslash, Hdocs, Hidx, Hnth.
  split; [|split].
  - destruct (Py.contains url $"#"); [|reflexivity].
    destruct (Py.startswith _ _); [reflexivity|].
    now destruct (last (Py.split "#"%char url) []).
  - intros Hno.
    destruct (Py.contains url $"#") eqn:E; [|reflexivity].
    apply (contains_chr url "#"%char) in E. contradiction.
  - intros front gid Hurl Hhash Heq.
    assert (Py.contains url $"#" = true) as E.
    { apply (contains_chr url "#"%char). rewrite Hurl.
      apply in_or_app. right. now left. }
    rewrite E.
    assert (last (Py.split "#"%char url) [] = $"gid=" ++ gid) as Hfrag.
    { rewrite Hurl. apply (last_split_app "#"%char front ($"gid=" ++ gid)).
      simpl. intuition discriminate. }
    rewrite Hfrag, startswith_app.
    change ($"gid=" ++ gid) with ($"gid" ++ "="%char :: gid).
    now rewrite last_split_app.
Qed.

Lemma extract_sheet_info_address_witness :
  SheetRef.spreadsheet_id (SheetRef.extract_sheet_info demo_sheet_url) = Some $"1ABC123"
  /\ SheetRef.sheet_name (SheetRef.extract_sheet_info demo_sheet_url) = Some $"gid_0".
Proof.
  destruct (extract_sheet_info_address
              [$"https:"; []; $"docs.google.com"; $"spreadsheets"]
              [$"edit#gid=0"] $"1ABC123") as [Hid [_ Hgid]].
  - simpl. intuition discriminate.
  - repeat constructor; simpl; intuition discriminate.
  - reflexivity.
  - split; [exact Hid|].
    apply (Hgid $"https://docs.google.com/spreadsheets/d/1ABC123/edit" $"0").
    + reflexivity.
    + simpl. intuition discriminate.
    + simpl. intuition discriminate.
Defined.

Lemma actual_sheet_name_resolved
    (metadata : outcome (list SheetRef.SheetProperties)) (name t : str) :
  name <> [] -> Py.startswith name $"gid_" = true ->
  SheetRef.resolve_sheet_name metadata name = Some t -> t <> [] ->
  SheetRef.actual_sheet_name metadata (Some name) = Some t.
Proof.
  intros Hname Hgid Hres Ht. unfold SheetRef.actual_sheet_name.
  destruct name as [|c name]; [congruence|]. rewrite Hgid, Hres.
  destruct t; [congruence | reflexivity].
Qed.

(** X17. Round trip of a sheet reference: from an address that ends in
    "#gid=" and the number of a sheet, [extract_sheet_info] makes a
    marker that [resolve_sheet_name] reads back as that number, so the
    upload settles on the title of the first sheet with that id. *)
Theorem gid_reference_round_trip
    (front : str) (n : N) (earlier later : list SheetRef.SheetProperties)
    (sheet : SheetRef.SheetProperties) (t : str) :
  Forall (fun s => SheetRef.sheetId s <> Some n) earlier ->
  SheetRef.sheetId sheet = Some n ->
  SheetRef.title sheet = Some t -> t <> [] ->
  let sheets := Ok (earlier ++ sheet :: later) in
  let marker := $"gid_" ++ Text.str_of_int n in
  last (Py.split "="%char
          (last (Py.split "#"%char (front ++ $"#gid=" ++ Text.str_of_int n)) [])) []
  = Text.str_of_int n
  /\ SheetRef.resolve_sheet_name sheets marker = Some t
  /\ SheetRef.actual_sheet_name sheets (Some marker) = Some t.
Proof.
  intros Hearlier Hid Ht Hne sheets marker.
  pose proof (digits_of_digits (N.to_uint n)) as Hdigits.
  fold (Text.str_of_int n) in Hdigits.
  assert (~ In "#"%char (Text.str_of_int n)) as Hhash
      by now apply not_digit_absent.
  assert (~ In "="%char (Text.str_of_int n)) as Heq
      by now apply not_digit_absent.
  assert (~ In "_"%char (Text.str_of_int n)) as Hus
      by now apply not_digit_absent.
  assert (SheetRef.resolve_sheet_name sheets marker = Some t) as Hres.
  { unfold SheetRef.resolve_sheet_name, marker. rewrite startswith_app. simpl negb.
    cbv iota.
    change ($"gid_" ++ Text.str_of_int n)
      with ($"gid" ++ "_"%char :: Text.str_of_int n).
    rewrite split_app_gen, (split_clean "_"%char (Text.str_of_int n) Hus).
    unfold sheets. simpl. now apply title_of_gid_first. }
  split; [|split].
  - assert (last (Py.split "#"%char (front ++ $"#gid=" ++ Text.str_of_int n)) []
            = $"gid=" ++ Text.str_of_int n) as ->.
    { apply (last_split_app "#"%char front ($"gid=" ++ Text.str_of_int n)).
      simpl. intuition discriminate. }
    now apply (last_split_app "="%char $"gid" (Text.str_of_int n)).
  - exact Hres.
  - apply actual_sheet_name_resolved; try assumption.
    + discriminate.
    + apply startswith_app.
Qed.

Lemma gid_reference_round_trip_witness :
  SheetRef.resolve_sheet_name (Ok demo_sheets) $"gid_0" = Some $"Log"
  /\ SheetRef.actual_sheet_name (Ok demo_sheets)
       (SheetRef.sheet_name (SheetRef.extract_sheet_info demo_sheet_url))
     = Some $"Log".
Proof.
  destruct (gid_reference_round_trip
              $"https://docs.google.com/spreadsheets/d/1ABC123/edit" 0%N
              [SheetRef.mkSheetProperties (Some 7%N) (Some $"Archive")] []
              (SheetRef.mkSheetProperties (Some 0%N) (Some $"Log")) $"Log")
    as [_ [Hres Hact]].
  - repeat constructor. discriminate.
  - reflexivity.
  - reflexivity.
  - discriminate.
  - split; [exact Hres | exact Hact].
Defined.

Lemma title_of_gid_absent (n : N) (sheets : list SheetRef.SheetProperties) :
  Forall (fun s => SheetRef.sheetId s <> Some n) sheets ->
  SheetRef.title_of_gid (Text.str_of_int n) sheets = None.
Proof.
  induction 1 as [|s sheets Hs _ IH]; simpl; [reflexivity|].
  destruct (py_eqb_spec (SheetRef.str_of_sheet_id (SheetRef.sheetId s))
              (Text.str_of_int n)) as [E|_]; [|exact IH].
  exfalso. destruct (SheetRef.sheetId s) as [m|]; simpl in E.
  - apply str_of_int_inj in E. congruence.
  - symmetry in E. now apply str_of_int_not_None in E.
Qed.

(** X18. A marker whose number is the id of no sheet does not stop the
    upload: it silently goes to the first sheet that has a title, and
    the id looked up for the row insertion is that sheet's. *)
Theorem unresolved_gid_falls_back
    (n : N) (untitled rest : list SheetRef.SheetProperties)
    (first : SheetRef.SheetProperties) (t : str) :
  let sheets := untitled ++ first :: rest in
  Forall (fun s => SheetRef.sheetId s <> Some n) sheets ->
  Forall (fun s => Text.truthy (SheetRef.title s) = false) untitled ->
  SheetRef.title first = Some t -> t <> [] ->
  SheetRef.resolve_sheet_name (Ok sheets) ($"gid_" ++ Text.str_of_int n) = None
  /\ SheetRef.actual_sheet_name (Ok sheets) (Some ($"gid_" ++ Text.str_of_int n))
     = Some t
  /\ SheetRef.find_sheet_id (Ok sheets) (Some t) = SheetRef.sheetId first.
Proof.
  intros sheets Hids Huntitled Ht Hne.
  pose proof (digits_of_digits (N.to_uint n)) as Hdigits.
  fold (Text.str_of_int n) in Hdigits.
  assert (~ In "_"%char (Text.str_of_int n)) as Hus
      by now apply not_digit_absent.
  assert (SheetRef.resolve_sheet_name (Ok sheets) ($"gid_" ++ Text.str_of_int n) = None)
    as Hres.
  { unfold SheetRef.resolve_sheet_name. rewrite startswith_app. simpl negb. cbv iota.
    change ($"gid_" ++ Text.str_of_int n)
      with ($"gid" ++ "_"%char :: Text.str_of_int n).
    rewrite split_app_gen, (split_clean "_"%char (Text.str_of_int n) Hus).
    simpl. now apply title_of_gid_absent. }
  split; [exact Hres|]. split.
  - unfold SheetRef.actual_sheet_name.
    change ($"gid_" ++ Text.str_of_int n)
      with ("g"%char :: ($"id_" ++ Text.str_of_int n)) at 1.
    cbv iota.
    change ("g"%char :: ($"id_" ++ Text.str_of_int n))
      with ($"gid_" ++ Text.str_of_int n).
    rewrite startswith_app, Hres. unfold SheetRef.get_sheet_names, sheets.
    rewrite flat_map_app.
    assert (flat_map (fun sheet => match SheetRef.title sheet with
                                   | Some (c :: t0) => [c :: t0]
                                   | _ => []
                                   end) untitled = []) as ->.
    { clear -Huntitled. induction Huntitled as [|s l Hs _ IH]; simpl; [reflexivity|].
      rewrite IH. destruct (SheetRef.title s) as [[|c t0]|]; try reflexivity.
      discriminate Hs. }
    simpl. rewrite Ht. destruct t; [congruence | reflexivity].
  - unfold SheetRef.find_sheet_id. destruct t as [|c t]; [congruence|].
    unfold sheets.
    assert (find (fun sheet => match SheetRef.title sheet with
                               | Some t0 => Py.eqb t0 (c :: t)
                               | None => false
                               end) (untitled ++ first :: rest) = Some first) as ->;
      [|reflexivity].
    clear -Huntitled Ht. induction Huntitled as [|s l Hs _ IH]; simpl.
    + now rewrite Ht, py_eqb_refl.
    + destruct (SheetRef.title s) as [[|x t0]|]; simpl; try exact IH.
      discriminate Hs.
Qed.

Lemma unresolved_gid_falls_back_witness :
  SheetRef.actual_sheet_name (Ok demo_sheets) (Some $"gid_5") = Some $"Archive"
  /\ SheetRef.find_sheet_id (Ok demo_sheets) (Some $"Archive") = Some 7%N.
Proof.
  destruct (unresolved_gid_falls_back 5%N []
              [SheetRef.mkSheetProperties (Some 0%N) (Some $"Log")]
              (SheetRef.mkSheetProperties (Some 7%N) (Some $"Archive")) $"Archive")
    as [_ [Hact Hid]].
  - repeat constructor; discriminate.
  - constructor.
  - reflexivity.
  - discriminate.
  - split; [exact Hact | exact Hid].
Defined.

(* ------------------------------------------------------------------ *)
(** ** The orchestrator and the application, continued *)

Section SinkOnly.

Variable World : Type.

Lemma call_keeps_sink (A : Type) (f : World -> World * outcome A)
    (st : Handler.state World) :
  fst (fst (let (w, r) := f (snd st) in ((fst st, w), r))) = fst st.
Proof. now destruct (f (snd st)). Qed.

Lemma report_keeps_sink
    (log_callback : Handler.message -> World -> World * outcome unit)
    (path : str) (e : exn) (st : Handler.state World) :
  fst (fst (report log_callback path e st)) = fst st.
Proof.
  unfold report, Handler.and_then, Handler.call.
  destruct (log_callback (Handler.ErrorProcessing path e) (snd st)) as [w1 [u|e1]];
    simpl; [|reflexivity].
  now destruct (log_callback (Handler.TracebackOf e) w1).
Qed.

(** After [on_created] the CSV file is either what it was or what
    [append_to_csv] made of it for the run parsed from the text of the
    event's file. *)
Lemma on_created_sink
    (log_callback : Handler.message -> World -> World * outcome unit)
    (store_callback : SyncRun -> World -> World * outcome unit)
    (sheets_callback : option (SyncRun -> World -> World * outcome unit))
    (read_text : str -> outcome str) (prepend add_breaks : bool)
    (event : Handler.Event) (csv : Csv.sink) (w : World) :
  let after :=
    fst (fst (Handler.on_created log_callback store_callback sheets_callback
                read_text prepend add_breaks event (csv, w))) in
  after = csv
  \/ exists content parsed,
       watched event = true
       /\ read_text (Handler.src_path event) = Ok content
       /\ Parser.parse_sync_log (Handler.src_path event) content = Some (Ok parsed)
       /\ after = fst (Csv.append_to_csv parsed csv prepend add_breaks).
Proof.
  unfold Handler.on_created. cbv zeta. fold (watched event).
  destruct (watched event) eqn:Hwatched; [|now left].
  unfold Handler.try_except.
  destruct (Handler.process _ _ _ _ _ _ _ (csv, w)) as [st' r] eqn:Hp.
  assert (fst st' = csv
          \/ exists content parsed,
               true = true
               /\ read_text (Handler.src_path event) = Ok content
               /\ Parser.parse_sync_log (Handler.src_path event) content
                  = Some (Ok parsed)
               /\ fst st' = fst (Csv.append_to_csv parsed csv prepend add_breaks))
    as Hsink.
  { revert Hp.
    unfold Handler.process, Handler.and_then, Handler.call,
      Handler.call_parse_sync_log, Handler.call_append_to_csv, Handler.ret.
    simpl.
    destruct (log_callback _ w) as [w1 [[]|e1]]; simpl;
      [|intros [= <- <-]; now left].
    destruct (read_text (Handler.src_path event)) as [content|e2] eqn:Hread; simpl;
      [|intros [= <- <-]; now left].
    destruct (parse_sync_log_total (Handler.src_path event) content) as [run Hrun].
    rewrite Hrun.
    destruct run as [parsed|e3]; simpl; [|intros [= <- <-]; now left].
    assert (forall s, s = fst (Csv.append_to_csv parsed csv prepend add_breaks) ->
              s = csv
              \/ exists content0 parsed0,
                   true = true
                   /\ Ok content = Ok content0
                   /\ Parser.parse_sync_log (Handler.src_path event) content0
                      = Some (Ok parsed0)
                   /\ s = fst (Csv.append_to_csv parsed0 csv prepend add_breaks))
      as Hdone by (intros s ->; right; exists content, parsed; auto).
    destruct (log_callback _ w1) as [w2 [[]|e4]]; simpl;
      [|intros [= <- <-]; now left].
    destruct (Csv.append_to_csv parsed csv prepend add_breaks) as [csv' [[]|e5]] eqn:Hcsv;
      simpl; [|intros [= <- <-]; now apply Hdone].
    destruct (store_callback parsed w2) as [w3 [[]|e6]]; simpl;
      [|intros [= <- <-]; now apply Hdone].
    destruct (log_callback _ w3) as [w4 [[]|e7]]; simpl;
      [|intros [= <- <-]; now apply Hdone].
    destruct sheets_callback as [upload|]; simpl.
    - destruct (upload parsed w4) as [w5 r5].
      intros [= <- <-]. now apply Hdone.
    - intros [= <- <-]. now apply Hdone. }
  destruct r as [u|e]; cbv beta iota zeta; [exact Hsink|].
  pose proof (report_keeps_sink log_callback (Handler.src_path event) e st') as Hr.
  unfold report in Hr. rewrite Hr. exact Hsink.
Qed.

End SinkOnly.

Lemma tidy_after_call (data : SyncRun) (prepend add_breaks : bool) (s : Csv.sink) :
  tidy s -> tidy (fst (Csv.append_to_csv data s prepend add_breaks)).
Proof.
  intros [Hs|[Hs|[old [-> [Hold Hold5]]]]].
  - rewrite append_to_csv_fresh by auto. simpl.
    apply tidy_header_first; [apply new_block_no_header | apply new_block_five].
  - rewrite append_to_csv_fresh by auto. simpl.
    apply tidy_header_first; [apply new_block_no_header | apply new_block_five].
  - pose proof (new_block_no_header data add_breaks) as Hnh.
    pose proof (new_block_five data add_breaks) as H5.
    destruct prepend.
    + rewrite append_to_csv_prepend by assumption. simpl.
      apply tidy_header_first; [rewrite in_app_iff; tauto|].
      apply Forall_app. now split.
    + rewrite append_to_csv_append. simpl.
      apply tidy_header_first; [rewrite in_app_iff; tauto|].
      apply Forall_app. now split.
Qed.

(** X19. What [on_created] does to the CSV file, with callbacks that act
    on their own state only.  The file is changed by one call of
    [append_to_csv] at most, made for the run parsed from the text of
    the event's file; it is left as it was when the event is not
    watched, the file cannot be read or the parser raises.  So whichever
    step fails, a file that was absent, empty or well formed (the header
    first, rows of five fields, every line closed by its terminator) is
    so afterwards. *)
Theorem on_created_keeps_csv_tidy
    (World : Type)
    (log_callback : Handler.message -> World -> World * outcome unit)
    (store_callback : SyncRun -> World -> World * outcome unit)
    (sheets_callback : option (SyncRun -> World -> World * outcome unit))
    (read_text : str -> outcome str) (prepend add_breaks : bool)
    (event : Handler.Event) (csv : Csv.sink) (w : World) :
  let after :=
    fst (fst (Handler.on_created log_callback store_callback sheets_callback
                read_text prepend add_breaks event (csv, w))) in
  (after = csv
   \/ exists content parsed,
        watched event = true
        /\ read_text (Handler.src_path event) = Ok content
        /\ Parser.parse_sync_log (Handler.src_path event) content = Some (Ok parsed)
        /\ after = fst (Csv.append_to_csv parsed csv prepend add_breaks))
  /\ ((watched event = false \/ (exists e, read_text (Handler.src_path event) = Raise e)) ->
      after = csv)
  /\ (tidy csv -> tidy after).
Proof.
  cbv zeta.
  pose proof (on_created_sink World log_callback store_callback sheets_callback
                read_text prepend add_breaks event csv w) as Hsink.
  cbv zeta in Hsink.
  split; [exact Hsink|]. split.
  - intros Hskip.
    destruct Hsink as [H|[content [parsed [Hw [Hread _]]]]]; [exact H|].
    destruct Hskip as [Hskip|[e Hskip]]; congruence.
  - intros Htidy.
    destruct Hsink as [->|[content [parsed [_ [_ [_ ->]]]]]].
    + exact Htidy.
    + now apply tidy_after_call.
Qed.

Lemma on_created_keeps_csv_tidy_witness :
  tidy (fst (fst (Handler.on_created desk_log desk_store (Some desk_upload_fails)
                    desk_read true true (Handler.mkEvent false $"run.log")
                    (Csv.File [Csv.fieldnames; demo_row], empty_desk))))
  /\ fst (fst (Handler.on_created desk_log desk_store (Some desk_upload_fails)
                 desk_read true true (Handler.mkEvent false $"gone.log")
                 (Csv.File [Csv.fieldnames; demo_row], empty_desk)))
     = Csv.File [Csv.fieldnames; demo_row].
Proof.
  split.
  - apply (on_created_keeps_csv_tidy Desk desk_log desk_store (Some desk_upload_fails)
             desk_read true true (Handler.mkEvent false $"run.log")
             (Csv.File [Csv.fieldnames; demo_row]) empty_desk).
    right. right. exists [demo_row]. split; [reflexivity|]. split.
    + simpl. intuition discriminate.
    + repeat constructor.
  - apply (on_created_keeps_csv_tidy Desk desk_log desk_store (Some desk_upload_fails)
             desk_read true true (Handler.mkEvent false $"gone.log")
             (Csv.File [Csv.fieldnames; demo_row]) empty_desk).
    right. exists OSError. reflexivity.
Defined.

Section ApplicationFacts.

Variable World : Type.
Variable log_message : App.message -> World -> World * outcome unit.
Variable store_last_parsed : SyncRun -> World -> World * outcome unit.
Variable upload_data : SyncRun -> World -> World * outcome (bool * str).
Variable log_path : str -> str.
Variable read_text : str -> outcome str.
Variable google_sheet_id : str.
Variable google_sheets_enabled : bool.
Variables prepend_mode log_breaks : bool.

Lemma log_keeps_sink (m : App.message) (st : Handler.state World) :
  fst (fst (App.log log_message m st)) = fst st.
Proof. unfold App.log, Handler.call. now destruct (log_message m (snd st)). Qed.

Lemma log_returns (m : App.message) (st : Handler.state World) :
  snd (log_message m (snd st)) = Ok tt ->
  snd (App.log log_message m st) = Ok tt.
Proof. unfold App.log, Handler.call. now destruct (log_message m (snd st)). Qed.

Lemma upload_keeps_sink (parsed : SyncRun) (st : Handler.state World) :
  fst (fst (App.upload_to_google_sheets log_message upload_data google_sheet_id
              parsed st)) = fst st.
Proof.
  unfold App.upload_to_google_sheets. cbv zeta.
  destruct google_sheet_id as [|c id].
  - pose proof (log_keeps_sink App.NoSheetIdConfigured st) as H0.
    destruct (App.log log_message App.NoSheetIdConfigured st) as [st1 [u|e]];
      simpl in *; [assumption|].
    now rewrite log_keeps_sink.
  - unfold Handler.and_then.
    pose proof (log_keeps_sink App.UploadingData st) as H0.
    destruct (App.log log_message App.UploadingData st) as [st1 [u|e]];
      simpl in H0; [|now rewrite log_keeps_sink].
    destruct (upload_data parsed (snd st1)) as [w2 [answer|e]];
      [|now rewrite log_keeps_sink].
    destruct (fst answer).
    + pose proof (log_keeps_sink (App.UploadReport (snd answer)) (fst st1, w2)) as H1.
      destruct (App.log log_message _ (fst st1, w2)) as [st3 [u3|e3]];
        simpl in H1; [simpl; congruence|].
      rewrite log_keeps_sink. simpl. congruence.
    + pose proof (log_keeps_sink (App.FailedToUpload (snd answer)) (fst st1, w2)) as H1.
      destruct (App.log log_message _ (fst st1, w2)) as [st3 [u3|e3]];
        simpl in H1; [simpl; congruence|].
      rewrite log_keeps_sink. simpl. congruence.
Qed.

Lemma upload_returns (parsed : SyncRun) (st : Handler.state World) :
  (forall e w, snd (log_message (App.ErrorUploading e) w) = Ok tt) ->
  snd (App.upload_to_google_sheets log_message upload_data google_sheet_id
         parsed st) = Ok tt.
Proof.
  intros Hlog. unfold App.upload_to_google_sheets. cbv zeta.
  match goal with
  | |- snd (match ?body st with _ => _ end) = _ =>
      destruct (body st) as [st' [u|e]]
  end.
  - reflexivity.
  - apply log_returns, Hlog.
Qed.

(** One selected file: with a log window that does not fail, the body
    of the loop returns; the CSV file is then what it was or what
    [append_to_csv] made of it; and a file that cannot be read is not
    counted and leaves the CSV file as it was. *)
Lemma process_file_spec (filename : str) (st : Handler.state World) :
  (forall m w, snd (log_message m w) = Ok tt) ->
  exists st' done,
    App.process_file log_message store_last_parsed upload_data log_path
      read_text google_sheet_id google_sheets_enabled prepend_mode
      log_breaks filename st = (st', Ok done)
    /\ (fst st' = fst st
        \/ exists parsed,
             fst st' = fst (Csv.append_to_csv parsed (fst st) prepend_mode log_breaks))
    /\ ((exists e, read_text (log_path filename) = Raise e) ->
        done = false /\ fst st' = fst st).
Proof.
  intros Hlog.
  assert (forall m s, exists s', App.log log_message m s = (s', Ok tt)
                                 /\ fst s' = fst s) as Hlogs.
  { intros m s. pose proof (log_keeps_sink m s) as Hk.
    pose proof (log_returns m s (Hlog m (snd s))) as Hr.
    destruct (App.log log_message m s) as [s' r]. simpl in *. subst r.
    now exists s'. }
  unfold App.process_file. cbv zeta.
  unfold Handler.and_then at 1, Handler.call_parse_sync_log.
  destruct (read_text (log_path filename)) as [content|e0] eqn:Hread; cbn [bind].
  2:{ destruct (Hlogs (App.ErrorProcessing filename e0) st) as [s' [-> Hs']].
      exists s', false. repeat split; auto. }
  destruct (match Parser.parse_sync_log (log_path filename) content with
            | Some r => r
            | None => Ok Parser.empty_run
            end) as [parsed|e1].
  2:{ destruct (Hlogs (App.ErrorProcessing filename e1) st) as [s' [-> Hs']].
      exists s', false. split; [reflexivity|]. split; [now left|].
      intros [e He]. discriminate. }
  unfold Handler.and_then at 1, Handler.call_append_to_csv.
  destruct (Csv.append_to_csv parsed (fst st) prepend_mode log_breaks)
    as [csv' [[]|e2]] eqn:Hcsv.
  2:{ destruct (Hlogs (App.ErrorProcessing filename e2) (csv', snd st))
        as [s' [-> Hs']].
      exists s', false. split; [reflexivity|]. split.
      - right. exists parsed. now rewrite Hcsv, Hs'.
      - intros [e He]. discriminate. }
  unfold Handler.and_then at 1, Handler.call. cbn [fst snd].
  destruct (store_last_parsed parsed (snd st)) as [w3 [[]|e3]].
  2:{ destruct (Hlogs (App.ErrorProcessing filename e3) (csv', w3))
        as [s' [-> Hs']].
      exists s', false. split; [reflexivity|]. split.
      - right. exists parsed. now rewrite Hcsv, Hs'.
      - intros [e He]. discriminate. }
  destruct (google_sheets_enabled && Text.truthy (Some google_sheet_id)).
  - pose proof (upload_keeps_sink parsed (csv', w3)) as Hk.
    pose proof (upload_returns parsed (csv', w3)
                  (fun e w => Hlog (App.ErrorUploading e) w)) as Hr.
    destruct (App.upload_to_google_sheets log_message upload_data google_sheet_id
                parsed (csv', w3)) as [s4 r4].
    simpl in Hk, Hr. subst r4.
    exists s4, true. split; [reflexivity|]. split.
    + right. exists parsed. now rewrite Hcsv, Hk.
    + intros [e He]. discriminate.
  - exists (csv', w3), true. split; [reflexivity|]. split.
    + right. exists parsed. now rewrite Hcsv.
    + intros [e He]. discriminate.
Qed.

End ApplicationFacts.

(** X21. The loop over the selected files, with a log window that does not
    fail and callbacks that act on their own state only: it returns a
    count between the starting count and the starting count plus the
    number of files; a CSV file that was absent, empty or well formed
    (the header first, rows of five fields, every line closed by its
    terminator) is so afterwards; and when none of the files can be read
    the count does not move and the CSV file is as it was. *)
Theorem process_files_counts
    (World : Type)
    (log_message : App.message -> World -> World * outcome unit)
    (store_last_parsed : SyncRun -> World -> World * outcome unit)
    (upload_data : SyncRun -> World -> World * outcome (bool * str))
    (log_path : str -> str) (read_text : str -> outcome str)
    (google_sheet_id : str) (google_sheets_enabled prepend_mode log_breaks : bool)
    (selected_files : list str) (processed_count : nat)
    (st : Handler.state World) :
  (forall m w, snd (log_message m w) = Ok tt) ->
  exists st' count,
    App.process_files log_message store_last_parsed upload_data log_path
      read_text google_sheet_id google_sheets_enabled prepend_mode log_breaks
      selected_files processed_count st = (st', Ok count)
    /\ processed_count <= count <= processed_count + length selected_files
    /\ (tidy (fst st) -> tidy (fst st'))
    /\ ((forall f, In f selected_files ->
                   exists e, read_text (log_path f) = Raise e) ->
        count = processed_count /\ fst st' = fst st).
Proof.
  intros Hlog. revert processed_count st.
  induction selected_files as [|filename rest IH]; intros n st.
  - exists st, n. simpl. repeat split; auto; lia.
  - cbn [App.process_files]. unfold Handler.and_then at 1.
    pose proof (log_keeps_sink World log_message (App.Processing filename) st) as Hk.
    pose proof (log_returns World log_message (App.Processing filename) st
                  (Hlog _ _)) as Hr.
    destruct (App.log log_message (App.Processing filename) st) as [s1 r1].
    simpl in Hk, Hr. subst r1.
    unfold Handler.and_then at 1.
    destruct (process_file_spec World log_message store_last_parsed upload_data
                log_path read_text google_sheet_id google_sheets_enabled
                prepend_mode log_breaks filename s1 Hlog)
      as [s2 [done [-> [Hsink Hskip]]]].
    destruct (IH (if done then n + 1 else n) s2)
      as [s3 [count [-> [Hcount [Htidy Hnone]]]]].
    exists s3, count. repeat split.
    + destruct done; lia.
    + destruct done; simpl; lia.
    + intros Ht. apply Htidy.
      destruct Hsink as [->|[parsed ->]].
      * now rewrite Hk.
      * apply tidy_after_call. now rewrite Hk.
    + destruct (Hskip (H filename (or_introl eq_refl))) as [-> _].
      destruct Hnone as [-> _]; [intros f Hf; apply H; now right | reflexivity].
    + destruct (Hskip (H filename (or_introl eq_refl))) as [_ Hs2].
      destruct Hnone as [_ ->]; [intros f Hf; apply H; now right | congruence].
Qed.

Lemma process_files_counts_witness :
  exists st' count,
    App.process_files journal_log journal_store journal_upload_fails
      (fun f => f) desk_read $"1ABC123" true true false
      [$"run.log"; $"gone.log"] 0 (Csv.File [Csv.fieldnames; demo_row], [])
    = (st', Ok count)
    /\ 0 <= count <= 2
    /\ tidy (fst st').
Proof.
  destruct (process_files_counts journal journal_log journal_store
              journal_upload_fails (fun f => f) desk_read $"1ABC123" true true false
              [$"run.log"; $"gone.log"] 0 (Csv.File [Csv.fieldnames; demo_row], [])
              (fun m w => eq_refl))
    as [st' [count [Hrun [Hcount [Htidy _]]]]].
  exists st', count. split; [exact Hrun|]. split; [exact Hcount|].
  apply Htidy. right. right. exists [demo_row]. split; [reflexivity|]. split.
  - simpl. intuition discriminate.
  - repeat constructor.
Defined.

(* ------------------------------------------------------------------ *)
(** ** The stand-alone script against the package *)

(** X22. The CSV writer of the stand-alone script and the one of the package
    in append mode without separators do the same to every file but one
    that exists with size zero: there the script writes the rows without
    a header, the package with it. *)
Theorem legacy_append_to_csv_agrees (data : SyncRun) (s : Csv.sink) :
  (s <> Csv.File [] ->
   Legacy.append_to_csv data s = Csv.append_to_csv data s false false)
  /\ Legacy.append_to_csv data (Csv.File []) = (Csv.File (Csv.record_rows data), Ok tt)
  /\ Csv.append_to_csv data (Csv.File []) false false
     = (Csv.File (Csv.fieldnames :: Csv.record_rows data), Ok tt).
Proof.
  assert (forall file,
            Csv.write_rows Csv.fieldnames
              (map (fun kv => Csv.new_row (date data) (snd kv))
                 (Reducer.extract_unique_files data)) file
            = (file ++ Csv.record_rows data, Ok tt)) as Hwrite.
  { intros file. pose proof (write_new_rows data false file) as H.
    unfold Csv.new_rows, new_block in H. now rewrite app_nil_r in H. }
  split; [|split].
  - intros Hs. unfold Legacy.append_to_csv, Csv.append_to_csv.
    destruct s as [|[|r rs]|rs c t|rs]; try congruence; simpl.
    + unfold Csv.new_rows. reflexivity.
    + unfold Csv.new_rows. reflexivity.
    + unfold Csv.new_rows. reflexivity.
    + now destruct rs.
  - unfold Legacy.append_to_csv. simpl. now rewrite Hwrite.
  - rewrite append_to_csv_fresh by auto. unfold new_block. now rewrite app_nil_r.
Qed.

Lemma legacy_append_to_csv_agrees_witness :
  Legacy.append_to_csv demo_run (Csv.File [Csv.fieldnames; demo_row])
  = Csv.append_to_csv demo_run (Csv.File [Csv.fieldnames; demo_row]) false false
  /\ Csv.header_count (fst (Legacy.append_to_csv demo_run (Csv.File []))) = 0.
Proof.
  destruct (legacy_append_to_csv_agrees demo_run (Csv.File [Csv.fieldnames; demo_row]))
    as [Hsame [Hlegacy _]].
  split.
  - apply Hsame. discriminate.
  - rewrite Hlegacy. reflexivity.
Defined.

(* ------------------------------------------------------------------ *)
(** ** The text of the file *)

Section CsvText.
Import Csv.

Lemma not_special (c : ascii) :
  needs_quotes c = false ->
  is_newline c = false /\ Py.chr_eqb c comma = false /\ Py.chr_eqb c dquote = false.
Proof.
  unfold needs_quotes. intros H.
  apply orb_false_iff in H. destruct H as [H Hn].
  apply orb_false_iff in H. tauto.
Qed.

Lemma dquote_not_newline : is_newline dquote = false.
Proof. reflexivity. Qed.

Lemma comma_not_newline : is_newline comma = false.
Proof. reflexivity. Qed.

(** A field without special characters is read as it stands. *)
Lemma read_in_field (p : str) (fields : row) (acc text : str) :
  existsb needs_quotes p = false ->
  read_record IN_FIELD fields acc (p ++ text)
  = read_record IN_FIELD fields (acc ++ p) text.
Proof.
  revert acc. induction p as [|c p IH]; intros acc Hp.
  - now rewrite app_nil_r.
  - simpl in Hp. apply orb_false_iff in Hp. destruct Hp as [Hc Hp].
    destruct (not_special c Hc) as [Hn [Hcomma _]].
    simpl. rewrite Hn, Hcomma, IH by assumption.
    now rewrite <- app_assoc.
Qed.

(** Between quotes the reader undoes [escape]. *)
Lemma read_in_quotes (f : str) (fields : row) (acc text : str) :
  read_record IN_QUOTED_FIELD fields acc (escape f ++ dquote :: text)
  = read_record QUOTE_IN_QUOTED_FIELD fields (acc ++ f) text.
Proof.
  revert acc. induction f as [|c f IH]; intros acc.
  - simpl. now rewrite app_nil_r.
  - unfold escape. cbn [flat_map]. fold (escape f).
    replace (acc ++ c :: f) with ((acc ++ [c]) ++ f) by now rewrite <- app_assoc.
    destruct (Py.chr_eqb c dquote) eqn:Hq.
    + unfold Py.chr_eqb in Hq. apply Ascii.eqb_eq in Hq. subst c.
      cbn [app read_record]. rewrite dquote_not_newline.
      replace (Py.chr_eqb dquote dquote) with true by reflexivity.
      apply IH.
    + cbn [app read_record]. destruct (is_newline c); [apply IH|].
      rewrite Hq. apply IH.
Qed.

(** A written field followed by a comma is read back and closed. *)
Lemma read_field_comma (st : reader_state) (f : str) (fields : row) (text : str) :
  st = START_RECORD \/ st = START_FIELD ->
  read_record st fields [] (write_field f ++ comma :: text)
  = read_record START_FIELD (fields ++ [f]) [] text.
Proof.
  intros Hst. unfold write_field.
  destruct (existsb needs_quotes f) eqn:Hf.
  - cbn [app].
    assert (read_record st fields [] (dquote :: (escape f ++ [dquote]) ++ comma :: text)
            = read_record IN_QUOTED_FIELD fields []
                (escape f ++ dquote :: comma :: text)) as ->.
    { rewrite <- app_assoc. destruct Hst as [-> | ->]; reflexivity. }
    rewrite read_in_quotes. reflexivity.
  - destruct f as [|c f].
    + destruct Hst as [-> | ->]; reflexivity.
    + simpl in Hf. apply orb_false_iff in Hf. destruct Hf as [Hc Hf].
      destruct (not_special c Hc) as [Hn [Hcomma Hq]].
      assert (read_record st fields [] ((c :: f) ++ comma :: text)
              = read_record IN_FIELD fields [c] (f ++ comma :: text)) as ->.
      { destruct Hst as [-> | ->]; cbn [app read_record];
          now rewrite Hn, Hq, Hcomma. }
      rewrite read_in_field by assumption. reflexivity.
Qed.

(** A written field followed by the terminator closes the record. *)
Lemma read_field_end (st : reader_state) (f : str) (fields : row) (text : str) :
  st = START_FIELD \/ (st = START_RECORD /\ f <> []) ->
  read_record st fields [] (write_field f ++ cr :: lf :: text)
  = (fields ++ [f], Some text).
Proof.
  intros Hst. unfold write_field.
  destruct (existsb needs_quotes f) eqn:Hf.
  - cbn [app].
    assert (read_record st fields [] (dquote :: (escape f ++ [dquote]) ++ cr :: lf :: text)
            = read_record IN_QUOTED_FIELD fields []
                (escape f ++ dquote :: cr :: lf :: text)) as ->.
    { rewrite <- app_assoc. destruct Hst as [-> | [-> _]]; reflexivity. }
    rewrite read_in_quotes. reflexivity.
  - destruct f as [|c f].
    + destruct Hst as [-> | [_ Hne]]; [reflexivity | congruence].
    + simpl in Hf. apply orb_false_iff in Hf. destruct Hf as [Hc Hf].
      destruct (not_special c Hc) as [Hn [Hcomma Hq]].
      assert (read_record st fields [] ((c :: f) ++ cr :: lf :: text)
              = read_record IN_FIELD fields [c] (f ++ cr :: lf :: text)) as ->.
      { destruct Hst as [-> | [-> _]]; cbn [app read_record];
          now rewrite Hn, Hq, Hcomma. }
      rewrite read_in_field by assumption. reflexivity.
Qed.

Lemma write_fields_cons (f g : str) (more : row) :
  write_fields (f :: g :: more) = write_field f ++ comma :: write_fields (g :: more).
Proof. reflexivity. Qed.

(** The fields written after a comma are read back in order. *)
Lemma read_fields (fs : row) (fields : row) (text : str) :
  fs <> [] ->
  read_record START_FIELD fields [] (write_fields fs ++ cr :: lf :: text)
  = (fields ++ fs, Some text).
Proof.
  revert fields. induction fs as [|f fs IH]; intros fields Hne; [congruence|].
  destruct fs as [|g more].
  - cbn [write_fields]. apply read_field_end. now left.
  - rewrite write_fields_cons, <- app_assoc. cbn [app].
    rewrite read_field_comma by now right.
    rewrite IH by discriminate. now rewrite <- app_assoc.
Qed.

(** What the writer writes for a record, the reader reads as that
    record. *)
Lemma read_written_record (r : row) (text : str) :
  read_record START_RECORD [] [] (write_record r ++ text) = (r, Some text).
Proof.
  destruct r as [|f fs]; [reflexivity|].
  destruct fs as [|g more].
  - destruct f as [|c f]; [reflexivity|].
    unfold write_record. cbn [write_fields]. rewrite <- app_assoc. cbn [app].
    apply (read_field_end START_RECORD (c :: f) [] text). right. now split.
  - assert (write_record (f :: g :: more)
            = write_fields (f :: g :: more) ++ [cr; lf]) as ->
      by now destruct f.
    rewrite write_fields_cons, <- !app_assoc. cbn [app].
    rewrite read_field_comma by now left.
    apply (read_fields (g :: more) [f] text). discriminate.
Qed.

Lemma write_record_not_nil (r : row) : exists c w, write_record r = c :: w.
Proof.
  destruct r as [|[|c f] [|g more]]; unfold write_record;
    try (cbn; eauto; fail);
    match goal with
    | |- context [write_fields ?fs] => destruct (write_fields fs); cbn; eauto
    end.
Qed.

(** The reader finds in what the writer wrote the records written, all
    closed. *)
Lemma read_written_records (rows : list row) (fuel : nat) (text : str) :
  length rows <= fuel ->
  read_records fuel (write_records rows ++ text)
  = (rows ++ fst (read_records (fuel - length rows) text),
     snd (read_records (fuel - length rows) text)).
Proof.
  revert fuel. induction rows as [|r rows IH]; intros fuel Hfuel.
  - simpl. rewrite Nat.sub_0_r. now destruct (read_records fuel text).
  - destruct fuel as [|fuel]; [simpl in Hfuel; lia|].
    unfold write_records. cbn [flat_map]. fold (write_records rows).
    rewrite <- app_assoc.
    destruct (write_record_not_nil r) as [c [w Hw]].
    assert (read_records (S fuel) (write_record r ++ write_records rows ++ text)
            = let (records, tail) := read_records fuel (write_records rows ++ text) in
              (r :: records, tail)) as ->.
    { pose proof (read_written_record r (write_records rows ++ text)) as Hr.
      rewrite Hw in *. cbn [app] in *. cbn [read_records]. now rewrite Hr. }
    rewrite IH by (simpl in Hfuel; lia). reflexivity.
Qed.

Lemma after_newline_app (c : ascii) (rest w : str) :
  no_leading_lf w -> after_newline c (rest ++ w) = after_newline c rest ++ w.
Proof.
  intros Hw. destruct rest as [|c' rest].
  - destruct w as [|c' w]; [reflexivity|]. cbn [app after_newline].
    cbn [no_leading_lf] in Hw. apply chr_eqb_false in Hw.
    now rewrite Hw, andb_false_r.
  - simpl. now destruct (Py.chr_eqb c cr && Py.chr_eqb c' lf).
Qed.

Lemma after_newline_length (c : ascii) (rest : str) :
  length (after_newline c rest) <= length rest.
Proof.
  destruct rest as [|c' rest]; simpl; [lia|].
  destruct (Py.chr_eqb c cr && Py.chr_eqb c' lf); simpl; lia.
Qed.

(** A record that a terminator closes is not changed by what is written
    behind the text. *)
Lemma read_record_app (text w : str) (st : reader_state) (fields : row) (field : str)
    (r : row) (rest : str) :
  no_leading_lf w ->
  read_record st fields field text = (r, Some rest) ->
  read_record st fields field (text ++ w) = (r, Some (rest ++ w)).
Proof.
  intros Hw. revert st fields field.
  induction text as [|c text IH]; intros st fields field H.
  - simpl in H. discriminate.
  - cbn [app read_record] in *.
    destruct (is_newline c).
    + destruct st; try (injection H as <- <-; now rewrite after_newline_app);
        now apply IH.
    + destruct st;
        repeat match goal with
               | |- context [if ?b then _ else _] => destruct b
               end; now apply IH.
Qed.

Lemma read_record_shorter (text : str) (st : reader_state) (fields : row) (field : str)
    (r : row) (rest : str) :
  read_record st fields field text = (r, Some rest) -> length rest < length text.
Proof.
  revert st fields field.
  induction text as [|c text IH]; intros st fields field H.
  - simpl in H. discriminate.
  - cbn [read_record] in H. cbn [length].
    pose proof (after_newline_length c text) as Hlen.
    destruct (is_newline c).
    + destruct st; try (injection H as <- <-; lia);
        apply IH in H; lia.
    + destruct st;
        repeat match type of H with
               | context [if ?b then _ else _] => destruct b
               end; apply IH in H; lia.
Qed.

(** More fuel than characters changes nothing. *)
Lemma read_records_enough (n : nat) (text : str) (fuel fuel' : nat) :
  length text <= n -> length text <= fuel -> length text <= fuel' ->
  read_records fuel text = read_records fuel' text.
Proof.
  revert text fuel fuel'.
  induction n as [|n IH]; intros text fuel fuel' Hn Hfuel Hfuel'.
  - destruct text; [|simpl in Hn; lia]. now destruct fuel, fuel'.
  - destruct text as [|c text]; [now destruct fuel, fuel'|].
    simpl in Hn, Hfuel, Hfuel'.
    destruct fuel as [|fuel]; [lia|]. destruct fuel' as [|fuel']; [lia|].
    cbn [read_records].
    destruct (read_record START_RECORD [] [] (c :: text)) as [r [rest|]] eqn:Hr;
      [|reflexivity].
    apply read_record_shorter in Hr. simpl in Hr.
    now rewrite (IH rest fuel fuel') by lia.
Qed.

Lemma read_records_fuel (fuel : nat) (text : str) :
  length text <= fuel -> read_records fuel text = closed_records text.
Proof.
  intros H. unfold closed_records.
  apply (read_records_enough (length text)); lia.
Qed.

Lemma closed_records_cons (c : ascii) (text : str) :
  closed_records (c :: text)
  = match read_record START_RECORD [] [] (c :: text) with
    | (r, Some rest) =>
        let (records, tail) := closed_records rest in (r :: records, tail)
    | (_, None) => ([], c :: text)
    end.
Proof.
  unfold closed_records at 1. cbn [length read_records].
  destruct (read_record START_RECORD [] [] (c :: text)) as [r [rest|]] eqn:Hr;
    [|reflexivity].
  apply read_record_shorter in Hr. simpl in Hr.
  now rewrite read_records_fuel by lia.
Qed.

(** Reading a text with more text behind it: the closed records stay,
    and the reader goes on from the text that was left. *)
Lemma closed_records_app (text w : str) :
  no_leading_lf w ->
  closed_records (text ++ w)
  = (fst (closed_records text)
       ++ fst (closed_records (snd (closed_records text) ++ w)),
     snd (closed_records (snd (closed_records text) ++ w))).
Proof.
  intros Hw.
  remember (length text) as n eqn:Hn.
  assert (length text <= n) as Hle by lia. clear Hn.
  revert text Hle. induction n as [|n IH]; intros text Hle.
  - destruct text; [|simpl in Hle; lia]. simpl.
    now destruct (closed_records w).
  - destruct text as [|c text].
    + simpl. now destruct (closed_records w).
    + rewrite (closed_records_cons c text).
      destruct (read_record START_RECORD [] [] (c :: text)) as [r [rest|]] eqn:Hr.
      * pose proof (read_record_shorter _ _ _ _ _ _ Hr) as Hshort.
        apply (read_record_app _ w _ _ _ _ _ Hw) in Hr.
        cbn [app]. rewrite closed_records_cons. cbn [app] in Hr. rewrite Hr.
        simpl in Hshort, Hle. rewrite (IH rest) by lia.
        destruct (closed_records rest) as [records tail]. reflexivity.
      * cbn [fst snd app]. now destruct (closed_records (c :: text ++ w)).
Qed.

Lemma closed_records_written (rows : list row) :
  closed_records (write_records rows) = (rows, []).
Proof.
  unfold closed_records.
  assert (length rows <= length (write_records rows)) as Hlen.
  { induction rows as [|r rows IH]; [simpl; lia|].
    unfold write_records in *. cbn [flat_map]. rewrite length_app.
    destruct (write_record_not_nil r) as [c [w ->]]. simpl. lia. }
  pose proof (read_written_records rows (length (write_records rows)) [] Hlen) as H.
  rewrite app_nil_r in H. rewrite H.
  destruct (length (write_records rows) - length rows); simpl; now rewrite app_nil_r.
Qed.

Lemma write_records_no_leading_lf (rows : list row) :
  Forall (fun r => r <> []) rows -> no_leading_lf (write_records rows).
Proof.
  intros Hrows. destruct rows as [|r rows]; [exact I|].
  inversion Hrows as [|? ? Hr _]; subst.
  unfold write_records. cbn [flat_map].
  destruct r as [|f fs]; [congruence|].
  unfold write_record.
  destruct f as [|c f].
  - destruct fs as [|g more]; cbn; discriminate.
  - assert (exists x w, write_field (c :: f) = x :: w /\ x <> lf) as [x [w [Hx Hlf]]].
    { unfold write_field. destruct (existsb needs_quotes (c :: f)) eqn:Hq.
      - exists dquote, (escape (c :: f) ++ [dquote]). split; [reflexivity|discriminate].
      - exists c, f. split; [reflexivity|].
        simpl in Hq. apply orb_false_iff in Hq. destruct Hq as [Hc _].
        apply not_special in Hc. destruct Hc as [Hn _].
        unfold is_newline in Hn. apply orb_false_iff in Hn.
        now apply chr_eqb_false. }
    destruct fs as [|g more]; cbn [write_fields]; rewrite Hx; cbn; exact Hlf.
Qed.

(** A line without quotes and line ends is cut at its commas, whatever
    the reader held when it began. *)
Lemma read_open_line (line : str) (st : reader_state) (fields : row) (acc text : str) :
  existsb (fun c => Py.chr_eqb c dquote || is_newline c) line = false ->
  st = IN_FIELD \/ ((st = START_RECORD \/ st = START_FIELD) /\ acc = []) ->
  read_record st fields acc (line ++ comma :: text)
  = read_record START_FIELD
      (fields ++ (acc ++ hd [] (Py.split comma line)) :: tl (Py.split comma line))
      [] text.
Proof.
  revert st fields acc. induction line as [|c line IH]; intros st fields acc Hline Hst.
  - cbn [app Py.split hd tl]. rewrite app_nil_r.
    destruct Hst as [-> | [[-> | ->] ->]]; reflexivity.
  - cbn [existsb] in Hline. apply orb_false_iff in Hline.
    destruct Hline as [Hc Hline]. apply orb_false_iff in Hc. destruct Hc as [Hq Hn].
    cbn [app Py.split].
    destruct (Py.chr_eqb c comma) eqn:Hcomma.
    + assert (read_record st fields acc (c :: line ++ comma :: text)
              = read_record START_FIELD (fields ++ [acc]) [] (line ++ comma :: text)) as ->.
      { destruct Hst as [-> | [[-> | ->] ->]]; cbn [read_record];
          now rewrite Hn, ?Hq, Hcomma. }
      rewrite (IH START_FIELD (fields ++ [acc]) [] Hline)
        by (right; split; [now right | reflexivity]).
      cbn [hd tl app]. rewrite app_nil_r, <- app_assoc. cbn [app].
      pose proof (split_not_nil comma line) as Hne.
      destruct (Py.split comma line) as [|p ps]; [congruence|]. reflexivity.
    + assert (read_record st fields acc (c :: line ++ comma :: text)
              = read_record IN_FIELD fields (acc ++ [c]) (line ++ comma :: text)) as ->.
      { destruct Hst as [-> | [[-> | ->] ->]]; cbn [read_record];
          now rewrite Hn, ?Hq, Hcomma. }
      rewrite (IH IN_FIELD fields (acc ++ [c]) Hline) by now left.
      pose proof (split_not_nil comma line) as Hne.
      destruct (Py.split comma line) as [|p ps]; [congruence|].
      cbn [hd tl]. now rewrite <- app_assoc.
Qed.

Lemma write_plain_field (d : str) : plain_field d -> write_field d = d.
Proof. unfold plain_field, write_field. now intros ->. Qed.

Lemma plain_field_open (d : str) :
  plain_field d -> existsb (fun c => Py.chr_eqb c dquote || is_newline c) d = false.
Proof.
  unfold plain_field. induction d as [|c d IH]; [reflexivity|].
  cbn [existsb]. intros H. apply orb_false_iff in H. destruct H as [Hc Hd].
  destruct (not_special c Hc) as [Hn [_ Hq]].
  now rewrite Hq, Hn, IH.
Qed.

Lemma with_text_closed (records closed : list row) (text tail : str) :
  closed_records text = (closed, tail) ->
  with_text records text
  = match tail with
    | [] => File (records ++ closed)
    | c :: t => Unterminated (records ++ closed) c t
    end.
Proof. unfold with_text. now intros ->. Qed.

Lemma closed_records_tail (text : str) :
  closed_records (snd (closed_records text)) = ([], snd (closed_records text))
  \/ snd (closed_records text) = [].
Proof.
  remember (length text) as n eqn:Hn.
  assert (length text <= n) as Hle by lia. clear Hn.
  revert text Hle. induction n as [|n IH]; intros text Hle.
  - destruct text; [|simpl in Hle; lia]. now right.
  - destruct text as [|c text]; [now right|].
    rewrite (closed_records_cons c text).
    destruct (read_record START_RECORD [] [] (c :: text)) as [r [rest|]] eqn:Hr.
    + pose proof (read_record_shorter _ _ _ _ _ _ Hr) as Hshort.
      simpl in Hshort, Hle.
      destruct (IH rest ltac:(lia)) as [H|H];
        destruct (closed_records rest) as [records tail]; simpl in *; auto.
    + left. cbn [snd]. rewrite (closed_records_cons c text), Hr. reflexivity.
Qed.

Lemma closed_records_not_nil (c : ascii) (text : str) :
  closed_records (c :: text) <> ([], []).
Proof.
  rewrite closed_records_cons.
  destruct (read_record START_RECORD [] [] (c :: text)) as [r [rest|]].
  - destruct (closed_records rest). discriminate.
  - discriminate.
Qed.

(** The records a reader finds in the file of a text are those it finds
    in the text. *)
Lemma records_of_text (text : str) : records_of (of_text text) = reader text.
Proof.
  unfold of_text, with_text, reader.
  destruct (closed_records_tail text) as [H|H];
    destruct (closed_records text) as [closed tail]; simpl in H.
  - destruct tail as [|c t]; [reflexivity|].
    cbn [records_of app]. unfold reader. now rewrite H.
  - subst tail. reflexivity.
Qed.

End CsvText.

(** X23. Append mode writes behind the last character of the file,
    whatever the file holds: the file afterwards is the one whose text
    is the old text followed by the text of the new rows, with the
    header before them when there was no text. *)
Theorem append_to_csv_writes_behind_text
    (data : SyncRun) (add_breaks : bool) (text : str) :
  Csv.append_to_csv data (Csv.of_text text) false add_breaks
  = (Csv.of_text
       (text ++ Csv.write_records
                  (match text with
                   | [] => Csv.fieldnames :: new_block data add_breaks
                   | _ :: _ => new_block data add_breaks
                   end)),
     Ok tt).
Proof.
  assert (no_leading_lf (Csv.write_records (new_block data add_breaks))) as Hlf.
  { apply write_records_no_leading_lf.
    eapply Forall_impl; [|apply new_block_five].
    intros r Hr ->. discriminate. }
  destruct text as [|c text].
  - cbn [app]. unfold Csv.of_text at 2.
    rewrite (with_text_closed [] _ _ _ (closed_records_written _)).
    change (Csv.of_text []) with (Csv.File []).
    now rewrite append_to_csv_fresh by now right.
  - unfold Csv.of_text at 2.
    rewrite (with_text_closed [] _ _ _ (closed_records_app (c :: text) _ Hlf)).
    unfold Csv.of_text, Csv.with_text.
    pose proof (closed_records_not_nil c text) as Hne.
    destruct (Csv.closed_records (c :: text)) as [closed tail]. cbn [fst snd app].
    destruct tail as [|c' t].
    + destruct closed as [|r rs]; [exfalso; apply Hne; reflexivity|].
      rewrite append_to_csv_append. cbn [app].
      now rewrite closed_records_written.
    + unfold Csv.append_to_csv. cbn [Csv.isfile Csv.size_is_zero andb negb orb].
      rewrite write_new_rows. cbn [app].
      unfold Csv.continue_with, Csv.with_text.
      cbn [app].
      now destruct (Csv.closed_records (c' :: t ++ Csv.write_records _)) as [cl [|x y]].
Qed.

Lemma read_continued_line (line d f : str) (fs : Csv.row) (text : str) :
  existsb (fun c => Py.chr_eqb c Csv.dquote || Csv.is_newline c) line = false ->
  plain_field d ->
  Csv.read_record Csv.START_RECORD [] []
    (line ++ Csv.write_record (d :: f :: fs) ++ text)
  = (Py.split Csv.comma (line ++ d) ++ f :: fs, Some text).
Proof.
  intros Hline Hd.
  assert (line ++ Csv.write_record (d :: f :: fs) ++ text
          = (line ++ d) ++ Csv.comma
              :: Csv.write_fields (f :: fs) ++ Csv.cr :: Csv.lf :: text) as ->.
  { assert (Csv.write_record (d :: f :: fs)
            = Csv.write_fields (d :: f :: fs) ++ [Csv.cr; Csv.lf]) as ->
      by now destruct d.
    rewrite write_fields_cons, (write_plain_field d Hd), <- !app_assoc.
    reflexivity. }
  rewrite (read_open_line (line ++ d) Csv.START_RECORD [] []).
  - pose proof (split_not_nil Csv.comma (line ++ d)) as Hne.
    destruct (Py.split Csv.comma (line ++ d)) as [|p ps]; [congruence|].
    cbn [hd tl app]. apply read_fields. discriminate.
  - rewrite existsb_app, Hline. now apply plain_field_open.
  - right. split; [now left | reflexivity].
Qed.

(** X24. Append mode on a file whose last line has no terminator: the
    first new row continues that line.  For a last line outside quotes
    and a first field the writer does not quote, the file then holds one
    record made of the fields of the old line, the last of them run
    together with the first field of the new row, and the other fields
    of the new row; the rows after it are whole. *)
Theorem append_to_csv_continues_open_line
    (data : SyncRun) (add_breaks : bool) (records : list Csv.row)
    (c : ascii) (line d f : str) (fs : Csv.row) (more : list Csv.row) :
  open_line (c :: line) ->
  plain_field d ->
  new_block data add_breaks = (d :: f :: fs) :: more ->
  Csv.append_to_csv data (Csv.Unterminated records c line) false add_breaks
  = (Csv.File
       (records ++ (Py.split Csv.comma (c :: line ++ d) ++ f :: fs) :: more),
     Ok tt).
Proof.
  intros [_ Hline] Hd Hblock.
  unfold Csv.append_to_csv. cbn [Csv.isfile Csv.size_is_zero andb negb orb].
  rewrite write_new_rows. cbn [app]. rewrite Hblock.
  unfold Csv.continue_with.
  rewrite (with_text_closed records
             ((Py.split Csv.comma (c :: line ++ d) ++ f :: fs) :: more) _ []);
    [reflexivity|].
  unfold Csv.write_records. cbn [flat_map app]. fold (Csv.write_records more).
  rewrite closed_records_cons.
  pose proof (read_continued_line (c :: line) d f fs (Csv.write_records more) Hline Hd)
    as Hread.
  cbn [app] in Hread. rewrite Hread.
  now rewrite closed_records_written.
Qed.

Lemma append_to_csv_continues_open_line_witness :
  Csv.append_to_csv demo_run
    (Csv.of_text (Csv.write_records [Csv.fieldnames] ++ demo_open_line)) false false
  = (Csv.File
       [Csv.fieldnames;
        [$"9/12/2025"; $"1:00:00 PM"; $"Image"; $"Shots"; $"plate.exr9/13/2025";
         $"2:30:20 PM"; $"Video"; $"Project"; $"test.mov"]],
     Ok tt).
Proof.
  change (Csv.of_text (Csv.write_records [Csv.fieldnames] ++ demo_open_line))
    with (Csv.Unterminated [Csv.fieldnames] "9"%char (tl demo_open_line)).
  rewrite (append_to_csv_continues_open_line demo_run false [Csv.fieldnames]
             "9"%char (tl demo_open_line)
             $"9/13/2025" $"2:30:20 PM" [$"Video"; $"Project"; $"test.mov"] []).
  - reflexivity.
  - split; [discriminate | reflexivity].
  - reflexivity.
  - reflexivity.
Defined.

(** X25. Prepend mode reads the file and writes it anew, so it depends
    only on the records a reader finds in the text: a last line without
    terminator is read as a record like any other, and the file that is
    written ends where a record ends. *)
Theorem append_to_csv_prepend_reads_records
    (data : SyncRun) (add_breaks : bool) (text : str) :
  Csv.append_to_csv data (Csv.of_text text) true add_breaks
  = Csv.append_to_csv data (Csv.File (Csv.reader text)) true add_breaks
  /\ exists records,
       fst (Csv.append_to_csv data (Csv.of_text text) true add_breaks)
       = Csv.File records.
Proof.
  pose proof (records_of_text text) as Hrecords.
  unfold Csv.of_text, Csv.with_text, Csv.reader in *.
  destruct (Csv.closed_records text) as [closed tail].
  destruct tail as [|c t]; cbn [app] in *.
  - split; [reflexivity|].
    unfold Csv.append_to_csv.
    destruct closed as [|r rs];
      cbn [Csv.isfile Csv.size_is_zero Csv.records_of andb negb orb app].
    + destruct (Csv.write_rows _ _ _) as [file r]. now exists file.
    + destruct (Csv.write_rows _ _ _) as [file [u|e]]; [|now exists file].
      destruct (Csv.write_rows _ _ file) as [file2 r2]. now exists file2.
  - assert (Csv.size_is_zero
              (Csv.File (closed ++ [fst (Csv.read_record Csv.START_RECORD [] [] (c :: t))]))
            = false) as Hsize by now destruct closed.
    unfold Csv.append_to_csv.
    cbn [Csv.isfile andb negb orb]. rewrite Hsize.
    cbn [Csv.size_is_zero andb negb orb].
    rewrite Hrecords. cbn [Csv.records_of].
    split; [reflexivity|].
    destruct (Csv.write_rows _ _ _) as [file [u|e]]; [|now exists file].
    destruct (Csv.write_rows _ _ file) as [file2 r2]. now exists file2.
Qed.
